(** * Layout logic of the thumbnail editor (SingleThumbnailEditor)

    A shallow embedding of the descriptor-to-canvas layout code and of the
    interactive operations of [SingleThumbnailEditor], together with the
    part of the fabric canvas API those functions call.

    Conventions of the embedding:
    - JavaScript numbers are idealised as exact rationals ([Q]); numeric
      equalities are therefore stated up to [Qeq] ([==]).  NaN and the
      infinities have no counterpart.
    - An optional field [f?: T] of a TypeScript interface is an [option T];
      [None] is [undefined].
    - Object identity (JavaScript reference equality) is an explicit
      [oid], allocated by the canvas when the object is added. *)

From Stdlib Require Import QArith Lqa String Ascii Bool Lia DecimalString.
From stdpp Require Import base list.

Local Open Scope string_scope.

(** ** JavaScript operators used by the source *)

Module JS.

(** [x || d] on an optional number: [undefined] and [0] are falsy. *)
Definition or_num (x : option Q) (d : Q) : Q :=
  match x with
  | Some v => if Qeq_bool v 0 then d else v
  | None => d
  end.

(** [x || d] on an optional string: [undefined] and the empty string are
    falsy. *)
Definition or_str (x : option string) (d : string) : string :=
  match x with
  | Some EmptyString => d
  | Some s => s
  | None => d
  end.

(** [x || d] on an optional value of a union of non-empty string
    literals: only [undefined] is falsy. *)
Definition or_lit {A} (x : option A) (d : A) : A :=
  match x with Some v => v | None => d end.

(** [x ?? d]: only [undefined] is replaced. *)
Definition nullish {A} (x : option A) (d : A) : A :=
  match x with Some v => v | None => d end.

(** Truthiness of an optional string, boolean, number. *)
Definition truthy_str (x : option string) : bool :=
  match x with
  | Some EmptyString => false
  | Some _ => true
  | None => false
  end.

Definition truthy_bool (x : option bool) : bool :=
  match x with Some b => b | None => false end.

(** [hay.includes(needle)] *)
Fixpoint includes (needle hay : string) : bool :=
  String.prefix needle hay ||
  match hay with
  | EmptyString => false
  | String _ rest => includes needle rest
  end.

(** [Math.min], [Math.max] on two numbers. *)
Definition min (a b : Q) : Q := if Qle_bool a b then a else b.
Definition max (a b : Q) : Q := if Qle_bool a b then b else a.

(** A JavaScript array with holes: [a[i] = v] extends the array when [i]
    is past its end, leaving holes ([None]) in between. *)
Fixpoint array_set {A} (a : list (option A)) (i : nat) (v : A)
  : list (option A) :=
  match i, a with
  | O, [] => [Some v]
  | O, _ :: rest => Some v :: rest
  | S i', [] => None :: array_set [] i' v
  | S i', x :: rest => x :: array_set rest i' v
  end.

(** [forEach] and [reduce] skip the holes. *)
Definition present {A} (a : list (option A)) : list A :=
  omap id a.

(** [a[i]]: [undefined] at a hole and past the end. *)
Definition get {A} (a : list (option A)) (i : nat) : option A :=
  match a !! i with
  | Some (Some v) => Some v
  | _ => None
  end.

End JS.

(** ** Content descriptor *)

Definition THUMBNAIL_WIDTH : Q := 1280.
Definition THUMBNAIL_HEIGHT : Q := 720.

Inductive TextAlign := align_left | align_center | align_right | align_justify.
Inductive Origin := o_left | o_center | o_right | o_top | o_bottom.

Module TextConfig.
Record t := mk {
  content : string;
  fontSize : option Q;
  fontFamily : option string;
  color : option string;
  top : option Q;
  left : option Q;
  angle : option Q;
  textAlign : option TextAlign;
  originX : option Origin;
  fontWeight : option string;
  stroke : option string;
  strokeWidth : option Q;
  width : option Q
}.

(** An entry that supplies only its content. *)
Definition plain (s : string) : t :=
  mk s None None None None None None None None None None None None.
End TextConfig.

Module InitialContent.
Record t := mk {
  texts : option (list TextConfig.t);
  logoUrl : option string;
  logoUrls : option (list string);
  logoBorder : option bool;
  backgroundColor : option string;
  logoSizeMultiplier : option Q;
  logoTop : option Q;
  youtubeLogoUrl : option string;
  showArrow : option bool;
  youtubeLogoSizeMultiplier : option Q;
  youtubeLogoTop : option Q;
  backgroundImageUrl : option string;
  showNineBall : option bool;
  nineBallSize : option Q
}.

Definition empty : t :=
  mk None None None None None None None None None None None None None None.
End InitialContent.

(** ** Scene objects

    A scene object records the properties this code gives it, through the
    options of its constructor or a later [set]; a property the code never
    sets is [None] and keeps the library's default. *)

Inductive ObjType := textbox | i_text | text | image | triangle | circle.

#[global] Instance ObjType_eq_dec : EqDecision ObjType.
Proof. solve_decision. Defined.

Definition is_textbox_or_itext (ty : ObjType) : bool :=
  match ty with textbox | i_text => true | _ => false end.

Module FabricObject.
Record t := mk {
  oid : nat;
  type : ObjType;
  text : option string;
  left : option Q;
  top : option Q;
  width : option Q;
  height : option Q;
  scaleX : option Q;
  scaleY : option Q;
  angle : option Q;
  radius : option Q;
  originX : option Origin;
  originY : option Origin;
  fill : option string;
  stroke : option string;
  strokeWidth : option Q;
  fontSize : option Q;
  fontFamily : option string;
  fontWeight : option string;
  textAlign : option TextAlign;
  charSpacing : option Q;
  editable : option bool;
  selectable : option bool;
  evented : option bool
}.

Definition blank (ty : ObjType) : t :=
  mk 0 ty None None None None None None None None None None None None
     None None None None None None None None None None.

Definition with_oid (i : nat) (o : t) : t :=
  mk i (type o) (text o) (left o) (top o) (width o) (height o) (scaleX o)
     (scaleY o) (angle o) (radius o) (originX o) (originY o) (fill o)
     (stroke o) (strokeWidth o) (fontSize o) (fontFamily o) (fontWeight o)
     (textAlign o) (charSpacing o) (editable o) (selectable o) (evented o).

(** [img.scale(s)] *)
Definition scale (s : Q) (o : t) : t :=
  mk (oid o) (type o) (text o) (left o) (top o) (width o) (height o)
     (Some s) (Some s) (angle o) (radius o) (originX o) (originY o)
     (fill o) (stroke o) (strokeWidth o) (fontSize o) (fontFamily o)
     (fontWeight o) (textAlign o) (charSpacing o) (editable o)
     (selectable o) (evented o).

(** [o.set({ left, top, originX, originY })] *)
Definition set_position (l tp : Q) (ox oy : Origin) (o : t) : t :=
  mk (oid o) (type o) (text o) (Some l) (Some tp) (width o) (height o)
     (scaleX o) (scaleY o) (angle o) (radius o) (Some ox) (Some oy)
     (fill o) (stroke o) (strokeWidth o) (fontSize o) (fontFamily o)
     (fontWeight o) (textAlign o) (charSpacing o) (editable o)
     (selectable o) (evented o).

(** [o.set({ left, top, selectable, evented })] *)
Definition set_pinned (l tp : Q) (sel ev : bool) (o : t) : t :=
  mk (oid o) (type o) (text o) (Some l) (Some tp) (width o) (height o)
     (scaleX o) (scaleY o) (angle o) (radius o) (originX o) (originY o)
     (fill o) (stroke o) (strokeWidth o) (fontSize o) (fontFamily o)
     (fontWeight o) (textAlign o) (charSpacing o) (editable o)
     (Some sel) (Some ev).

(** [o.set({ left, top })] *)
Definition set_left_top (l tp : Q) (o : t) : t :=
  mk (oid o) (type o) (text o) (Some l) (Some tp) (width o) (height o)
     (scaleX o) (scaleY o) (angle o) (radius o) (originX o) (originY o)
     (fill o) (stroke o) (strokeWidth o) (fontSize o) (fontFamily o)
     (fontWeight o) (textAlign o) (charSpacing o) (editable o)
     (selectable o) (evented o).

(** [o.set({ stroke, strokeWidth })] *)
Definition set_stroke (s : string) (w : Q) (o : t) : t :=
  mk (oid o) (type o) (text o) (left o) (top o) (width o) (height o)
     (scaleX o) (scaleY o) (angle o) (radius o) (originX o) (originY o)
     (fill o) (Some s) (Some w) (fontSize o) (fontFamily o)
     (fontWeight o) (textAlign o) (charSpacing o) (editable o)
     (selectable o) (evented o).

Definition is_text_object (o : t) : bool := is_textbox_or_itext (type o).
End FabricObject.

(** The image a successful [Image.fromURL] resolves with: its natural
    size. *)
Record LoadedImage := { img_width : Q; img_height : Q }.

(** The [Image] object of a loaded image. *)
Definition Image_of (i : LoadedImage) : FabricObject.t :=
  FabricObject.mk 0 image None None None (Some (img_width i))
    (Some (img_height i)) None None None None None None None None None None
    None None None None None None None.


(** ** The canvas

    The drawing surface is the external scene library's.  Its object list
    [_objects] is ordered back (first) to front (last). *)

Module Canvas.

Record t := mk {
  width : Q;
  height : Q;
  backgroundColor : string;
  _objects : list FabricObject.t;
  _activeObject : option FabricObject.t;
  nextId : nat;
  styleWidth : option Q;
  styleHeight : option Q;
  disposed : bool
}.

(** Modelled from the spec: the constructor of the scene library's canvas
    (not in the repository): a surface of the given size and background
    with an empty object list. *)
Definition new (w h : Q) (bg : string) : t :=
  mk w h bg [] None 0 None None false.

Definition with_objects (l : list FabricObject.t) (c : t) : t :=
  mk (width c) (height c) (backgroundColor c) l (_activeObject c)
     (nextId c) (styleWidth c) (styleHeight c) (disposed c).

(** Removes the first element that is the object [o] (same identity). *)
Fixpoint removeFromArray (o : FabricObject.t) (l : list FabricObject.t)
  : list FabricObject.t :=
  match l with
  | [] => []
  | x :: rest =>
      if Nat.eqb (FabricObject.oid x) (FabricObject.oid o) then rest
      else x :: removeFromArray o rest
  end.

Definition same_object (a b : FabricObject.t) : bool :=
  Nat.eqb (FabricObject.oid a) (FabricObject.oid b).

(** Modelled from the spec: the library's [add] (not in the repository):
    the object becomes the front-most one.  The result is the object as it
    lives on the canvas, with its identity. *)
Definition add (o : FabricObject.t) (c : t) : FabricObject.t * t :=
  let o' := FabricObject.with_oid (nextId c) o in
  (o', mk (width c) (height c) (backgroundColor c) (_objects c ++ [o'])
          (_activeObject c) (S (nextId c)) (styleWidth c) (styleHeight c)
          (disposed c)).

(** Modelled from the spec: the library's [remove] (not in the
    repository): the object leaves the list; a removed active object is
    no longer active. *)
Definition remove (o : FabricObject.t) (c : t) : t :=
  mk (width c) (height c) (backgroundColor c)
     (removeFromArray o (_objects c))
     (match _activeObject c with
      | Some a => if same_object a o then None else Some a
      | None => None
      end)
     (nextId c) (styleWidth c) (styleHeight c) (disposed c).

(** Modelled from the spec: the library's [sendObjectToBack] (not in the
    repository): nothing when the object is already the back-most one,
    otherwise it is taken out of the list and put first. *)
Definition sendObjectToBack (o : FabricObject.t) (c : t) : t :=
  match _objects c with
  | x :: _ =>
      if same_object x o then c
      else with_objects (o :: removeFromArray o (_objects c)) c
  | [] => with_objects [o] c
  end.

(** Modelled from the spec: the library's [bringObjectToFront] (not in the
    repository): nothing when the object is already the front-most one,
    otherwise it is taken out of the list and put last. *)
Definition bringObjectToFront (o : FabricObject.t) (c : t) : t :=
  match last (_objects c) with
  | Some x =>
      if same_object x o then c
      else with_objects (removeFromArray o (_objects c) ++ [o]) c
  | None => with_objects [o] c
  end.

(** [getObjects()] returns a copy of the list. *)
Definition getObjects (c : t) : list FabricObject.t := _objects c.

Definition getActiveObject (c : t) : option FabricObject.t := _activeObject c.

Definition setActiveObject (o : FabricObject.t) (c : t) : t :=
  mk (width c) (height c) (backgroundColor c) (_objects c) (Some o)
     (nextId c) (styleWidth c) (styleHeight c) (disposed c).

(** Modelled from the spec: the library's [clear] (not in the repository):
    every object is removed and the background is reset. *)
Definition clear (c : t) : t :=
  mk (width c) (height c) "" [] None (nextId c) (styleWidth c)
     (styleHeight c) (disposed c).

(** [canvas.backgroundColor = color] *)
Definition set_backgroundColor (color : string) (c : t) : t :=
  mk (width c) (height c) color (_objects c) (_activeObject c) (nextId c)
     (styleWidth c) (styleHeight c) (disposed c).

(** [canvasRef.current.style.width/height = ...]: the size of the element
    on screen; the coordinate space is not touched. *)
Definition set_style (w h : Q) (c : t) : t :=
  mk (width c) (height c) (backgroundColor c) (_objects c) (_activeObject c)
     (nextId c) (Some w) (Some h) (disposed c).

(** [el.style.width = `${w}px`; el.style.height = `${h}px`]: a negative
    length is no CSS width or height, and an assignment of a value that
    does not parse is dropped, the property keeping what it had. *)
Definition assign_style (w h : Q) (c : t) : t :=
  mk (width c) (height c) (backgroundColor c) (_objects c) (_activeObject c)
     (nextId c)
     (if Qle_bool 0 w then Some w else styleWidth c)
     (if Qle_bool 0 h then Some h else styleHeight c)
     (disposed c).

(** Objects are told apart by reference, whatever canvas they were made
    for: a canvas that replaces the canvas [old] hands out identities that
    [old] has not handed out. *)
Definition replacing (old : option t) (c : t) : t :=
  mk (width c) (height c) (backgroundColor c) (_objects c) (_activeObject c)
     (match old with Some o => nextId o | None => nextId c end)
     (styleWidth c) (styleHeight c) (disposed c).

(** Modelled from the spec: the library's [dispose] (not in the
    repository): the canvas drops its objects and is marked disposed. *)
Definition dispose (c : t) : t :=
  mk (width c) (height c) (backgroundColor c) [] None (nextId c)
     (styleWidth c) (styleHeight c) true.

(** An object already on the canvas is mutated in place ([o.set(...)]
    through a reference kept by the caller). *)
Definition update (o : nat) (f : FabricObject.t -> FabricObject.t) (c : t)
  : t :=
  with_objects
    ((fun x => if Nat.eqb (FabricObject.oid x) o then f x else x)
       <$> _objects c) c.

Inductive ImageFormat := png | jpeg.

Record DataURLOptions := {
  format : ImageFormat;
  quality : Q;
  multiplier : Q
}.

(** What a data URL encodes: the format and quality asked for, the pixel
    size of the raster and the scene it was rendered from. *)
Record DataURL := {
  url_format : ImageFormat;
  url_quality : Q;
  url_width : Q;
  url_height : Q;
  url_background : string;
  url_scene : list FabricObject.t
}.

(** Modelled from the spec: the library's [toDataURL] (not in the
    repository): the scene is rendered from the canvas coordinate space,
    scaled by [multiplier]; the size of the element on screen plays no
    part. *)
Definition toDataURL (o : DataURLOptions) (c : t) : DataURL :=
  {| url_format := format o;
     url_quality := quality o;
     url_width := (width c * multiplier o)%Q;
     url_height := (height c * multiplier o)%Q;
     url_background := backgroundColor c;
     url_scene := _objects c |}.

End Canvas.


(** ** Initialisation from the content descriptor

    The body of the deferred callback of the mount effect.  Its synchronous
    part is [initialize]; each [Image.fromURL(...).then/.catch] handler is
    a case of [settle], run when that load completes. *)

Local Open Scope Q_scope.

(** The variables captured by the handlers of one run of the callback:
    the live canvas, [backgroundImageRef], and the multi-logo counters. *)
Record Pass := mkPass {
  canvas : Canvas.t;
  backgroundImageRef : option FabricObject.t;
  loadedLogos : nat;
  logoImages : list (option (nat * Q))
}.

Definition with_canvas (c : Canvas.t) (p : Pass) : Pass :=
  mkPass c (backgroundImageRef p) (loadedLogos p) (logoImages p).

(** [new Textbox(textConfig.content, { ... })] of the text loop. *)
Definition new_Textbox (textConfig : TextConfig.t) : FabricObject.t :=
  {| FabricObject.oid := 0;
     FabricObject.type := textbox;
     FabricObject.text := Some (TextConfig.content textConfig);
     FabricObject.left :=
       Some (JS.nullish (TextConfig.left textConfig) (THUMBNAIL_WIDTH / 2 - 20));
     FabricObject.top :=
       Some (JS.or_num (TextConfig.top textConfig) (THUMBNAIL_HEIGHT / 2));
     FabricObject.width :=
       Some (JS.or_num (TextConfig.width textConfig) (THUMBNAIL_WIDTH * 0.8));
     FabricObject.height := None;
     FabricObject.scaleX := None;
     FabricObject.scaleY := None;
     FabricObject.angle := Some (JS.or_num (TextConfig.angle textConfig) 0);
     FabricObject.radius := None;
     FabricObject.originX :=
       Some (JS.or_lit (TextConfig.originX textConfig) o_center);
     FabricObject.originY := Some o_center;
     FabricObject.fill :=
       Some (JS.or_str (TextConfig.color textConfig) "#FFFFFF");
     FabricObject.stroke :=
       Some (JS.or_str (TextConfig.stroke textConfig) "#000000");
     FabricObject.strokeWidth :=
       Some (JS.nullish (TextConfig.strokeWidth textConfig) 3);
     FabricObject.fontSize :=
       Some (JS.or_num (TextConfig.fontSize textConfig) 60);
     FabricObject.fontFamily :=
       Some (JS.or_str (TextConfig.fontFamily textConfig) "Arial");
     FabricObject.fontWeight :=
       Some (JS.or_str (TextConfig.fontWeight textConfig) "bold");
     FabricObject.textAlign :=
       Some (JS.or_lit (TextConfig.textAlign textConfig) align_center);
     FabricObject.charSpacing := Some 0;
     FabricObject.editable := Some true;
     FabricObject.selectable := None;
     FabricObject.evented := None |}.

(** [initialContent.texts.forEach(... canvas.add(textObject))] *)
Definition add_texts (texts : list TextConfig.t) (c : Canvas.t) : Canvas.t :=
  fold_left (fun c textConfig => snd (Canvas.add (new_Textbox textConfig) c))
            texts c.

(** [new Circle({ ... })] of the nine ball. *)
Definition new_Circle (ballRadius ballTop : Q) : FabricObject.t :=
  {| FabricObject.oid := 0;
     FabricObject.type := circle;
     FabricObject.text := None;
     FabricObject.left := Some (THUMBNAIL_WIDTH / 2 - 20);
     FabricObject.top := Some ballTop;
     FabricObject.width := None;
     FabricObject.height := None;
     FabricObject.scaleX := None;
     FabricObject.scaleY := None;
     FabricObject.angle := None;
     FabricObject.radius := Some ballRadius;
     FabricObject.originX := Some o_center;
     FabricObject.originY := Some o_center;
     FabricObject.fill := Some "#FFFFFF";
     FabricObject.stroke := Some "#000000";
     FabricObject.strokeWidth := Some 3;
     FabricObject.fontSize := None;
     FabricObject.fontFamily := None;
     FabricObject.fontWeight := None;
     FabricObject.textAlign := None;
     FabricObject.charSpacing := None;
     FabricObject.editable := None;
     FabricObject.selectable := None;
     FabricObject.evented := None |}.

(** [new Text("9", { ... })] of the nine ball. *)
Definition new_Text_9 (ballRadius ballTop : Q) : FabricObject.t :=
  {| FabricObject.oid := 0;
     FabricObject.type := text;
     FabricObject.text := Some "9";
     FabricObject.left := Some (THUMBNAIL_WIDTH / 2 - 20);
     FabricObject.top := Some ballTop;
     FabricObject.width := None;
     FabricObject.height := None;
     FabricObject.scaleX := None;
     FabricObject.scaleY := None;
     FabricObject.angle := None;
     FabricObject.radius := None;
     FabricObject.originX := Some o_center;
     FabricObject.originY := Some o_center;
     FabricObject.fill := Some "#FFD700";
     FabricObject.stroke := None;
     FabricObject.strokeWidth := None;
     FabricObject.fontSize := Some (ballRadius * 0.8 * 1.3 * 1.2);
     FabricObject.fontFamily := Some "Arial";
     FabricObject.fontWeight := Some "bold";
     FabricObject.textAlign := Some align_center;
     FabricObject.charSpacing := None;
     FabricObject.editable := None;
     FabricObject.selectable := None;
     FabricObject.evented := None |}.

(** [new Triangle({ ... })]: the arrow under the youtube logo. *)
Definition new_Triangle (arrowTop : Q) : FabricObject.t :=
  {| FabricObject.oid := 0;
     FabricObject.type := triangle;
     FabricObject.text := None;
     FabricObject.left := Some (THUMBNAIL_WIDTH / 2 - 20);
     FabricObject.top := Some arrowTop;
     FabricObject.width := Some 40;
     FabricObject.height := Some 40;
     FabricObject.scaleX := None;
     FabricObject.scaleY := None;
     FabricObject.angle := Some 180;
     FabricObject.radius := None;
     FabricObject.originX := Some o_center;
     FabricObject.originY := Some o_center;
     FabricObject.fill := Some "#FF0000";
     FabricObject.stroke := None;
     FabricObject.strokeWidth := None;
     FabricObject.fontSize := None;
     FabricObject.fontFamily := None;
     FabricObject.fontWeight := None;
     FabricObject.textAlign := None;
     FabricObject.charSpacing := None;
     FabricObject.editable := None;
     FabricObject.selectable := None;
     FabricObject.evented := None |}.

(** [if (backgroundImageRef) canvas.sendObjectToBack(backgroundImageRef)] *)
Definition keep_background_back (p : Pass) : Pass :=
  match backgroundImageRef p with
  | Some bg => with_canvas (Canvas.sendObjectToBack bg (canvas p)) p
  | None => p
  end.

(** The vertical centre of the nine ball. *)
Definition ballTop_of (initialContent : InitialContent.t) (ballRadius : Q) : Q :=
  match InitialContent.logoTop initialContent with
  | Some logoTop =>
      let baseLogoHeight := 200 in
      let multiplier :=
        JS.or_num (InitialContent.logoSizeMultiplier initialContent) 1 in
      let estimatedLogoHeight := baseLogoHeight * multiplier in
      logoTop + estimatedLogoHeight + 5.25 + ballRadius + 15 + 10
  | None => THUMBNAIL_HEIGHT / 2
  end.

(** [objects.forEach(obj => if (textbox or i-text) bringObjectToFront(obj))] *)
Definition texts_to_front (objects : list FabricObject.t) (c : Canvas.t)
  : Canvas.t :=
  fold_left
    (fun c obj =>
       if FabricObject.is_text_object obj
       then Canvas.bringObjectToFront obj c else c)
    objects c.

Definition createNineBall (initialContent : InitialContent.t) (p : Pass)
  : Pass :=
  let ballSize := JS.or_num (InitialContent.nineBallSize initialContent) 250 in
  let ballRadius := ballSize / 2 in
  let ballTop := ballTop_of initialContent ballRadius in
  let c1 := snd (Canvas.add (new_Circle ballRadius ballTop) (canvas p)) in
  let c2 := snd (Canvas.add (new_Text_9 ballRadius ballTop) c1) in
  let objects := Canvas.getObjects c2 in
  let c3 := texts_to_front objects c2 in
  keep_background_back (with_canvas c3 p).


(** *** Completion handlers of the image loads *)

(** [Math.min(maxLogoWidth / (img.width || 1), maxLogoWidth / (img.height || 1))] *)
Definition fit_scale (maxLogoWidth : Q) (img : FabricObject.t) : Q :=
  JS.min (maxLogoWidth / JS.or_num (FabricObject.width img) 1)
         (maxLogoWidth / JS.or_num (FabricObject.height img) 1).

(** [.then] of the background load. *)
Definition on_background (loaded : LoadedImage) (p : Pass) : Pass :=
  let bgImg := Image_of loaded in
  let scale :=
    JS.max (THUMBNAIL_WIDTH / JS.or_num (FabricObject.width bgImg) 1)
           (THUMBNAIL_HEIGHT / JS.or_num (FabricObject.height bgImg) 1) in
  let bgImg := FabricObject.scale scale bgImg in
  let bgImg := FabricObject.set_pinned 0 0 false false bgImg in
  let (bgImg, c) := Canvas.add bgImg (canvas p) in
  mkPass (Canvas.sendObjectToBack bgImg c) (Some bgImg)
         (loadedLogos p) (logoImages p).

Definition logoSpacing : Q := 30.

(** The width a logo of the multi-logo row is fitted into. *)
Definition maxLogoWidth_of (initialContent : InitialContent.t)
    (logoUrl : string) : Q :=
  let baseLogoWidth := 150 in
  let logoMultiplier :=
    JS.or_num (InitialContent.logoSizeMultiplier initialContent) 1 in
  let isAPALogo := JS.includes "APA.png" logoUrl in
  let isBarakoLogo := JS.includes "barako.png" logoUrl in
  if isAPALogo then baseLogoWidth * 1.25 * logoMultiplier
  else if isBarakoLogo then baseLogoWidth * 0.95 * logoMultiplier
  else baseLogoWidth * logoMultiplier.

(** [logoImages.reduce((sum, logo) => sum + logo.width, 0)] *)
Definition sum_widths (logos : list (nat * Q)) : Q :=
  fold_left (fun sum logo => sum + snd logo) logos 0.

(** [logoImages.forEach(logoData => { logoData.img.set(...); currentX += ... })] *)
Fixpoint place_logos (logos : list (nat * Q)) (currentX : Q) (c : Canvas.t)
  : Canvas.t :=
  match logos with
  | [] => c
  | (img, width) :: rest =>
      place_logos rest (currentX + width + logoSpacing)
        (Canvas.update img
           (FabricObject.set_position (currentX + width / 2) 100
                                      o_center o_top) c)
  end.

(** A logo of the multi-logo row, scaled and framed, as it is handed to
    [add]; with it its scaled width. *)
Definition multi_logo (initialContent : InitialContent.t) (logoUrl : string)
    (loaded : LoadedImage) : FabricObject.t * Q :=
  let img := Image_of loaded in
  let maxLogoWidth := maxLogoWidth_of initialContent logoUrl in
  let scale := fit_scale maxLogoWidth img in
  let img := FabricObject.scale scale img in
  let scaledWidth := JS.or_num (FabricObject.width img) 0 * scale in
  (if JS.truthy_bool (InitialContent.logoBorder initialContent)
   then FabricObject.set_stroke "#000000" 2 img else img,
   scaledWidth).

(** [.then] of the load of [logoUrls[index]]. *)
Definition on_logos (initialContent : InitialContent.t) (index : nat)
    (logoUrl : string) (totalLogos : nat) (loaded : LoadedImage) (p : Pass)
  : Pass :=
  let (img, scaledWidth) := multi_logo initialContent logoUrl loaded in
  let (img, c) := Canvas.add img (canvas p) in
  let logoImages :=
    JS.array_set (logoImages p) index (FabricObject.oid img, scaledWidth) in
  let loadedLogos := S (loadedLogos p) in
  if Nat.eqb loadedLogos totalLogos then
    let totalWidth :=
      sum_widths (JS.present logoImages)
      + (inject_Z (Z.of_nat totalLogos) - 1) * logoSpacing in
    let currentX := (THUMBNAIL_WIDTH - totalWidth) / 2 - 20 in
    let c := place_logos (JS.present logoImages) currentX c in
    keep_background_back
      (mkPass c (backgroundImageRef p) loadedLogos logoImages)
  else mkPass c (backgroundImageRef p) loadedLogos logoImages.

(** The [top] given to the single logo. *)
Definition logoTop_of (initialContent : InitialContent.t)
    (img : FabricObject.t) (scale : Q) : Q :=
  match InitialContent.logoTop initialContent with
  | Some logoTop => logoTop
  | None =>
      match InitialContent.texts initialContent with
      | Some (first :: _) =>
          let firstTextTop :=
            JS.or_num (TextConfig.top first) (THUMBNAIL_HEIGHT / 2) in
          let scaledHeight := JS.or_num (FabricObject.height img) 0 * scale in
          firstTextTop - scaledHeight - 30
      | _ => 100
      end
  end.

(** The single logo, scaled, placed and framed, as it is handed to [add]. *)
Definition single_logo (initialContent : InitialContent.t)
    (loaded : LoadedImage) : FabricObject.t :=
  let img := Image_of loaded in
  let baseLogoWidth := 200 in
  let multiplier :=
    JS.or_num (InitialContent.logoSizeMultiplier initialContent) 1 in
  let maxLogoWidth := baseLogoWidth * multiplier in
  let scale := fit_scale maxLogoWidth img in
  let img := FabricObject.scale scale img in
  let logoTop := logoTop_of initialContent img scale in
  let img :=
    FabricObject.set_position (THUMBNAIL_WIDTH / 2 - 20) logoTop
                              o_center o_top img in
  if JS.truthy_bool (InitialContent.logoBorder initialContent)
  then FabricObject.set_stroke "#000000" 2 img else img.

(** [.then] of the load of [logoUrl]. *)
Definition on_logo (initialContent : InitialContent.t) (loaded : LoadedImage)
    (p : Pass) : Pass :=
  let img := single_logo initialContent loaded in
  let c := snd (Canvas.add img (canvas p)) in
  keep_background_back (with_canvas c p).

(** The youtube logo, scaled and placed; with it the [top] of the arrow. *)
Definition youtube_logo (initialContent : InitialContent.t)
    (loaded : LoadedImage) : FabricObject.t * Q :=
  let img := Image_of loaded in
  let baseLogoWidth := 300 in
  let multiplier :=
    JS.or_num (InitialContent.youtubeLogoSizeMultiplier initialContent) 1 in
  let maxLogoWidth := baseLogoWidth * multiplier in
  let scale := fit_scale maxLogoWidth img in
  let img := FabricObject.scale scale img in
  let scaledHeight := JS.or_num (FabricObject.height img) 0 * scale in
  let baseTop :=
    match InitialContent.youtubeLogoTop initialContent with
    | Some youtubeLogoTop => youtubeLogoTop
    | None => 70
    end in
  let youtubeLogoTop := baseTop + scaledHeight / 2 in
  (FabricObject.set_position (THUMBNAIL_WIDTH / 2 - 20) youtubeLogoTop
                             o_center o_center img,
   youtubeLogoTop + scaledHeight / 2 + 30).

(** [.then] of the load of [youtubeLogoUrl]. *)
Definition on_youtubeLogo (initialContent : InitialContent.t)
    (loaded : LoadedImage) (p : Pass) : Pass :=
  let (img, arrowTop) := youtube_logo initialContent loaded in
  let c := snd (Canvas.add img (canvas p)) in
  let c :=
    if JS.truthy_bool (InitialContent.showArrow initialContent)
    then snd (Canvas.add (new_Triangle arrowTop) c) else c in
  keep_background_back (with_canvas c p).

(** *** The loads a descriptor starts, and their completions *)

Inductive Load :=
| load_background
| load_logos (index : nat)
| load_logo
| load_youtubeLogo
| load_nineBallLogo.

#[global] Instance Load_eq_dec : EqDecision Load.
Proof. solve_decision. Defined.

Inductive Completion :=
| resolved (l : Load) (img : LoadedImage)
| rejected (l : Load).

Definition load_of (ev : Completion) : Load :=
  match ev with resolved l _ => l | rejected l => l end.

(** [initialContent.logoUrls && initialContent.logoUrls.length > 0] *)
Definition has_logoUrls (initialContent : InitialContent.t) : bool :=
  match InitialContent.logoUrls initialContent with
  | Some (_ :: _) => true
  | _ => false
  end.

Definition logoUrls_of (initialContent : InitialContent.t) : list string :=
  match InitialContent.logoUrls initialContent with
  | Some urls => urls
  | None => []
  end.

(** Whether the callback starts the load [l]. *)
Definition started (initialContent : InitialContent.t) (l : Load) : bool :=
  match l with
  | load_background =>
      JS.truthy_str (InitialContent.backgroundImageUrl initialContent)
  | load_logos index =>
      Nat.ltb index (length (logoUrls_of initialContent))
  | load_logo =>
      negb (has_logoUrls initialContent)
      && JS.truthy_str (InitialContent.logoUrl initialContent)
  | load_youtubeLogo =>
      JS.truthy_str (InitialContent.youtubeLogoUrl initialContent)
  | load_nineBallLogo =>
      JS.truthy_bool (InitialContent.showNineBall initialContent)
      && JS.truthy_str (InitialContent.logoUrl initialContent)
  end.

(** Every load the callback starts, in the order it starts them. *)
Definition pending (initialContent : InitialContent.t) : list Load :=
  filter (fun l => started initialContent l = true)
    ([load_background]
     ++ map load_logos (seq 0 (length (logoUrls_of initialContent)))
     ++ [load_logo; load_youtubeLogo; load_nineBallLogo])%list.

(** The handler run when a load completes.  A failed load is logged and
    nothing else, except for the nine ball, which is drawn either way. *)
Definition settle (initialContent : InitialContent.t) (p : Pass)
    (ev : Completion) : Pass :=
  if negb (started initialContent (load_of ev)) then p else
  match ev with
  | resolved load_background img => on_background img p
  | resolved (load_logos index) img =>
      match logoUrls_of initialContent !! index with
      | Some logoUrl =>
          on_logos initialContent index logoUrl
                   (length (logoUrls_of initialContent)) img p
      | None => p
      end
  | resolved load_logo img => on_logo initialContent img p
  | resolved load_youtubeLogo img => on_youtubeLogo initialContent img p
  | resolved load_nineBallLogo _ => createNineBall initialContent p
  | rejected load_nineBallLogo => createNineBall initialContent p
  | rejected _ => p
  end.

(** The synchronous part of the callback, on the live canvas [c]. *)
Definition initialize (initialContent : InitialContent.t) (c : Canvas.t)
  : Pass :=
  let p := mkPass c None O [] in
  let p :=
    match InitialContent.texts initialContent with
    | Some texts => with_canvas (add_texts texts (canvas p)) p
    | None => p
    end in
  if JS.truthy_bool (InitialContent.showNineBall initialContent)
     && negb (JS.truthy_str (InitialContent.logoUrl initialContent))
  then createNineBall initialContent p
  else p.

(** The callback followed by the completions [evs], in that order. *)
Definition run (initialContent : InitialContent.t) (c : Canvas.t)
    (evs : list Completion) : Pass :=
  fold_left (settle initialContent) evs (initialize initialContent c).


(** ** Interactive operations *)

Record KeyboardEvent := {
  key : string;
  ctrlKey : bool;
  metaKey : bool;
  shiftKey : bool;
  altKey : bool
}.

(** The [keydown] listener installed by the mount effect. *)
Definition handleKeyDown (e : KeyboardEvent) (canvas : Canvas.t) : Canvas.t :=
  if (String.eqb (key e) "Delete" || String.eqb (key e) "Backspace")
     && negb (ctrlKey e) && negb (metaKey e)
  then
    match Canvas.getActiveObject canvas with
    | Some activeObject => Canvas.remove activeObject canvas
    | None => canvas
    end
  else canvas.

Definition handleDelete (canvas : Canvas.t) : Canvas.t :=
  match Canvas.getActiveObject canvas with
  | Some activeObject => Canvas.remove activeObject canvas
  | None => canvas
  end.

(** [new Textbox(text, { ... })] of [handleAddText]. *)
Definition new_Textbox_input (text : string) (fontSize : Q)
    (fontFamily textColor : string) : FabricObject.t :=
  {| FabricObject.oid := 0;
     FabricObject.type := textbox;
     FabricObject.text := Some text;
     FabricObject.left := Some (THUMBNAIL_WIDTH / 2 - 5);
     FabricObject.top := Some (THUMBNAIL_HEIGHT / 2);
     FabricObject.width := Some (THUMBNAIL_WIDTH * 0.8);
     FabricObject.height := None;
     FabricObject.scaleX := None;
     FabricObject.scaleY := None;
     FabricObject.angle := None;
     FabricObject.radius := None;
     FabricObject.originX := Some o_center;
     FabricObject.originY := Some o_center;
     FabricObject.fill := Some textColor;
     FabricObject.stroke := None;
     FabricObject.strokeWidth := None;
     FabricObject.fontSize := Some fontSize;
     FabricObject.fontFamily := Some fontFamily;
     FabricObject.fontWeight := None;
     FabricObject.textAlign := Some align_center;
     FabricObject.charSpacing := None;
     FabricObject.editable := Some true;
     FabricObject.selectable := None;
     FabricObject.evented := None |}.

Definition handleAddText (text : string) (fontSize : Q)
    (fontFamily textColor : string) (canvas : Canvas.t) : Canvas.t :=
  match text with
  | EmptyString => canvas
  | _ =>
      let (textObject, c) :=
        Canvas.add (new_Textbox_input text fontSize fontFamily textColor)
                   canvas in
      Canvas.setActiveObject textObject c
  end.

Definition handleClear (canvas : Canvas.t) : Canvas.t :=
  Canvas.set_backgroundColor "#FFFFFF" (Canvas.clear canvas).

(** [handleResize], the element being attached inside a container that
    is [clientWidth] wide:
    [setDimensions(..., { cssOnly: true })] gives the element the full
    size on screen, then its style is assigned the size scaled to the
    container, never beyond the full size. *)
Definition handleResize (clientWidth : Q) (canvas : Canvas.t) : Canvas.t :=
  let maxWidth := clientWidth - 32 in
  let scale := JS.min (maxWidth / THUMBNAIL_WIDTH) 1 in
  let canvas := Canvas.set_style THUMBNAIL_WIDTH THUMBNAIL_HEIGHT canvas in
  Canvas.assign_style (THUMBNAIL_WIDTH * scale) (THUMBNAIL_HEIGHT * scale)
                      canvas.

(** What [downloadImage] hands to the browser: the link's [href] and its
    [download] file name. *)
Record Download := {
  href : Canvas.DataURL;
  download : string
}.

Definition downloadImage (dataURL : Canvas.DataURL) (filename : string)
  : Download :=
  {| href := dataURL; download := filename |}.

Definition handleExportPNG (canvasId : string) (canvas : Canvas.t)
  : Download :=
  let dataURL :=
    Canvas.toDataURL
      {| Canvas.format := Canvas.png;
         Canvas.quality := 1;
         Canvas.multiplier := 1 |} canvas in
  downloadImage dataURL ("thumbnail-" ++ canvasId ++ ".png").

Definition handleExportJPEG (canvasId : string) (canvas : Canvas.t)
  : Download :=
  let dataURL :=
    Canvas.toDataURL
      {| Canvas.format := Canvas.jpeg;
         Canvas.quality := 0.95;
         Canvas.multiplier := 1 |} canvas in
  downloadImage dataURL ("thumbnail-" ++ canvasId ++ ".jpg").

(** ** Uploads

    The [.then] handlers of the two file inputs.  The file picked, read and
    decoded is the image the handler receives; no file, or a file that
    does not decode, leaves the canvas as it is. *)

Inductive Upload :=
| no_file
| undecodable
| decoded (img : LoadedImage).

(** The image of [handleImageUpload], scaled and placed, as it is handed
    to [add]. *)
Definition uploaded_image (loaded : LoadedImage) : FabricObject.t :=
  let img := Image_of loaded in
  let scale :=
    JS.min (THUMBNAIL_WIDTH / JS.or_num (FabricObject.width img) 1)
           (THUMBNAIL_HEIGHT / JS.or_num (FabricObject.height img) 1) in
  let img := FabricObject.scale scale img in
  FabricObject.set_left_top
    ((THUMBNAIL_WIDTH - JS.or_num (FabricObject.width img) 0 * scale) / 2)
    ((THUMBNAIL_HEIGHT - JS.or_num (FabricObject.height img) 0 * scale) / 2)
    img.

Definition handleImageUpload (file : Upload) (canvas : Canvas.t) : Canvas.t :=
  match file with
  | decoded img => snd (Canvas.add (uploaded_image img) canvas)
  | _ => canvas
  end.

(** The image of [handleLogoUpload]. *)
Definition uploaded_logo (loaded : LoadedImage) : FabricObject.t :=
  let img := Image_of loaded in
  let maxLogoWidth := 200 in
  let scale := fit_scale maxLogoWidth img in
  let img := FabricObject.scale scale img in
  FabricObject.set_position (THUMBNAIL_WIDTH / 2 - 5) 100 o_center o_top img.

Definition handleLogoUpload (file : Upload) (canvas : Canvas.t) : Canvas.t :=
  match file with
  | decoded img => snd (Canvas.add (uploaded_logo img) canvas)
  | _ => canvas
  end.

(** ** The mounted component

    The refs of the component, the deferred callbacks it has scheduled and
    the callbacks that have run (whose load handlers may still be called).
    Every handler reaches the canvas through [fabricCanvasRef.current] at
    the moment it runs; of a callback that has run only the captured
    variables are kept, the [canvas] of its [Pass] is read from the ref
    again at each completion. *)

Record Editor := mkEditor {
  canvasId : string;
  initialContent : option InitialContent.t;
  fabricCanvasRef : option Canvas.t;
  initializedRef : bool;
  listening : bool;
  timeouts : list InitialContent.t;
  passes : list (InitialContent.t * Pass)
}.

Definition with_ref (c : option Canvas.t) (e : Editor) : Editor :=
  mkEditor (canvasId e) (initialContent e) c (initializedRef e)
           (listening e) (timeouts e) (passes e).

(** [if (!fabricCanvasRef.current) return; ...] *)
Definition on_canvas (f : Canvas.t -> Canvas.t) (e : Editor) : Editor :=
  match fabricCanvasRef e with
  | Some c => with_ref (Some (f c)) e
  | None => e
  end.

(** A window listener runs only while it is installed. *)
Definition on_window (f : Canvas.t -> Canvas.t) (e : Editor) : Editor :=
  if listening e then on_canvas f e else e.

(** A freshly rendered component, before its first effect. *)
Definition render (canvasId : string)
    (initialContent : option InitialContent.t) : Editor :=
  mkEditor canvasId initialContent None false false [] [].

(** The body of the effect keyed on [canvasId], the canvas element being
    attached: a new canvas replaces the one in the ref (what is added to
    it are new objects, told apart from every object of the canvas it
    replaces), the window listeners are installed and, unless the guard is
    set, the deferred callback is scheduled. *)
Definition effect (e : Editor) : Editor :=
  let bgColor :=
    JS.or_str
      (match initialContent e with
       | Some d => InitialContent.backgroundColor d
       | None => None
       end) "#FFFFFF" in
  let canvas :=
    Canvas.replacing (fabricCanvasRef e)
      (Canvas.new THUMBNAIL_WIDTH THUMBNAIL_HEIGHT bgColor) in
  match initialContent e with
  | Some d =>
      if negb (initializedRef e)
      then mkEditor (canvasId e) (initialContent e) (Some canvas) true true
                    (timeouts e ++ [d])%list (passes e)
      else mkEditor (canvasId e) (initialContent e) (Some canvas)
                    (initializedRef e) true (timeouts e) (passes e)
  | None =>
      mkEditor (canvasId e) (initialContent e) (Some canvas)
               (initializedRef e) true (timeouts e) (passes e)
  end.

(** The cleanup the effect returns: the window listeners are removed, the
    canvas is disposed and the guard reset; neither the pending callback
    nor the ref is touched. *)
Definition cleanup (e : Editor) : Editor :=
  mkEditor (canvasId e) (initialContent e)
           (option_map Canvas.dispose (fabricCanvasRef e)) false false
           (timeouts e) (passes e).

(** The oldest scheduled callback runs. *)
Definition timeout (e : Editor) : Editor :=
  match timeouts e with
  | [] => e
  | d :: rest =>
      match fabricCanvasRef e with
      | None =>
          mkEditor (canvasId e) (initialContent e) None (initializedRef e)
                   (listening e) rest (passes e)
      | Some c =>
          let p := initialize d c in
          mkEditor (canvasId e) (initialContent e) (Some (canvas p))
                   (initializedRef e) (listening e) rest
                   (passes e ++ [(d, p)])%list
      end
  end.

(** A load started by the [k]-th callback completes. *)
Definition completion (k : nat) (ev : Completion) (e : Editor) : Editor :=
  match passes e !! k, fabricCanvasRef e with
  | Some (d, p), Some c =>
      let p' := settle d (with_canvas c p) ev in
      mkEditor (canvasId e) (initialContent e) (Some (canvas p'))
               (initializedRef e) (listening e) (timeouts e)
               (<[k := (d, p')]> (passes e))
  | _, _ => e
  end.

Inductive Event :=
| ev_effect
| ev_cleanup
| ev_timeout
| ev_completion (k : nat) (ev : Completion)
| ev_resize (clientWidth : Q)
| ev_keydown (e : KeyboardEvent)
| ev_delete
| ev_clear
| ev_addText (text : string) (fontSize : Q) (fontFamily textColor : string)
| ev_imageUpload (file : Upload)
| ev_logoUpload (file : Upload).

Definition step (e : Editor) (ev : Event) : Editor :=
  match ev with
  | ev_effect => effect e
  | ev_cleanup => cleanup e
  | ev_timeout => timeout e
  | ev_completion k c => completion k c e
  | ev_resize w => on_window (handleResize w) e
  | ev_keydown k => on_window (handleKeyDown k) e
  | ev_delete => on_canvas handleDelete e
  | ev_clear => on_canvas handleClear e
  | ev_addText t fs ff tc => on_canvas (handleAddText t fs ff tc) e
  | ev_imageUpload file => on_canvas (handleImageUpload file) e
  | ev_logoUpload file => on_canvas (handleLogoUpload file) e
  end.

Definition steps (e : Editor) (evs : list Event) : Editor :=
  fold_left step evs e.


(** ** Vocabulary of the properties *)

(** Two optional numbers that denote the same rational. *)
Definition num_eq (x y : option Q) : Prop :=
  match x, y with
  | Some a, Some b => a == b
  | None, None => True
  | _, _ => False
  end.

(** The optional number [x] is the number [v]. *)
Definition is_num (x : option Q) (v : Q) : Prop := num_eq x (Some v).

(** Two objects with the same properties (identity apart). *)
Definition same_attributes (a b : FabricObject.t) : Prop :=
  FabricObject.type a = FabricObject.type b
  /\ FabricObject.text a = FabricObject.text b
  /\ num_eq (FabricObject.left a) (FabricObject.left b)
  /\ num_eq (FabricObject.top a) (FabricObject.top b)
  /\ num_eq (FabricObject.width a) (FabricObject.width b)
  /\ num_eq (FabricObject.height a) (FabricObject.height b)
  /\ num_eq (FabricObject.scaleX a) (FabricObject.scaleX b)
  /\ num_eq (FabricObject.scaleY a) (FabricObject.scaleY b)
  /\ num_eq (FabricObject.angle a) (FabricObject.angle b)
  /\ num_eq (FabricObject.radius a) (FabricObject.radius b)
  /\ FabricObject.originX a = FabricObject.originX b
  /\ FabricObject.originY a = FabricObject.originY b
  /\ FabricObject.fill a = FabricObject.fill b
  /\ FabricObject.stroke a = FabricObject.stroke b
  /\ num_eq (FabricObject.strokeWidth a) (FabricObject.strokeWidth b)
  /\ num_eq (FabricObject.fontSize a) (FabricObject.fontSize b)
  /\ FabricObject.fontFamily a = FabricObject.fontFamily b
  /\ FabricObject.fontWeight a = FabricObject.fontWeight b
  /\ FabricObject.textAlign a = FabricObject.textAlign b
  /\ num_eq (FabricObject.charSpacing a) (FabricObject.charSpacing b)
  /\ FabricObject.editable a = FabricObject.editable b
  /\ FabricObject.selectable a = FabricObject.selectable b
  /\ FabricObject.evented a = FabricObject.evented b.

(** The supplied attribute, or the default when none is supplied. *)
Definition supplied_or {A} (x : option A) (d : A) : A :=
  match x with Some v => v | None => d end.

(** The text object the documentation describes for an entry: each
    supplied attribute as supplied, each other one at its documented
    default. *)
Definition documented_Textbox (entry : TextConfig.t) : FabricObject.t :=
  {| FabricObject.oid := 0;
     FabricObject.type := textbox;
     FabricObject.text := Some (TextConfig.content entry);
     FabricObject.left := Some (supplied_or (TextConfig.left entry) 620);
     FabricObject.top := Some (supplied_or (TextConfig.top entry) 360);
     FabricObject.width := Some (supplied_or (TextConfig.width entry) 1024);
     FabricObject.height := None;
     FabricObject.scaleX := None;
     FabricObject.scaleY := None;
     FabricObject.angle := Some (supplied_or (TextConfig.angle entry) 0);
     FabricObject.radius := None;
     FabricObject.originX :=
       Some (supplied_or (TextConfig.originX entry) o_center);
     FabricObject.originY := Some o_center;
     FabricObject.fill := Some (supplied_or (TextConfig.color entry) "#FFFFFF");
     FabricObject.stroke :=
       Some (supplied_or (TextConfig.stroke entry) "#000000");
     FabricObject.strokeWidth :=
       Some (supplied_or (TextConfig.strokeWidth entry) 3);
     FabricObject.fontSize :=
       Some (supplied_or (TextConfig.fontSize entry) 60);
     FabricObject.fontFamily :=
       Some (supplied_or (TextConfig.fontFamily entry) "Arial");
     FabricObject.fontWeight :=
       Some (supplied_or (TextConfig.fontWeight entry) "bold");
     FabricObject.textAlign :=
       Some (supplied_or (TextConfig.textAlign entry) align_center);
     FabricObject.charSpacing := Some 0;
     FabricObject.editable := Some true;
     FabricObject.selectable := None;
     FabricObject.evented := None |}.

(** A supplied number that is not zero, a supplied string that is not
    empty. *)
Definition nonzero_if_supplied (x : option Q) : Prop :=
  match x with Some v => ~ v == 0 | None => True end.

Definition nonempty_if_supplied (x : option string) : Prop :=
  match x with Some s => s <> "" | None => True end.

(** An entry none of whose [||]-defaulted attributes is supplied as [0] or
    as the empty string. *)
Definition no_falsy_attribute (entry : TextConfig.t) : Prop :=
  nonzero_if_supplied (TextConfig.fontSize entry)
  /\ nonzero_if_supplied (TextConfig.top entry)
  /\ nonzero_if_supplied (TextConfig.width entry)
  /\ nonempty_if_supplied (TextConfig.fontFamily entry)
  /\ nonempty_if_supplied (TextConfig.color entry)
  /\ nonempty_if_supplied (TextConfig.fontWeight entry)
  /\ nonempty_if_supplied (TextConfig.stroke entry).

(** What the text loop gives an entry whatever the entry supplies: the
    attributes it defaults with [??], by a literal, or to a zero, are as
    documented; each attribute it defaults with [||] is as documented
    unless the entry supplies a zero or an empty string for it. *)
Definition documented_unless_falsy (entry : TextConfig.t)
    (o : FabricObject.t) : Prop :=
  FabricObject.type o = textbox
  /\ FabricObject.text o = Some (TextConfig.content entry)
  /\ is_num (FabricObject.left o) (supplied_or (TextConfig.left entry) 620)
  /\ is_num (FabricObject.strokeWidth o)
            (supplied_or (TextConfig.strokeWidth entry) 3)
  /\ is_num (FabricObject.angle o) (supplied_or (TextConfig.angle entry) 0)
  /\ FabricObject.textAlign o
     = Some (supplied_or (TextConfig.textAlign entry) align_center)
  /\ FabricObject.originX o
     = Some (supplied_or (TextConfig.originX entry) o_center)
  /\ FabricObject.originY o = Some o_center
  /\ (nonzero_if_supplied (TextConfig.top entry) ->
      is_num (FabricObject.top o) (supplied_or (TextConfig.top entry) 360))
  /\ (nonzero_if_supplied (TextConfig.fontSize entry) ->
      is_num (FabricObject.fontSize o)
             (supplied_or (TextConfig.fontSize entry) 60))
  /\ (nonzero_if_supplied (TextConfig.width entry) ->
      is_num (FabricObject.width o)
             (supplied_or (TextConfig.width entry) 1024))
  /\ (nonempty_if_supplied (TextConfig.fontFamily entry) ->
      FabricObject.fontFamily o
      = Some (supplied_or (TextConfig.fontFamily entry) "Arial"))
  /\ (nonempty_if_supplied (TextConfig.color entry) ->
      FabricObject.fill o
      = Some (supplied_or (TextConfig.color entry) "#FFFFFF"))
  /\ (nonempty_if_supplied (TextConfig.fontWeight entry) ->
      FabricObject.fontWeight o
      = Some (supplied_or (TextConfig.fontWeight entry) "bold"))
  /\ (nonempty_if_supplied (TextConfig.stroke entry) ->
      FabricObject.stroke o
      = Some (supplied_or (TextConfig.stroke entry) "#000000")).

(** The text objects of a canvas, back to front. *)
Definition textboxes (c : Canvas.t) : list FabricObject.t :=
  filter (fun o => FabricObject.type o = textbox) (Canvas._objects c).

(** Identities on a canvas are distinct and were allocated by it. *)
Definition wf (c : Canvas.t) : Prop :=
  NoDup (FabricObject.oid <$> Canvas._objects c)
  /\ Forall (fun o => (FabricObject.oid o < Canvas.nextId c)%nat)
            (Canvas._objects c).

Definition texts_of (initialContent : InitialContent.t)
  : list TextConfig.t :=
  match InitialContent.texts initialContent with
  | Some texts => texts
  | None => []
  end.

(** The canvas the mount effect creates for a component without
    descriptor background. *)
Definition blank_canvas : Canvas.t :=
  Canvas.new THUMBNAIL_WIDTH THUMBNAIL_HEIGHT "#FFFFFF".

(** *** Sample descriptors *)

(** One text entry placed at the very top: [top: 0]. *)
Definition entry_top0 : TextConfig.t :=
  TextConfig.mk "A" None None None (Some 0) None None None None None None
                None None.

Definition content_top0 : InitialContent.t :=
  InitialContent.mk (Some [entry_top0]) None None None None None None None
                    None None None None None None.

(** The first entry of the first tab of the application. *)
Definition entry_title : TextConfig.t :=
  TextConfig.mk "TGIF: Barako WTA @ PB" (Some 100) (Some "Arial")
                (Some "#FFFFFF") (Some (THUMBNAIL_HEIGHT / 2 + 80)) None None
                None None (Some "bold") (Some "#000000") (Some 4) (Some 994).

Definition entry_date : TextConfig.t :=
  TextConfig.mk "21st November 2025 | 7:45PM" (Some 48) (Some "Arial")
                (Some "#FFFFFF") (Some (THUMBNAIL_HEIGHT / 2 + 230)) None None
                None None None None None None.

(** The text objects ([textbox] or [i-text]) of a list, and the others. *)
Definition text_objects (l : list FabricObject.t) : list FabricObject.t :=
  filter (fun o => FabricObject.is_text_object o = true) l.

Definition other_objects (l : list FabricObject.t) : list FabricObject.t :=
  filter (fun o => ¬ FabricObject.is_text_object o = true) l.

Definition oids (l : list FabricObject.t) : list nat :=
  FabricObject.oid <$> l.

(** The back-most object of the canvas is [bg]. *)
Definition back_most (bg : FabricObject.t) (c : Canvas.t) : Prop :=
  exists rest, Canvas._objects c = bg :: rest.

(** What holds of the variables of a callback between two handlers: the
    canvas is well formed, the logos recorded so far were allocated by it,
    and a loaded background image is an image, is none of the recorded
    logos, and lies at the back. *)
Definition pass_inv (p : Pass) : Prop :=
  wf (canvas p)
  /\ Forall (fun logo => (fst logo < Canvas.nextId (canvas p))%nat)
            (JS.present (logoImages p))
  /\ match backgroundImageRef p with
     | Some bg =>
         FabricObject.type bg = image
         /\ (FabricObject.oid bg ∉ fst <$> JS.present (logoImages p))
         /\ back_most bg (canvas p)
     | None => True
     end.

(** The radius of the nine ball, and its two objects as they live on the
    canvas when they are allocated at identity [i] and [S i]. *)
Definition nineBall_radius (initialContent : InitialContent.t) : Q :=
  JS.or_num (InitialContent.nineBallSize initialContent) 250 / 2.

Definition nineBall_circle (initialContent : InitialContent.t) (i : nat)
  : FabricObject.t :=
  let r := nineBall_radius initialContent in
  FabricObject.with_oid i (new_Circle r (ballTop_of initialContent r)).

Definition nineBall_numeral (initialContent : InitialContent.t) (i : nat)
  : FabricObject.t :=
  let r := nineBall_radius initialContent in
  FabricObject.with_oid (S i) (new_Text_9 r (ballTop_of initialContent r)).

(** The background part of [pass_inv]. *)
Definition background_inv (p : Pass) : Prop :=
  match backgroundImageRef p with
  | Some bg => FabricObject.type bg = image /\ back_most bg (canvas p)
  | None => True
  end.

(** The descriptor of the first tab of the application. *)
Definition content_tab1 : InitialContent.t :=
  InitialContent.mk (Some [entry_title; entry_date]) (Some "/barako.png")
                    None None (Some "#FFFFE0") (Some 1.3) (Some 30) None None
                    None None None None None.

(** *** Deleting *)

(** The two ways to ask for a deletion. *)
Inductive DeleteRequest :=
| by_button
| by_key (e : KeyboardEvent).

Definition delete_request (r : DeleteRequest) (c : Canvas.t) : Canvas.t :=
  match r with
  | by_button => handleDelete c
  | by_key e => handleKeyDown e c
  end.

(** Any of Ctrl, Meta, Shift or Alt is held. *)
Definition any_modifier (e : KeyboardEvent) : bool :=
  ctrlKey e || metaKey e || shiftKey e || altKey e.

(** Ctrl or Meta is held. *)
Definition ctrl_or_meta (r : DeleteRequest) : bool :=
  match r with
  | by_button => false
  | by_key e => ctrlKey e || metaKey e
  end.

Definition shift_Delete : KeyboardEvent :=
  {| key := "Delete"; ctrlKey := false; metaKey := false;
     shiftKey := true; altKey := false |}.

Definition ctrl_Delete : KeyboardEvent :=
  {| key := "Delete"; ctrlKey := true; metaKey := false;
     shiftKey := false; altKey := false |}.

(** A canvas with one text object, selected. *)
Definition canvas_with_selection : Canvas.t :=
  handleAddText "A" 60 "Arial" "#FFFFFF" blank_canvas.

(** *** The single logo *)

Definition square_200 : LoadedImage := {| img_width := 200; img_height := 200 |}.

(** A single logo over one entry with [top: 0]. *)
Definition content_logo_top0 : InitialContent.t :=
  InitialContent.mk (Some [entry_top0]) (Some "/barako.png") None None None
                    None None None None None None None None None.

(** A single logo over the two entries of the second tab. *)
Definition content_tab2 : InitialContent.t :=
  InitialContent.mk (Some [entry_title; entry_date]) (Some "/barako.png")
                    None None None None None None None None None None None
                    None.

(** *** Exporting *)

(** The coordinate space of a canvas. *)
Definition size (c : Canvas.t) : Q * Q := (Canvas.width c, Canvas.height c).

(** *** Schedules of load completions *)

(** The object is a background image as the callback pins it: an image at
    the origin that can be neither selected nor hit. *)
Definition pinned_background (bg : FabricObject.t) : Prop :=
  FabricObject.type bg = image
  /\ is_num (FabricObject.left bg) 0
  /\ is_num (FabricObject.top bg) 0
  /\ FabricObject.selectable bg = Some false
  /\ FabricObject.evented bg = Some false.

(** The recorded background image, if any, is a pinned one. *)
Definition records_background (p : Pass) : Prop :=
  match backgroundImageRef p with
  | Some bg => pinned_background bg
  | None => True
  end.

(** The completions [evs] settle every load the descriptor starts, each
    once, in some order. *)
Definition settles (initialContent : InitialContent.t)
    (evs : list Completion) : Prop :=
  load_of <$> evs ≡ₚ pending initialContent.

(** The descriptor of the sixth tab: three logos over a background
    pattern. *)
Definition content_tab6 : InitialContent.t :=
  InitialContent.mk
    (Some [TextConfig.mk "PBS Cup @ ASA" (Some 100) (Some "Arial")
             (Some "#4a3a6e") (Some (THUMBNAIL_HEIGHT / 2 + 80)) None None
             None None None (Some "#E6E6FA") (Some 3) (Some 994);
           TextConfig.mk "22nd November 2025" (Some 48) (Some "Arial")
             (Some "#4a3a6e") (Some (THUMBNAIL_HEIGHT / 2 + 230)) None None
             None None None (Some "#E6E6FA") (Some 3) None])
    None (Some ["/PBS.png"; "/fromOwen.png"; "/Asa.png"]) None None
    (Some 1.5) None None None None None (Some "/dark-purple-pattern.svg")
    None None.

Definition pattern_image : LoadedImage :=
  {| img_width := 100; img_height := 100 |}.

Definition logo_image : LoadedImage :=
  {| img_width := 300; img_height := 150 |}.

(** The background completes after two of the three logos. *)
Definition schedule_tab6 : list Completion :=
  [resolved (load_logos 2) logo_image;
   resolved (load_logos 0) square_200;
   resolved load_background pattern_image;
   resolved (load_logos 1) logo_image].

(** *** The nine ball *)

(** The centre the documentation computes: the configured logoTop, plus
    the estimated logo height 200 x logoSizeMultiplier, plus the paddings,
    plus the radius; it needs a logoTop and a multiplier. *)
Definition documented_ballTop (initialContent : InitialContent.t)
  : option Q :=
  match InitialContent.logoTop initialContent,
        InitialContent.logoSizeMultiplier initialContent with
  | Some logoTop, Some logoSizeMultiplier =>
      Some (logoTop + 200 * logoSizeMultiplier + (5.25 + 15 + 10)
            + nineBall_radius initialContent)
  | _, _ => None
  end.

(** The centre the nine ball has: computed as documented from a
    configured logoTop, the multiplier counting as 1 when it is absent or
    0; the middle of the canvas when no logoTop is configured. *)
Definition amended_ballTop (initialContent : InitialContent.t) : Q :=
  match InitialContent.logoTop initialContent with
  | Some logoTop =>
      logoTop
      + 200 * JS.or_num (InitialContent.logoSizeMultiplier initialContent) 1
      + (5.25 + 15 + 10)
      + nineBall_radius initialContent
  | None => 360
  end.

(** The descriptor of the seventh tab. *)
Definition content_tab7 : InitialContent.t :=
  InitialContent.mk
    (Some [TextConfig.mk "PBS Tour @ Snooker Zone" (Some 100)
             (Some "Arial Black") (Some "#000000")
             (Some (THUMBNAIL_HEIGHT / 2 + 85)) None None None None
             (Some "bold") (Some "#FFFFFF") (Some 4) (Some 994);
           TextConfig.mk "29th November 2025" (Some 48) (Some "Arial")
             (Some "#FFFFFF") (Some (THUMBNAIL_HEIGHT / 2 + 240)) None None
             None None None None None None])
    (Some "/fromOwen.png") None None (Some "#191970") (Some 1.3) (Some 50)
    None None None None None (Some true) (Some 200).

(** A background image and a single logo. *)
Definition content_bg_logo : InitialContent.t :=
  InitialContent.mk None (Some "/logo.png") None None None None None None
                    None None None (Some "/bg.png") None None.

(** The background loads, the component is unmounted and mounted again,
    and only then the logo of the first callback loads. *)
Definition remount_between_loads : list Event :=
  [ev_effect; ev_timeout;
   ev_completion 0 (resolved load_background square_200);
   ev_cleanup; ev_effect;
   ev_completion 0 (resolved load_logo square_200)].

(** A nine ball under a logoTop of 50, drawn at once, with a size
    multiplier of 0. *)
Definition content_nineBall_multiplier0 : InitialContent.t :=
  InitialContent.mk None None None None None (Some 0) (Some 50) None None
                    None None None (Some true) None.

(** Every canvas the component holds has the full coordinate space. *)
Definition full_size (e : Editor) : Prop :=
  forall c, fabricCanvasRef e = Some c ->
            size c = (THUMBNAIL_WIDTH, THUMBNAIL_HEIGHT).

(** *** The multi-logo row *)

(** The value of [currentX] when the loop of the layout reaches the
    [j]-th logo, the widths of the logos being [widths]. *)
Fixpoint currentX_at (widths : list Q) (currentX : Q) (j : nat) : Q :=
  match j, widths with
  | S j', width :: rest => currentX_at rest (currentX + width + logoSpacing) j'
  | _, _ => currentX
  end.

(** The sum of a list of widths. *)
Definition Qsum (widths : list Q) : Q := foldr Qplus 0 widths.

(** The total width of a row: the widths and a spacing between
    neighbours. *)
Definition total_width (widths : list Q) : Q :=
  Qsum widths + (inject_Z (Z.of_nat (length widths)) - 1) * logoSpacing.

(** The [j]-th logo of a row as it lies on the canvas after the layout:
    the object handed to [add], with identity [id], centred at [x]. *)
Definition laid_out (o : FabricObject.t) (id : nat) (x : Q)
  : FabricObject.t :=
  FabricObject.set_position x 100 o_center o_top (FabricObject.with_oid id o).

(** The [i]-th URL of the row, and the [i]-th logo with its scaled width
    when the load of that URL resolves with [image i]. *)
Definition logo_url (initialContent : InitialContent.t) (i : nat) : string :=
  default "" (logoUrls_of initialContent !! i).

Definition row_logo (initialContent : InitialContent.t)
    (image : nat -> LoadedImage) (i : nat) : FabricObject.t :=
  fst (multi_logo initialContent (logo_url initialContent i) (image i)).

Definition row_width (initialContent : InitialContent.t)
    (image : nat -> LoadedImage) (i : nat) : Q :=
  snd (multi_logo initialContent (logo_url initialContent i) (image i)).

Definition row_widths (initialContent : InitialContent.t)
    (image : nat -> LoadedImage) : list Q :=
  row_width initialContent image
    <$> seq 0 (length (logoUrls_of initialContent)).

(** The row is laid out on the canvas of [p], starting at abscissa [x0]:
    logo [i] lies there, centred half its width right of where the loop
    reaches it. *)
Definition row_laid_out (initialContent : InitialContent.t)
    (image : nat -> LoadedImage) (ids : nat -> nat) (x0 : Q) (p : Pass)
  : Prop :=
  forall i, (i < length (logoUrls_of initialContent))%nat ->
    laid_out (row_logo initialContent image i) (ids i)
             (currentX_at (row_widths initialContent image) x0 i
              + row_width initialContent image i / 2)
    ∈ Canvas._objects (canvas p).

(** The row has been laid out, from the abscissa the layout computes. *)
Definition row_done (initialContent : InitialContent.t)
    (image : nat -> LoadedImage) (p : Pass) : Prop :=
  (length (logoUrls_of initialContent) <= loadedLogos p)%nat
  /\ pass_inv p
  /\ exists ids x0,
       x0 == (THUMBNAIL_WIDTH
              - total_width (row_widths initialContent image)) / 2 - 20
       /\ row_laid_out initialContent image ids x0 p.

(** The logos of the indices [done] have been loaded, and no other; logo
    [i] was given the identity [ids i]. *)
Definition row_loading (initialContent : InitialContent.t)
    (image : nat -> LoadedImage) (done : list nat) (ids : nat -> nat)
    (p : Pass) : Prop :=
  pass_inv p
  /\ loadedLogos p = length done
  /\ NoDup done
  /\ (forall i, i ∈ done -> (i < length (logoUrls_of initialContent))%nat)
  /\ (forall i,
        JS.get (logoImages p) i
        = if decide (i ∈ done)
          then Some (ids i, row_width initialContent image i) else None)
  /\ NoDup (ids <$> done)
  /\ (forall i, i ∈ done ->
        FabricObject.with_oid (ids i) (row_logo initialContent image i)
        ∈ Canvas._objects (canvas p)).

(** The completions still to come, the logos of the indices [done] being
    loaded: each load completes at most once; every logo that completes is
    a new one and resolves with its image; every logo not yet loaded is
    among them. *)
Definition to_come (initialContent : InitialContent.t)
    (image : nat -> LoadedImage) (done : list nat) (evs : list Completion)
  : Prop :=
  NoDup (load_of <$> evs)
  /\ (forall ev i, ev ∈ evs -> load_of ev = load_logos i ->
        (i ∉ done)
        /\ (i < length (logoUrls_of initialContent))%nat
        /\ ev = resolved (load_logos i) (image i))
  /\ (forall i, (i < length (logoUrls_of initialContent))%nat ->
        i ∈ done \/ resolved (load_logos i) (image i) ∈ evs).

(** The object is an image. *)
Definition is_image (o : FabricObject.t) : Prop := FabricObject.type o = image.

(** The width an object takes on the canvas: its width times its
    horizontal scale (the library's defaults are 0 and 1). *)
Definition scaled_width (o : FabricObject.t) : Q :=
  supplied_or (FabricObject.width o) 0 * supplied_or (FabricObject.scaleX o) 1.

(** The sides of an object that is positioned by its centre. *)
Definition left_side (o : FabricObject.t) : option Q :=
  match FabricObject.left o with
  | Some x => Some (x - scaled_width o / 2)
  | None => None
  end.

Definition right_side (o : FabricObject.t) : option Q :=
  match FabricObject.left o with
  | Some x => Some (x + scaled_width o / 2)
  | None => None
  end.

(** The object is positioned by its centre and reaches from [a] to [b]. *)
Definition spans (o : FabricObject.t) (a b : Q) : Prop :=
  FabricObject.originX o = Some o_center
  /\ is_num (left_side o) a
  /\ is_num (right_side o) b.

(** The objects lie side by side from [x] on, each as wide as it is on the
    canvas, a spacing of 30 between neighbours. *)
Fixpoint side_by_side (logos : list FabricObject.t) (x : Q) : Prop :=
  match logos with
  | [] => True
  | o :: rest =>
      spans o x (x + scaled_width o)
      /\ side_by_side rest (x + scaled_width o + 30)
  end.

(** One logo of 150 by 150. *)
Definition content_one_logo : InitialContent.t :=
  InitialContent.mk None None (Some ["/logo.png"]) None None None None None
                    None None None None None None.

Definition square_150 : LoadedImage := {| img_width := 150; img_height := 150 |}.

(** The images the three logos of the sixth tab resolve with in
    [schedule_tab6]. *)
Definition images_tab6 (i : nat) : LoadedImage :=
  match i with
  | O => square_200
  | _ => logo_image
  end.

(** *** Mounting twice *)

(** A descriptor with one text and nothing to load. *)
Definition content_one_text : InitialContent.t :=
  InitialContent.mk (Some [TextConfig.plain "A"]) None None None None None
                    None None None None None None None None.

(** The effect runs, is cleaned up and runs again before the deferred
    callback of the first run is due (a development-mode re-mount, or a
    change of [canvasId] within 200 ms); then both callbacks run. *)
Definition remount_before_callback : list Event :=
  [ev_effect; ev_cleanup; ev_effect; ev_timeout; ev_timeout].

(** The same re-mount after the callback of the first run has run. *)
Definition remount_after_callback : list Event :=
  [ev_effect; ev_timeout; ev_cleanup; ev_effect; ev_timeout].

(** The text objects on the canvas the component holds. *)
Definition textboxes_of (e : Editor) : list FabricObject.t :=
  match fabricCanvasRef e with
  | Some c => textboxes c
  | None => []
  end.

(** ** The tabbed editor: the date of the fifth tab *)

Module Tabbed.

(** The decimal numeral of a whole number. *)
Definition decimal (n : Z) : string := NilZero.string_of_int (Z.to_int n).

(** The whole numbers that are JavaScript numbers without gaps. *)
Definition MAX_SAFE_INTEGER : Z := 9007199254740991.

(** A whole number as JavaScript prints it.  Up to [MAX_SAFE_INTEGER]
    every whole number is a JavaScript number and is printed as its
    decimal numeral; beyond it not every whole number is one, and from
    1e21 on the exponent notation is used: those are not covered. *)
Definition number_to_string (n : Z) : option string :=
  if (Z.abs n <=? MAX_SAFE_INTEGER)%Z
  then Some (decimal n)
  else None.

(** [a[i]] for an integer [i]: [undefined] below zero and past the end. *)
Definition index (a : list string) (i : Z) : option string :=
  if (i <? 0)%Z then None else a !! Z.to_nat i.

(** [x || y] on two optional strings. *)
Definition or_else (x y : option string) : option string :=
  match x with
  | Some EmptyString => y
  | Some _ => x
  | None => y
  end.

Definition s : list string := ["th"; "st"; "nd"; "rd"].

(** [s[(v - 20) % 10] || s[v] || s[0]], [%] being the remainder that takes
    the sign of the dividend. *)
Definition suffix_of (n : Z) : option string :=
  let v := Z.rem n 100 in
  or_else (or_else (index s (Z.rem (v - 20) 10)) (index s v)) (index s 0).

(** [n + (...)]: the number followed by its suffix. *)
Definition getOrdinalSuffix (n : Z) : option string :=
  match number_to_string n with
  | Some numeral =>
      Some (numeral
            ++ match suffix_of n with
               | Some suffix => suffix
               | None => "undefined"
               end)
  | None => None
  end.

Definition monthNames : list string :=
  ["January"; "February"; "March"; "April"; "May"; "June"; "July";
   "August"; "September"; "October"; "November"; "December"].

(** [`${getOrdinalSuffix(day)} ${month} ${year}`], [getMonth()] counting
    from 0. *)
Definition formattedDate (day : Z) (getMonth : nat) (year : Z)
  : option string :=
  match getOrdinalSuffix day, number_to_string year with
  | Some ordinal, Some year =>
      Some (ordinal ++ " "
            ++ match monthNames !! getMonth with
               | Some month => month
               | None => "undefined"
               end
            ++ " " ++ year)
  | _, _ => None
  end.

End Tabbed.

(** The suffix English gives the ordinal of a natural number. *)
Definition english_suffix (n : Z) : string :=
  if (11 <=? n mod 100)%Z && (n mod 100 <=? 13)%Z then "th"
  else if (n mod 10 =? 1)%Z then "st"
  else if (n mod 10 =? 2)%Z then "nd"
  else if (n mod 10 =? 3)%Z then "rd"
  else "th".

(** ** The plain editor (ThumbnailEditor)

    The earlier, descriptor-less editor: a black canvas with the same
    upload, delete and export operations. *)

Module ThumbnailEditor.

(** The canvas the mount effect creates. *)
Definition create : Canvas.t :=
  Canvas.new THUMBNAIL_WIDTH THUMBNAIL_HEIGHT "#000000".

Definition new_Textbox_input (text : string) (fontSize : Q)
    (fontFamily textColor : string) : FabricObject.t :=
  {| FabricObject.oid := 0;
     FabricObject.type := textbox;
     FabricObject.text := Some text;
     FabricObject.left := Some (THUMBNAIL_WIDTH / 2);
     FabricObject.top := Some (THUMBNAIL_HEIGHT / 2);
     FabricObject.width := Some (THUMBNAIL_WIDTH * 0.8);
     FabricObject.height := None;
     FabricObject.scaleX := None;
     FabricObject.scaleY := None;
     FabricObject.angle := None;
     FabricObject.radius := None;
     FabricObject.originX := Some o_center;
     FabricObject.originY := Some o_center;
     FabricObject.fill := Some textColor;
     FabricObject.stroke := None;
     FabricObject.strokeWidth := None;
     FabricObject.fontSize := Some fontSize;
     FabricObject.fontFamily := Some fontFamily;
     FabricObject.fontWeight := None;
     FabricObject.textAlign := Some align_center;
     FabricObject.charSpacing := None;
     FabricObject.editable := Some true;
     FabricObject.selectable := None;
     FabricObject.evented := None |}.

Definition handleAddText (text : string) (fontSize : Q)
    (fontFamily textColor : string) (canvas : Canvas.t) : Canvas.t :=
  match text with
  | EmptyString => canvas
  | _ =>
      let (textObject, c) :=
        Canvas.add (new_Textbox_input text fontSize fontFamily textColor)
                   canvas in
      Canvas.setActiveObject textObject c
  end.

Definition handleClear (canvas : Canvas.t) : Canvas.t :=
  Canvas.set_backgroundColor "#000000" (Canvas.clear canvas).

Definition handleExportPNG (canvas : Canvas.t) : Download :=
  downloadImage
    (Canvas.toDataURL
       {| Canvas.format := Canvas.png;
          Canvas.quality := 1;
          Canvas.multiplier := 1 |} canvas)
    "thumbnail.png".

Definition handleExportJPEG (canvas : Canvas.t) : Download :=
  downloadImage
    (Canvas.toDataURL
       {| Canvas.format := Canvas.jpeg;
          Canvas.quality := 0.95;
          Canvas.multiplier := 1 |} canvas)
    "thumbnail.jpg".

(** [handleImageUpload] of the plain editor hands its handler to
    [Image.fromURL] as a second argument.  The [Image] this file imports
    is the one whose [fromURL] returns a promise (its other uses go
    through [.then]) and takes options there: the handler is never
    called, and the canvas stays as it is whatever file is picked. *)
Definition handleImageUpload (file : Upload) (canvas : Canvas.t) : Canvas.t :=
  canvas.

(** What the user can do to the canvas of the plain editor. *)
Inductive Action :=
| upload (file : Upload)
| addText (text : string) (fontSize : Q) (fontFamily textColor : string)
| delete
| clear
| resize (clientWidth : Q).

Definition act (c : Canvas.t) (a : Action) : Canvas.t :=
  match a with
  | upload file => handleImageUpload file c
  | addText t fs ff tc => handleAddText t fs ff tc c
  | delete => handleDelete c
  | clear => handleClear c
  | resize w => handleResize w c
  end.

End ThumbnailEditor.

(** ** Vocabulary of the further properties *)

(** The objects a completion puts on the canvas. *)
Definition adds (initialContent : InitialContent.t) (ev : Completion) : nat :=
  if negb (started initialContent (load_of ev)) then 0%nat else
  match ev with
  | resolved load_background _ => 1%nat
  | resolved (load_logos index) _ =>
      match logoUrls_of initialContent !! index with
      | Some _ => 1%nat
      | None => 0%nat
      end
  | resolved load_logo _ => 1%nat
  | resolved load_youtubeLogo _ =>
      if JS.truthy_bool (InitialContent.showArrow initialContent)
      then 2%nat else 1%nat
  | resolved load_nineBallLogo _ => 2%nat
  | rejected load_nineBallLogo => 2%nat
  | rejected _ => 0%nat
  end.

(** The objects the synchronous part of the callback puts on the canvas. *)
Definition adds_at_once (initialContent : InitialContent.t) : nat :=
  (length (texts_of initialContent)
   + if JS.truthy_bool (InitialContent.showNineBall initialContent)
        && negb (JS.truthy_str (InitialContent.logoUrl initialContent))
     then 2 else 0)%nat.

(** A loaded image with a real extent. *)
Definition has_extent (loaded : LoadedImage) : Prop :=
  0 < img_width loaded /\ 0 < img_height loaded.


(** A wide image, and a tall one. *)
Definition wide_image : LoadedImage := {| img_width := 2560; img_height := 720 |}.
Definition tall_image : LoadedImage := {| img_width := 100; img_height := 400 |}.



(** The object is scaled by the same factor in both directions so that
    the image it shows fits a square of side [side], touching it in one
    direction at least. *)
Definition fits_square (o : FabricObject.t) (loaded : LoadedImage)
    (side : Q) : Prop :=
  exists scale,
    FabricObject.scaleX o = Some scale
    /\ FabricObject.scaleY o = Some scale
    /\ 0 <= scale
    /\ img_width loaded * scale <= side
    /\ img_height loaded * scale <= side
    /\ (img_width loaded * scale == side
        \/ img_height loaded * scale == side).

(** The request does delete when something is selected: the button, or
    the Delete or Backspace key with neither Ctrl nor Meta. *)
Definition deletes (r : DeleteRequest) : bool :=
  match r with
  | by_button => true
  | by_key e =>
      (String.eqb (key e) "Delete" || String.eqb (key e) "Backspace")
      && negb (ctrlKey e) && negb (metaKey e)
  end.

Definition plain_Backspace : KeyboardEvent :=
  {| key := "Backspace"; ctrlKey := false; metaKey := false;
     shiftKey := false; altKey := false |}.

(** A descriptor with a youtube logo and its arrow. *)
Definition content_subscribe : InitialContent.t :=
  InitialContent.mk None None None None (Some "#FFFFFF") None None
                    (Some "/youtube-logo.svg") (Some true) None None None
                    None None.

(** Whether the suffix the code picks for the last two digits [v] is the
    English one. *)
Definition suffix_matches (v : Z) : bool :=
  match Tabbed.or_else
          (Tabbed.or_else (Tabbed.index Tabbed.s (Z.rem (v - 20) 10))
                          (Tabbed.index Tabbed.s v))
          (Tabbed.index Tabbed.s 0)
  with
  | Some suffix =>
      String.eqb suffix
        (if (11 <=? v)%Z && (v <=? 13)%Z then "th"
         else if (v mod 10 =? 1)%Z then "st"
         else if (v mod 10 =? 2)%Z then "nd"
         else if (v mod 10 =? 3)%Z then "rd"
         else "th")
  | None => false
  end.

(** *** The component between mounts *)

(** The colour the effect gives a new canvas:
    [initialContent?.backgroundColor || "#FFFFFF"]. *)
Definition bgColor_of (d : option InitialContent.t) : string :=
  JS.or_str
    (match d with
     | Some d => InitialContent.backgroundColor d
     | None => None
     end) "#FFFFFF".

(** The background colour of the canvas in the ref, if there is one. *)
Definition colour_of (e : Editor) : option string :=
  Canvas.backgroundColor <$> fabricCanvasRef e.

(** The component was rendered with the descriptor [d]; its canvas has the
    colour of the descriptor, or white. *)
Definition background_kept (d : option InitialContent.t) (e : Editor) : Prop :=
  initialContent e = d
  /\ (colour_of e = None
      \/ colour_of e = Some (bgColor_of d)
      \/ colour_of e = Some "#FFFFFF"%string).


(** * Properties *)

Local Open Scope list_scope.

(** ** The object list under the canvas operations *)

Section ObjectList.

Implicit Types (o x : FabricObject.t) (l A B : list FabricObject.t).
Implicit Types (c : Canvas.t).

Lemma add_objects o c :
  Canvas._objects (snd (Canvas.add o c))
  = Canvas._objects c ++ [FabricObject.with_oid (Canvas.nextId c) o].
Proof. reflexivity. Qed.

Lemma add_nextId o c :
  Canvas.nextId (snd (Canvas.add o c)) = S (Canvas.nextId c).
Proof. reflexivity. Qed.

Lemma wf_add o c : wf c -> wf (snd (Canvas.add o c)).
Proof.
  intros [Hnd Hlt]. split; cbn.
  - unfold oids. rewrite fmap_app. cbn. apply NoDup_app. split; [exact Hnd|].
    split; [|apply NoDup_singleton].
    intros i Hi Hin. apply list_elem_of_singleton in Hin. subst i.
    apply list_elem_of_fmap in Hi as (y & Hy & Hin).
    rewrite Forall_forall in Hlt. specialize (Hlt y Hin). lia.
  - apply Forall_app. split.
    + eapply Forall_impl; [exact Hlt|]. cbn. intros; lia.
    + apply Forall_singleton. cbn. lia.
Qed.

Lemma removeFromArray_absent o l :
  FabricObject.oid o ∉ oids l -> Canvas.removeFromArray o l = l.
Proof.
  induction l as [|x l IH]; cbn; [done|]. intros Hno.
  apply not_elem_of_cons in Hno as [Hne Hno].
  destruct (Nat.eqb_spec (FabricObject.oid x) (FabricObject.oid o)).
  - congruence.
  - by rewrite IH.
Qed.

Lemma removeFromArray_middle o A x B :
  FabricObject.oid x = FabricObject.oid o ->
  FabricObject.oid o ∉ oids A ->
  Canvas.removeFromArray o (A ++ x :: B) = A ++ B.
Proof.
  intros Hx. induction A as [|a A IH]; cbn; intros Hno.
  - by rewrite Hx, Nat.eqb_refl.
  - apply not_elem_of_cons in Hno as [Hne Hno].
    destruct (Nat.eqb_spec (FabricObject.oid a) (FabricObject.oid o)).
    + congruence.
    + by rewrite IH.
Qed.

Lemma removeFromArray_oids o l :
  NoDup (oids l) -> NoDup (oids (Canvas.removeFromArray o l))
  /\ (FabricObject.oid o ∉ oids (Canvas.removeFromArray o l))
  /\ (forall y, y ∈ Canvas.removeFromArray o l -> y ∈ l).
Proof.
  induction l as [|x l IH]; cbn; intros Hnd.
  - repeat split; [constructor | apply not_elem_of_nil | done].
  - apply NoDup_cons in Hnd as [Hx Hnd].
    destruct (Nat.eqb_spec (FabricObject.oid x) (FabricObject.oid o)) as [E|E].
    + repeat split; [done | by rewrite <- E |].
      intros y Hy. by apply list_elem_of_further.
    + destruct (IH Hnd) as (H1 & H2 & H3). repeat split.
      * cbn. apply NoDup_cons. split; [|done].
        intros Hin. apply list_elem_of_fmap in Hin as (y & Hy & Hin).
        apply Hx. apply list_elem_of_fmap. exists y. split; [done|]. by apply H3.
      * cbn. apply not_elem_of_cons. split; [congruence | done].
      * intros y Hy. apply elem_of_cons in Hy as [->|Hy].
        -- apply list_elem_of_here.
        -- apply list_elem_of_further. by apply H3.
Qed.

Lemma NoDup_oids_middle A x B :
  NoDup (oids (A ++ x :: B)) ->
  (FabricObject.oid x ∉ oids A) /\ (FabricObject.oid x ∉ oids B).
Proof.
  unfold oids. rewrite fmap_app. cbn. intros H.
  apply NoDup_app in H as (_ & H1 & H2).
  apply NoDup_cons in H2 as [H2 _]. split; [|exact H2].
  intros Hin. apply (H1 _ Hin). apply list_elem_of_here.
Qed.

Lemma bringObjectToFront_middle c A x B :
  Canvas._objects c = A ++ x :: B ->
  NoDup (oids (A ++ x :: B)) ->
  Canvas._objects (Canvas.bringObjectToFront x c) = A ++ B ++ [x].
Proof.
  intros Hc Hnd. destruct (NoDup_oids_middle _ _ _ Hnd) as [HA HB].
  unfold Canvas.bringObjectToFront. rewrite Hc.
  destruct B as [|b B] using rev_ind.
  - rewrite last_snoc. unfold Canvas.same_object. by rewrite Nat.eqb_refl, Hc.
  - clear IHB. rewrite app_comm_cons, app_assoc, last_snoc.
    unfold Canvas.same_object.
    destruct (Nat.eqb_spec (FabricObject.oid b) (FabricObject.oid x)) as [E|E].
    + exfalso. apply HB. unfold oids. rewrite fmap_app, <- E. cbn.
      apply elem_of_app. right. apply list_elem_of_here.
    + cbn. rewrite <- app_assoc, <- app_comm_cons.
      rewrite (removeFromArray_middle x A x (B ++ [b])); [|done..].
      by rewrite <- app_assoc.
Qed.

Lemma text_other_perm l : other_objects l ++ text_objects l ≡ₚ l.
Proof.
  unfold other_objects, text_objects.
  rewrite (comm (++)). apply filter_app_complement.
Qed.

Lemma text_objects_snoc l x :
  text_objects (l ++ [x])
  = text_objects l ++ (if FabricObject.is_text_object x then [x] else []).
Proof.
  unfold text_objects. rewrite filter_app. f_equal.
  destruct (FabricObject.is_text_object x) eqn:E.
  - by rewrite filter_cons_True.
  - rewrite filter_cons_False; [done|]. by rewrite E.
Qed.

Lemma other_objects_snoc l x :
  other_objects (l ++ [x])
  = other_objects l ++ (if FabricObject.is_text_object x then [] else [x]).
Proof.
  unfold other_objects. rewrite filter_app. f_equal.
  destruct (FabricObject.is_text_object x) eqn:E.
  - rewrite filter_cons_False; [done|]. intros H. by apply H.
  - rewrite filter_cons_True; [done|]. by rewrite E.
Qed.

(** Bringing the text objects of a snapshot to the front, one after the
    other, leaves the others in place, in order, followed by the text
    objects, in order. *)
Lemma texts_to_front_aux R : forall P c,
  NoDup (oids (P ++ R)) ->
  Canvas._objects c = other_objects P ++ R ++ text_objects P ->
  Canvas._objects (texts_to_front R c)
  = other_objects (P ++ R) ++ text_objects (P ++ R).
Proof.
  induction R as [|x R IH]; intros P c Hnd Hc.
  - cbn. by rewrite Hc, app_nil_r.
  - unfold texts_to_front. cbn [fold_left]. fold (texts_to_front R).
    replace (P ++ x :: R) with ((P ++ [x]) ++ R) in * by (by rewrite <- app_assoc).
    apply IH; [exact Hnd|].
    rewrite text_objects_snoc, other_objects_snoc.
    destruct (FabricObject.is_text_object x) eqn:E.
    + rewrite app_nil_r.
      rewrite (bringObjectToFront_middle c (other_objects P) x
                 (R ++ text_objects P)); [by rewrite <- !app_assoc|exact Hc|].
      eapply (NoDup_Permutation_proper); [|exact Hnd]. unfold oids.
      apply fmap_Permutation.
      transitivity ((other_objects P ++ text_objects P) ++ x :: R).
      * rewrite <- app_assoc. apply Permutation_app_head.
        rewrite app_comm_cons. apply Permutation_app_comm.
      * rewrite <- (app_assoc P). cbn.
        apply Permutation_app_tail, text_other_perm.
    + rewrite app_nil_r, Hc. by rewrite <- !app_assoc.
Qed.

Lemma texts_to_front_objects c :
  NoDup (oids (Canvas._objects c)) ->
  Canvas._objects (texts_to_front (Canvas.getObjects c) c)
  = other_objects (Canvas._objects c) ++ text_objects (Canvas._objects c).
Proof.
  intros Hnd. apply (texts_to_front_aux _ [] c Hnd).
  by rewrite app_nil_r.
Qed.

Lemma wf_perm c c' :
  wf c -> Canvas._objects c' ≡ₚ Canvas._objects c ->
  Canvas.nextId c' = Canvas.nextId c -> wf c'.
Proof.
  intros [Hnd Hlt] Hp Hn. split.
  - by rewrite Hp.
  - rewrite Hn. by rewrite Hp.
Qed.

Lemma texts_to_front_nextId R : forall c,
  Canvas.nextId (texts_to_front R c) = Canvas.nextId c.
Proof.
  induction R as [|x R IH]; intros c; [done|].
  unfold texts_to_front. cbn [fold_left]. fold (texts_to_front R).
  rewrite IH. destruct (FabricObject.is_text_object x); [|done].
  unfold Canvas.bringObjectToFront.
  destruct (last (Canvas._objects c)) as [y|]; [|done].
  by destruct (Canvas.same_object y x).
Qed.

Lemma wf_texts_to_front c :
  wf c -> wf (texts_to_front (Canvas.getObjects c) c).
Proof.
  intros Hwf. apply (wf_perm c); [done| |apply texts_to_front_nextId].
  rewrite texts_to_front_objects by apply Hwf. apply text_other_perm.
Qed.

Lemma back_most_add bg o c :
  back_most bg c -> back_most bg (snd (Canvas.add o c)).
Proof. intros [rest H]. eexists. rewrite add_objects, H. reflexivity. Qed.

Lemma back_most_texts_to_front bg c :
  wf c -> FabricObject.type bg = image -> back_most bg c ->
  back_most bg (texts_to_front (Canvas.getObjects c) c).
Proof.
  intros Hwf Hty [rest H]. unfold back_most.
  rewrite texts_to_front_objects by apply Hwf. rewrite H.
  unfold other_objects at 1. rewrite filter_cons_True.
  - eexists. reflexivity.
  - unfold FabricObject.is_text_object. by rewrite Hty.
Qed.

Lemma sendObjectToBack_back_most bg c :
  back_most bg c -> Canvas.sendObjectToBack bg c = c.
Proof.
  intros [rest H]. unfold Canvas.sendObjectToBack. rewrite H.
  unfold Canvas.same_object. by rewrite Nat.eqb_refl.
Qed.

Lemma sendObjectToBack_objects o c :
  Canvas._objects (Canvas.sendObjectToBack o c)
  = match Canvas._objects c with
    | x :: _ =>
        if Canvas.same_object x o then Canvas._objects c
        else o :: Canvas.removeFromArray o (Canvas._objects c)
    | [] => [o]
    end.
Proof.
  unfold Canvas.sendObjectToBack.
  destruct (Canvas._objects c) as [|x l] eqn:E; [done|].
  by destruct (Canvas.same_object x o).
Qed.

(** A freshly added object sent to the back lands below all the others. *)
Lemma add_sendObjectToBack o c :
  wf c ->
  Canvas._objects
    (Canvas.sendObjectToBack (fst (Canvas.add o c)) (snd (Canvas.add o c)))
  = fst (Canvas.add o c) :: Canvas._objects c.
Proof.
  intros [Hnd Hlt]. rewrite sendObjectToBack_objects, add_objects.
  cbn [fst Canvas.add]. set (o' := FabricObject.with_oid _ o).
  assert (Hfresh : FabricObject.oid o' ∉ oids (Canvas._objects c)).
  { intros Hin. apply list_elem_of_fmap in Hin as (y & Hy & Hin).
    rewrite Forall_forall in Hlt. specialize (Hlt y Hin).
    cbn in Hy. lia. }
  destruct (Canvas._objects c) as [|x l] eqn:E.
  - cbn. unfold Canvas.same_object. by rewrite Nat.eqb_refl.
  - cbn [app]. unfold Canvas.same_object.
    destruct (Nat.eqb_spec (FabricObject.oid x) (FabricObject.oid o')) as [Ex|Ex].
    + exfalso. apply Hfresh. rewrite <- Ex. apply list_elem_of_here.
    + f_equal. rewrite app_comm_cons.
      rewrite (removeFromArray_middle o' (x :: l) o' []); [|done..].
      by rewrite app_nil_r.
Qed.

Lemma wf_update i f c :
  (forall o, FabricObject.oid (f o) = FabricObject.oid o) ->
  wf c -> wf (Canvas.update i f c).
Proof.
  intros Hf [Hnd Hlt].
  assert (E : oids (Canvas._objects (Canvas.update i f c))
              = oids (Canvas._objects c)).
  { cbn. unfold oids. rewrite <- list_fmap_compose. apply list_fmap_ext.
    intros _ x _. cbn. by destruct (Nat.eqb _ i). }
  split.
  - fold (oids (Canvas._objects (Canvas.update i f c))). by rewrite E.
  - cbn. apply Forall_fmap. eapply Forall_impl; [exact Hlt|].
    intros x Hx. cbn. destruct (Nat.eqb _ i); [rewrite Hf|]; exact Hx.
Qed.

Lemma back_most_update bg i f c :
  FabricObject.oid bg <> i -> back_most bg c ->
  back_most bg (Canvas.update i f c).
Proof.
  intros Hne [rest H]. unfold back_most. cbn. rewrite H. cbn.
  destruct (Nat.eqb_spec (FabricObject.oid bg) i); [done|]. eexists. reflexivity.
Qed.

End ObjectList.

(** ** JavaScript defaulting *)

Section Defaulting.

Lemma or_num_supplied v d : ~ v == 0 -> JS.or_num (Some v) d = v.
Proof.
  intros H. unfold JS.or_num. destruct (Qeq_bool v 0) eqn:E; [|done].
  apply Qeq_bool_iff in E. contradiction.
Qed.

Lemma or_num_zero v d : v == 0 -> JS.or_num (Some v) d = d.
Proof.
  intros H. unfold JS.or_num. apply Qeq_bool_iff in H. by rewrite H.
Qed.

Lemma or_num_supplied_or x d :
  nonzero_if_supplied x -> JS.or_num x d = supplied_or x d.
Proof. destruct x as [v|]; cbn; [apply or_num_supplied | done]. Qed.

Lemma or_str_supplied_or x d :
  nonempty_if_supplied x -> JS.or_str x d = supplied_or x d.
Proof. destruct x as [[|a s]|]; cbn; [congruence | done | done]. Qed.

(** [angle || 0]: a supplied [0] and the default coincide. *)
Lemma or_num_0 x : JS.or_num x 0 == supplied_or x 0.
Proof.
  destruct x as [v|]; cbn; [|reflexivity].
  destruct (Qeq_bool v 0) eqn:E; [|reflexivity].
  apply Qeq_bool_iff in E. by rewrite E.
Qed.

Lemma is_num_proper x a b : is_num x a -> a == b -> is_num x b.
Proof.
  unfold is_num. destruct x as [v|]; cbn; [|done].
  intros H E. by rewrite H.
Qed.

Lemma num_eq_refl x : num_eq x x.
Proof. destruct x; cbn; [reflexivity | exact I]. Qed.

End Defaulting.

(** ** The text entries *)

Section Texts.

Implicit Types (c : Canvas.t) (entry : TextConfig.t).

Lemma add_texts_cons entry texts c :
  add_texts (entry :: texts) c
  = add_texts texts (snd (Canvas.add (new_Textbox entry) c)).
Proof. reflexivity. Qed.

Lemma add_texts_objects texts : forall c,
  Canvas._objects (add_texts texts c)
  = Canvas._objects c
    ++ imap (fun i entry =>
               FabricObject.with_oid (Canvas.nextId c + i) (new_Textbox entry))
            texts
  /\ Canvas.nextId (add_texts texts c) = (Canvas.nextId c + length texts)%nat.
Proof.
  induction texts as [|entry texts IH]; intros c.
  - cbn. rewrite app_nil_r. split; [done | lia].
  - rewrite add_texts_cons.
    destruct (IH (snd (Canvas.add (new_Textbox entry) c))) as [Ho Hn].
    rewrite Ho, Hn, add_objects, add_nextId. split; [|cbn; lia].
    rewrite <- app_assoc. f_equal. cbn [app]. rewrite imap_cons.
    rewrite Nat.add_0_r. f_equal. apply imap_ext. intros i x _. cbn.
    f_equal. lia.
Qed.

Lemma wf_add_texts texts : forall c, wf c -> wf (add_texts texts c).
Proof.
  induction texts as [|entry texts IH]; intros c Hwf; [done|].
  rewrite add_texts_cons. by apply IH, wf_add.
Qed.

(** The text object of an entry is the documented one as long as the entry
    supplies no [0] and no empty string where [||] supplies the default. *)
Lemma new_Textbox_documented entry i :
  no_falsy_attribute entry ->
  same_attributes (FabricObject.with_oid i (new_Textbox entry))
                  (documented_Textbox entry).
Proof.
  intros (Hfs & Htop & Hw & Hff & Hc & Hfw & Hs).
  unfold same_attributes, new_Textbox, documented_Textbox. cbn.
  rewrite (or_num_supplied_or (TextConfig.fontSize entry)),
          (or_num_supplied_or (TextConfig.top entry)),
          (or_num_supplied_or (TextConfig.width entry)),
          !or_str_supplied_or by assumption.
  repeat split; try apply num_eq_refl.
  - destruct (TextConfig.left entry); cbn; reflexivity.
  - destruct (TextConfig.top entry); cbn; reflexivity.
  - destruct (TextConfig.width entry); cbn; reflexivity.
  - apply or_num_0.
Qed.

Lemma textbox_is_text_object o :
  FabricObject.type o = textbox -> FabricObject.is_text_object o = true.
Proof. unfold FabricObject.is_text_object. by intros ->. Qed.

Lemma textboxes_other l :
  filter (fun o => FabricObject.type o = textbox) (other_objects l) = [].
Proof.
  unfold other_objects. induction l as [|x l IH]; [done|].
  rewrite (filter_cons _ x). case_decide as Hx; [|exact IH].
  rewrite filter_cons_False; [exact IH|].
  intros Hty. apply Hx. by apply textbox_is_text_object.
Qed.

Lemma textboxes_text l :
  filter (fun o => FabricObject.type o = textbox) (text_objects l)
  = filter (fun o => FabricObject.type o = textbox) l.
Proof.
  unfold text_objects. induction l as [|x l IH]; [done|].
  rewrite (filter_cons _ x). case_decide as Hx.
  - rewrite !(filter_cons _ x). case_decide; by rewrite IH.
  - rewrite (filter_cons_False _ x l); [exact IH|].
    intros Hty. apply Hx. by apply textbox_is_text_object.
Qed.

Lemma textboxes_filter_split l :
  filter (fun o => FabricObject.type o = textbox)
         (other_objects l ++ text_objects l)
  = filter (fun o => FabricObject.type o = textbox) l.
Proof. by rewrite filter_app, textboxes_other, textboxes_text. Qed.

End Texts.

(** ** The nine ball *)

Section NineBall.

Variable initialContent : InitialContent.t.

Lemma keep_background_back_id p :
  background_inv p -> keep_background_back p = p.
Proof.
  unfold background_inv, keep_background_back.
  destruct (backgroundImageRef p) as [bg|] eqn:E; [|done].
  intros [_ Hb]. rewrite (sendObjectToBack_back_most _ _ Hb).
  by destruct p.
Qed.

(** After [createNineBall] the canvas holds, back to front: the objects
    that are no text objects, in their former order; the circle; the
    numeral; the text objects, in their former order. *)
Lemma createNineBall_objects p :
  wf (canvas p) -> background_inv p ->
  Canvas._objects (canvas (createNineBall initialContent p))
  = other_objects (Canvas._objects (canvas p))
    ++ [nineBall_circle initialContent (Canvas.nextId (canvas p));
        nineBall_numeral initialContent (Canvas.nextId (canvas p))]
    ++ text_objects (Canvas._objects (canvas p)).
Proof.
  intros Hwf Hbg. unfold createNineBall.
  set (r := JS.or_num _ 250 / 2).
  set (c1 := snd (Canvas.add (new_Circle r _) (canvas p))).
  set (c2 := snd (Canvas.add (new_Text_9 r _) c1)).
  assert (Hwf2 : wf c2) by (by apply wf_add, wf_add).
  assert (Hinv : background_inv (with_canvas (texts_to_front (Canvas.getObjects c2) c2) p)).
  { unfold background_inv in *. cbn [backgroundImageRef canvas with_canvas].
    destruct (backgroundImageRef p) as [bg|]; [|done].
    destruct Hbg as [Hty Hb]. split; [done|].
    apply back_most_texts_to_front; [done..|].
    by apply back_most_add, back_most_add. }
  rewrite (keep_background_back_id _ Hinv). cbn [canvas with_canvas].
  rewrite texts_to_front_objects by apply Hwf2.
  unfold c2, c1. rewrite !add_objects, add_nextId.
  rewrite !text_objects_snoc, !other_objects_snoc. cbn.
  by rewrite !app_nil_r, <- !app_assoc.
Qed.

Lemma createNineBall_textboxes p :
  wf (canvas p) -> background_inv p ->
  textboxes (canvas (createNineBall initialContent p)) = textboxes (canvas p).
Proof.
  intros Hwf Hbg. unfold textboxes. rewrite createNineBall_objects by done.
  by rewrite !filter_app, textboxes_other, textboxes_text.
Qed.

End NineBall.

(** ** The text objects of the initialisation *)

Section InitialTexts.

Lemma wf_new w h bg : wf (Canvas.new w h bg).
Proof. split; cbn; constructor. Qed.

Lemma textboxes_imap n texts :
  filter (fun o => FabricObject.type o = textbox)
    (imap (fun i entry => FabricObject.with_oid (n + i) (new_Textbox entry))
          texts)
  = imap (fun i entry => FabricObject.with_oid (n + i) (new_Textbox entry))
         texts.
Proof.
  revert n. induction texts as [|entry texts IH]; intros n; [done|].
  rewrite imap_cons.
  rewrite (imap_ext _ (fun i entry =>
             FabricObject.with_oid (S n + i) (new_Textbox entry)))
    by (intros i x _; cbn; f_equal; lia).
  rewrite filter_cons_True by done. by rewrite IH.
Qed.

Lemma new_Textbox_unless_falsy entry i :
  documented_unless_falsy entry (FabricObject.with_oid i (new_Textbox entry)).
Proof.
  unfold documented_unless_falsy, new_Textbox. cbn.
  split; [done|]. split; [done|].
  split; [destruct (TextConfig.left entry); cbn; reflexivity|].
  split; [destruct (TextConfig.strokeWidth entry); cbn; reflexivity|].
  split; [apply or_num_0|].
  split; [by destruct (TextConfig.textAlign entry)|].
  split; [by destruct (TextConfig.originX entry)|].
  split; [done|].
  split; [intros H; rewrite or_num_supplied_or by done;
          destruct (TextConfig.top entry); cbn; reflexivity|].
  split; [intros H; rewrite or_num_supplied_or by done;
          destruct (TextConfig.fontSize entry); cbn; reflexivity|].
  split; [intros H; rewrite or_num_supplied_or by done;
          destruct (TextConfig.width entry); cbn; reflexivity|].
  split; [intros H; by rewrite or_str_supplied_or|].
  split; [intros H; by rewrite or_str_supplied_or|].
  split; [intros H; by rewrite or_str_supplied_or|].
  intros H; by rewrite or_str_supplied_or.
Qed.

Lemma documented_imap n texts :
  Forall2 (fun entry o =>
             documented_unless_falsy entry o
             /\ (no_falsy_attribute entry ->
                 same_attributes o (documented_Textbox entry)))
    texts
    (imap (fun i entry => FabricObject.with_oid (n + i) (new_Textbox entry))
          texts).
Proof.
  revert n. induction texts as [|entry texts IH]; intros n; [constructor|].
  rewrite imap_cons. constructor.
  - split; [apply new_Textbox_unless_falsy | apply new_Textbox_documented].
  - specialize (IH (S n)).
    erewrite imap_ext; [exact IH|]. intros i x _. cbn. f_equal. lia.
Qed.

(** The text objects after the synchronous part of the callback. *)
Lemma initialize_textboxes initialContent c :
  wf c ->
  textboxes (canvas (initialize initialContent c))
  = textboxes c
    ++ imap (fun i entry =>
               FabricObject.with_oid (Canvas.nextId c + i) (new_Textbox entry))
            (texts_of initialContent).
Proof.
  intros Hwf. unfold initialize, texts_of.
  set (p1 := match InitialContent.texts initialContent with
             | Some texts => _ | None => _ end).
  assert (H1 : wf (canvas p1) /\ background_inv p1
               /\ textboxes (canvas p1)
                  = textboxes c
                    ++ imap (fun i entry =>
                         FabricObject.with_oid (Canvas.nextId c + i)
                                               (new_Textbox entry))
                       (match InitialContent.texts initialContent with
                        | Some texts => texts | None => [] end)).
  { unfold p1. destruct (InitialContent.texts initialContent) as [texts|].
    - cbn [canvas with_canvas]. split; [by apply wf_add_texts|].
      split; [exact I|]. unfold textboxes.
      destruct (add_texts_objects texts c) as [-> _].
      by rewrite filter_app, textboxes_imap.
    - cbn. split; [done|]. split; [exact I|]. by rewrite app_nil_r. }
  destruct H1 as (Hwf1 & Hbg1 & Htb).
  destruct (_ && _); [|exact Htb].
  by rewrite createNineBall_textboxes.
Qed.

(** C1: for a content descriptor with N text entries the initialisation
    adds exactly N textbox objects to the canvas, in the order of the
    entries, whatever the entries supply.  Each carries the content of its
    entry and, as supplied or else at the documented default, its left
    (620), strokeWidth (3), angle (0), textAlign (center) and originX
    (center), with originY center; its top (360), fontSize (60), width
    (1024), fontFamily (Arial), fill (#FFFFFF), fontWeight (bold) and
    stroke (#000000) are as supplied or else at the documented default
    unless the entry supplies a zero or an empty string for that
    attribute.  So an entry that supplies no such value gets the text
    object the documentation describes. *)
Theorem texts_initialized initialContent c :
  wf c ->
  exists added,
    textboxes (canvas (initialize initialContent c)) = textboxes c ++ added
    /\ length added = length (texts_of initialContent)
    /\ Forall2 (fun entry o =>
                  documented_unless_falsy entry o
                  /\ (no_falsy_attribute entry ->
                      same_attributes o (documented_Textbox entry)))
               (texts_of initialContent) added.
Proof.
  intros Hwf. eexists. split; [by apply initialize_textboxes|].
  split; [apply length_imap | by apply documented_imap].
Qed.

Lemma texts_initialized_witness :
  exists added,
    textboxes (canvas (initialize content_tab1 blank_canvas))
    = textboxes blank_canvas ++ added
    /\ length added = length (texts_of content_tab1)
    /\ Forall2 (fun entry o =>
                  documented_unless_falsy entry o
                  /\ (no_falsy_attribute entry ->
                      same_attributes o (documented_Textbox entry)))
               (texts_of content_tab1) added.
Proof. apply texts_initialized, wf_new. Defined.

(** C1 fails where the text loop defaults with [||]: the entry
    [{ content: ..., top: 0 }] gets a text object whose top is the default
    360, not the supplied 0 - while its left and strokeWidth, defaulted
    with [??], would keep a supplied 0. *)
Lemma texts_supplied_zero_top_counterexample :
  TextConfig.top entry_top0 = Some 0
  /\ exists o,
       Canvas._objects (canvas (initialize content_top0 blank_canvas)) = [o]
       /\ is_num (FabricObject.top o) 360
       /\ ~ is_num (FabricObject.top o) 0
       /\ ~ same_attributes o (documented_Textbox entry_top0).
Proof.
  split; [reflexivity|]. eexists. split; [reflexivity|]. split; [|split].
  - vm_compute. reflexivity.
  - intros H. vm_compute in H. discriminate.
  - intros (_ & _ & _ & Htop & _). vm_compute in Htop. discriminate.
Qed.

End InitialTexts.

(** ** Deleting *)

Section Deleting.

(** C6 (amended): with no selected object the delete operation, by the
    button or by the Delete or Backspace key, leaves the canvas unchanged;
    and a keydown while Ctrl or Meta is held removes nothing, even when an
    object is selected. *)
Theorem delete_guarded (r : DeleteRequest) (c : Canvas.t) :
  Canvas.getActiveObject c = None \/ ctrl_or_meta r = true ->
  delete_request r c = c.
Proof.
  intros [Hnone | Hmod].
  - destruct r as [|e]; cbn; unfold handleDelete, handleKeyDown.
    + by rewrite Hnone.
    + rewrite Hnone. by destruct (_ && _).
  - destruct r as [|e]; [discriminate|]. cbn in *. unfold handleKeyDown.
    destruct (ctrlKey e), (metaKey e); try discriminate;
      by rewrite ?andb_false_r.
Qed.

Lemma delete_guarded_witness :
  delete_request (by_key ctrl_Delete) canvas_with_selection
  = canvas_with_selection.
Proof. apply delete_guarded. right. reflexivity. Defined.

(** C6 as stated fails for Shift (and Alt): Shift+Delete removes the
    selected object. *)
Lemma shift_delete_counterexample :
  any_modifier shift_Delete = true
  /\ length (Canvas._objects canvas_with_selection) = 1%nat
  /\ Canvas._objects (handleKeyDown shift_Delete canvas_with_selection) = [].
Proof. repeat split. Qed.

End Deleting.

(** ** Clearing *)

Section Clearing.

(** C10: whatever the state of the editor, and so whatever background its
    descriptor asked for, clearing empties the object list and sets the
    background to #FFFFFF. *)
Theorem clear_resets_to_white (e : Editor) :
  match fabricCanvasRef (step e ev_clear) with
  | Some c =>
      Canvas._objects c = [] /\ Canvas.backgroundColor c = "#FFFFFF"
  | None => fabricCanvasRef e = None
  end.
Proof.
  cbn [step]. unfold on_canvas.
  destruct (fabricCanvasRef e) as [c|] eqn:E; cbn.
  - split; reflexivity.
  - by rewrite E.
Qed.

(** The canvas of the first tab is created with the descriptor's colour and
    is white after a clear. *)
Example clear_tab1 :
  option_map Canvas.backgroundColor
    (fabricCanvasRef (steps (render "canvas-1" (Some content_tab1))
                            [ev_effect]))
  = Some "#FFFFE0"
  /\ option_map Canvas.backgroundColor
       (fabricCanvasRef (steps (render "canvas-1" (Some content_tab1))
                               [ev_effect; ev_timeout; ev_clear]))
     = Some "#FFFFFF".
Proof. split; reflexivity. Qed.

End Clearing.

(** ** The single logo *)

Section SingleLogo.

Variable initialContent : InitialContent.t.
Variable loaded : LoadedImage.

Lemma or_num_0_eq v : JS.or_num (Some v) 0 == v.
Proof.
  unfold JS.or_num. destruct (Qeq_bool v 0) eqn:E; [|reflexivity].
  apply Qeq_bool_iff in E. by rewrite E.
Qed.

Lemma single_logo_top :
  FabricObject.top (single_logo initialContent loaded)
  = Some (logoTop_of initialContent
            (FabricObject.scale
               (fit_scale
                  (200 * JS.or_num
                           (InitialContent.logoSizeMultiplier initialContent) 1)
                  (Image_of loaded))
               (Image_of loaded))
            (fit_scale
               (200 * JS.or_num
                        (InitialContent.logoSizeMultiplier initialContent) 1)
               (Image_of loaded))).
Proof.
  unfold single_logo. by destruct (JS.truthy_bool _).
Qed.

(** The single logo is the front-most object once its load has completed. *)
Lemma on_logo_objects p :
  background_inv p ->
  Canvas._objects (canvas (on_logo initialContent loaded p))
  = Canvas._objects (canvas p)
    ++ [FabricObject.with_oid (Canvas.nextId (canvas p))
          (single_logo initialContent loaded)].
Proof.
  intros Hbg. unfold on_logo. rewrite keep_background_back_id; [done|].
  unfold background_inv in *. cbn [backgroundImageRef canvas with_canvas].
  destruct (backgroundImageRef p); [|done]. destruct Hbg. split; [done|].
  by apply back_most_add.
Qed.

Lemma single_logo_shape :
  is_image (single_logo initialContent loaded)
  /\ FabricObject.originX (single_logo initialContent loaded) = Some o_center
  /\ FabricObject.originY (single_logo initialContent loaded) = Some o_top
  /\ FabricObject.left (single_logo initialContent loaded)
     = Some (THUMBNAIL_WIDTH / 2 - 20)
  /\ FabricObject.height (single_logo initialContent loaded)
     = Some (img_height loaded)
  /\ FabricObject.scaleY (single_logo initialContent loaded)
     = Some (fit_scale
               (200 * JS.or_num
                        (InitialContent.logoSizeMultiplier initialContent) 1)
               (Image_of loaded)).
Proof. unfold is_image, single_logo. by destruct (JS.truthy_bool _). Qed.

(** C4: for a single-logo descriptor with no explicit logoTop and a
    non-empty texts list, the logo is put on the canvas, positioned by its
    top edge; with its scaled height being its height times its scale, its
    top is the first entry's top (or 360 when that entry has no top) minus
    the scaled height minus 30 - unless the first entry supplies a top of
    0: then the logo is placed from 360, at 360 minus the scaled height
    minus 30. *)
Theorem single_logo_default_top (first : TextConfig.t)
    (rest : list TextConfig.t) (p : Pass) :
  started initialContent load_logo = true ->
  InitialContent.logoTop initialContent = None ->
  InitialContent.texts initialContent = Some (first :: rest) ->
  background_inv p ->
  exists logo height scale,
    Canvas._objects (canvas (settle initialContent p (resolved load_logo loaded)))
    = Canvas._objects (canvas p) ++ [logo]
    /\ is_image logo
    /\ FabricObject.originY logo = Some o_top
    /\ FabricObject.height logo = Some height
    /\ FabricObject.scaleY logo = Some scale
    /\ (nonzero_if_supplied (TextConfig.top first) ->
        is_num (FabricObject.top logo)
               (supplied_or (TextConfig.top first) 360 - height * scale - 30))
    /\ (is_num (TextConfig.top first) 0 ->
        is_num (FabricObject.top logo) (360 - height * scale - 30)).
Proof.
  intros Hst Hno Htexts Hbg.
  destruct single_logo_shape as (Hty & _ & HoY & _ & Hh & Hs).
  do 3 eexists.
  unfold settle. cbn [load_of]. rewrite Hst. cbn [negb].
  split; [by apply on_logo_objects|].
  split; [exact Hty|]. split; [exact HoY|].
  split; [exact Hh|]. split; [exact Hs|].
  assert (Htop : is_num
            (FabricObject.top
               (FabricObject.with_oid (Canvas.nextId (canvas p))
                  (single_logo initialContent loaded)))
            (JS.or_num (TextConfig.top first) (THUMBNAIL_HEIGHT / 2)
             - img_height loaded
               * fit_scale
                   (200 * JS.or_num
                            (InitialContent.logoSizeMultiplier initialContent)
                            1)
                   (Image_of loaded)
             - 30)).
  { unfold is_num. cbn [FabricObject.top FabricObject.with_oid].
    rewrite single_logo_top. unfold logoTop_of. rewrite Hno, Htexts.
    cbn [num_eq]. cbn [FabricObject.height FabricObject.scale Image_of].
    by rewrite or_num_0_eq. }
  assert (H360 : THUMBNAIL_HEIGHT / 2 == 360) by reflexivity.
  split.
  - intros Hnz. apply (is_num_proper _ _ _ Htop).
    rewrite or_num_supplied_or by done.
    destruct (TextConfig.top first); cbn [supplied_or]; [reflexivity|].
    by rewrite H360.
  - intros H0. apply (is_num_proper _ _ _ Htop).
    destruct (TextConfig.top first) as [t|]; [|done].
    rewrite or_num_zero by exact H0. by rewrite H360.
Qed.

End SingleLogo.

Lemma single_logo_default_top_witness :
  exists logo height scale,
    Canvas._objects
      (canvas (settle content_tab2 (initialize content_tab2 blank_canvas)
                      (resolved load_logo square_200)))
    = Canvas._objects (canvas (initialize content_tab2 blank_canvas)) ++ [logo]
    /\ is_image logo
    /\ FabricObject.originY logo = Some o_top
    /\ FabricObject.height logo = Some height
    /\ FabricObject.scaleY logo = Some scale
    /\ (nonzero_if_supplied (TextConfig.top entry_title) ->
        is_num (FabricObject.top logo)
               (supplied_or (TextConfig.top entry_title) 360
                - height * scale - 30))
    /\ (is_num (TextConfig.top entry_title) 0 ->
        is_num (FabricObject.top logo) (360 - height * scale - 30)).
Proof.
  apply (single_logo_default_top content_tab2 square_200 entry_title
           [entry_date]).
  - reflexivity.
  - reflexivity.
  - reflexivity.
  - exact I.
Defined.

(** C4 fails over a first entry with [top: 0]: the logo, 200 high on the
    canvas, is placed from 360, at 360 - 200 - 30 = 130, not at
    0 - 200 - 30 = -230. *)
Lemma single_logo_top0_counterexample :
  InitialContent.logoTop content_logo_top0 = None
  /\ InitialContent.texts content_logo_top0 = Some [entry_top0]
  /\ TextConfig.top entry_top0 = Some 0
  /\ exists txt logo,
       Canvas._objects
         (canvas (run content_logo_top0 blank_canvas
                      [resolved load_logo square_200]))
       = [txt; logo]
       /\ is_image logo
       /\ FabricObject.height logo = Some 200
       /\ is_num (FabricObject.scaleY logo) 1
       /\ is_num (FabricObject.top logo) 130
       /\ ~ is_num (FabricObject.top logo) (0 - 200 * 1 - 30).
Proof.
  split; [reflexivity|]. split; [reflexivity|]. split; [reflexivity|].
  do 2 eexists. split; [reflexivity|].
  repeat split; try (vm_compute; reflexivity).
  intros H. vm_compute in H. discriminate H.
Qed.

(** ** The coordinate space never changes *)

Section Size.

Implicit Types (c : Canvas.t) (p : Pass) (o : FabricObject.t).

Lemma size_sendObjectToBack o c : size (Canvas.sendObjectToBack o c) = size c.
Proof.
  unfold Canvas.sendObjectToBack. destruct (Canvas._objects c); [done|].
  by destruct (Canvas.same_object _ o).
Qed.

Lemma size_bringObjectToFront o c :
  size (Canvas.bringObjectToFront o c) = size c.
Proof.
  unfold Canvas.bringObjectToFront. destruct (last (Canvas._objects c)); [|done].
  by destruct (Canvas.same_object _ o).
Qed.

Lemma size_texts_to_front l : forall c, size (texts_to_front l c) = size c.
Proof.
  induction l as [|x l IH]; intros c; [done|].
  unfold texts_to_front. cbn [fold_left]. fold (texts_to_front l).
  rewrite IH. destruct (FabricObject.is_text_object x); [|done].
  apply size_bringObjectToFront.
Qed.

Lemma size_add_texts texts : forall c, size (add_texts texts c) = size c.
Proof.
  induction texts as [|entry texts IH]; intros c; [done|].
  rewrite add_texts_cons. by rewrite IH.
Qed.

Lemma size_place_logos logos : forall x c, size (place_logos logos x c) = size c.
Proof.
  induction logos as [|[i w] logos IH]; intros x c; [done|].
  cbn [place_logos]. by rewrite IH.
Qed.

Lemma size_keep_background_back p :
  size (canvas (keep_background_back p)) = size (canvas p).
Proof.
  unfold keep_background_back. destruct (backgroundImageRef p); [|done].
  apply size_sendObjectToBack.
Qed.

Lemma size_createNineBall d p :
  size (canvas (createNineBall d p)) = size (canvas p).
Proof.
  unfold createNineBall. rewrite size_keep_background_back.
  cbn [canvas with_canvas]. by rewrite size_texts_to_front.
Qed.

Lemma size_on_background img p :
  size (canvas (on_background img p)) = size (canvas p).
Proof.
  unfold on_background. cbn [canvas]. destruct (Canvas.add _ _) eqn:E.
  cbn [canvas]. rewrite size_sendObjectToBack.
  by inversion E.
Qed.

Lemma size_on_logos d index url total img p :
  size (canvas (on_logos d index url total img p)) = size (canvas p).
Proof.
  unfold on_logos. destruct (multi_logo d url img) as [o0 w].
  destruct (Canvas.add _ _) as [o c] eqn:E.
  assert (Hc : size c = size (canvas p)) by (by inversion E).
  destruct (Nat.eqb _ total); [|done].
  rewrite size_keep_background_back. cbn [canvas].
  by rewrite size_place_logos.
Qed.

Lemma size_on_logo d img p :
  size (canvas (on_logo d img p)) = size (canvas p).
Proof. unfold on_logo. by rewrite size_keep_background_back. Qed.

Lemma size_on_youtubeLogo d img p :
  size (canvas (on_youtubeLogo d img p)) = size (canvas p).
Proof.
  unfold on_youtubeLogo. destruct (youtube_logo d img) as [o top].
  rewrite size_keep_background_back. cbn [canvas with_canvas].
  by destruct (JS.truthy_bool _).
Qed.

Lemma size_settle d p ev : size (canvas (settle d p ev)) = size (canvas p).
Proof.
  unfold settle. destruct (negb _); [done|].
  destruct ev as [[|index| | |] img|[|index| | |]];
    auto using size_on_background, size_on_logo, size_on_youtubeLogo,
               size_createNineBall.
  destruct (_ !! index); [apply size_on_logos | done].
Qed.

Lemma size_initialize d c : size (canvas (initialize d c)) = size c.
Proof.
  unfold initialize. destruct (_ && _).
  - rewrite size_createNineBall.
    destruct (InitialContent.texts d); [apply size_add_texts | done].
  - destruct (InitialContent.texts d); [apply size_add_texts | done].
Qed.

Lemma size_handleKeyDown e c : size (handleKeyDown e c) = size c.
Proof.
  unfold handleKeyDown. destruct (_ && _); [|done].
  by destruct (Canvas.getActiveObject c).
Qed.

Lemma size_handleDelete c : size (handleDelete c) = size c.
Proof. unfold handleDelete. by destruct (Canvas.getActiveObject c). Qed.

Lemma size_handleAddText t fs ff tc c :
  size (handleAddText t fs ff tc c) = size c.
Proof. by destruct t. Qed.

Lemma size_handleImageUpload file c : size (handleImageUpload file c) = size c.
Proof. by destruct file. Qed.

Lemma size_handleLogoUpload file c : size (handleLogoUpload file c) = size c.
Proof. by destruct file. Qed.

Lemma full_size_on_canvas f e :
  (forall c, size (f c) = size c) -> full_size e -> full_size (on_canvas f e).
Proof.
  intros Hf He c. unfold on_canvas.
  destruct (fabricCanvasRef e) as [c0|] eqn:E; cbn.
  - intros [= <-]. rewrite Hf. by apply He.
  - rewrite E. discriminate.
Qed.

Lemma full_size_step e ev : full_size e -> full_size (step e ev).
Proof.
  intros He. destruct ev; cbn [step].
  - intros c. unfold effect.
    destruct (initialContent e); [destruct (negb _)|]; by intros [= <-].
  - intros c. unfold cleanup. cbn.
    destruct (fabricCanvasRef e) as [c0|] eqn:E; [|discriminate].
    intros [= <-]. exact (He c0 E).
  - intros c. unfold timeout. destruct (timeouts e) as [|d rest]; [apply He|].
    destruct (fabricCanvasRef e) as [c0|] eqn:E; cbn; [|discriminate].
    intros [= <-]. rewrite size_initialize. by apply He.
  - intros c. unfold completion. destruct (passes e !! k) as [[d p]|]; [|apply He].
    destruct (fabricCanvasRef e) as [c0|] eqn:E; [|rewrite E; discriminate].
    cbn. intros [= <-]. rewrite size_settle. by apply He.
  - unfold on_window. destruct (listening e); [|done].
    by apply full_size_on_canvas.
  - unfold on_window. destruct (listening e); [|done].
    apply full_size_on_canvas; [apply size_handleKeyDown | done].
  - apply full_size_on_canvas; [apply size_handleDelete | done].
  - by apply full_size_on_canvas.
  - apply full_size_on_canvas; [apply size_handleAddText | done].
  - apply full_size_on_canvas; [apply size_handleImageUpload | done].
  - apply full_size_on_canvas; [apply size_handleLogoUpload | done].
Qed.

Lemma full_size_steps evs : forall e, full_size e -> full_size (steps e evs).
Proof.
  induction evs as [|ev evs IH]; intros e He; [done|].
  apply IH. by apply full_size_step.
Qed.

End Size.

(** ** Exporting *)

Section Exporting.

Lemma prefix_app s t : String.prefix s (s ++ t)%string = true.
Proof.
  induction s as [|a s IH]; [by destruct t|].
  cbn. by destruct (ascii_dec a a).
Qed.

Lemma includes_prefix s t : JS.includes s (s ++ t)%string = true.
Proof.
  destruct s; cbn; [by destruct t|].
  destruct (ascii_dec a a); [|done]. by rewrite prefix_app.
Qed.

Lemma includes_app s a t :
  JS.includes s t = true -> JS.includes s (a ++ t)%string = true.
Proof.
  intros H. induction a as [|x a IH]; [done|].
  cbn [append JS.includes]. rewrite IH. apply orb_true_r.
Qed.

(** C8: whatever the component has been through - mounts, the callback
    and its loads, uploads, edits, resizes of the display - exporting
    renders the scene from the 1280x720 coordinate
    space with multiplier 1: as PNG for the PNG export, as JPEG of quality
    0.95 for the JPEG export, into a file whose name contains the canvas
    identifier; and the size of the element on screen has no part in the
    result. *)
Theorem export_full_resolution (canvasId : string)
    (initialContent : option InitialContent.t) (evs : list Event)
    (c : Canvas.t) :
  fabricCanvasRef (steps (render canvasId initialContent) evs) = Some c ->
  let png := handleExportPNG canvasId c in
  let jpeg := handleExportJPEG canvasId c in
  (Canvas.url_format (href png) = Canvas.png
   /\ Canvas.url_width (href png) == 1280
   /\ Canvas.url_height (href png) == 720
   /\ Canvas.url_scene (href png) = Canvas._objects c
   /\ JS.includes canvasId (download png) = true)
  /\ (Canvas.url_format (href jpeg) = Canvas.jpeg
      /\ Canvas.url_quality (href jpeg) == 0.95
      /\ Canvas.url_width (href jpeg) == 1280
      /\ Canvas.url_height (href jpeg) == 720
      /\ Canvas.url_scene (href jpeg) = Canvas._objects c
      /\ JS.includes canvasId (download jpeg) = true)
  /\ (forall w h,
        href (handleExportPNG canvasId (Canvas.set_style w h c)) = href png
        /\ href (handleExportJPEG canvasId (Canvas.set_style w h c))
           = href jpeg).
Proof.
  intros Hc.
  assert (Hs : size c = (THUMBNAIL_WIDTH, THUMBNAIL_HEIGHT)).
  { eapply (full_size_steps evs); [|exact Hc]. intros c0. discriminate. }
  injection Hs as Hw Hh. cbn.
  rewrite Hw, Hh. repeat split; try reflexivity.
  all: apply (includes_app _ "thumbnail-"), includes_prefix.
Qed.

End Exporting.

Lemma export_full_resolution_witness :
  let c :=
    handleResize 700
      (handleImageUpload (decoded wide_image)
         (Canvas.new THUMBNAIL_WIDTH THUMBNAIL_HEIGHT "#FFFFE0")) in
  let png := handleExportPNG "canvas-1" c in
  Canvas.url_format (href png) = Canvas.png
  /\ Canvas.url_width (href png) == 1280
  /\ Canvas.url_height (href png) == 720
  /\ length (Canvas.url_scene (href png)) = 1%nat
  /\ download png = "thumbnail-canvas-1.png".
Proof.
  destruct (export_full_resolution "canvas-1" (Some content_tab1)
              [ev_effect; ev_imageUpload (decoded wide_image); ev_resize 700]
              (handleResize 700
                 (handleImageUpload (decoded wide_image)
                    (Canvas.new THUMBNAIL_WIDTH THUMBNAIL_HEIGHT "#FFFFE0")))
              eq_refl) as [(H1 & H2 & H3 & H4 & _) _].
  split; [assumption|]. split; [assumption|]. split; [assumption|].
  split; [by rewrite H4 | reflexivity].
Defined.

(** ** What the handlers preserve *)

Lemma keep_background_back_vars (p : Pass) :
  backgroundImageRef (keep_background_back p) = backgroundImageRef p
  /\ loadedLogos (keep_background_back p) = loadedLogos p
  /\ logoImages (keep_background_back p) = logoImages p.
Proof.
  unfold keep_background_back.
  by destruct (backgroundImageRef p) eqn:E.
Qed.

Ltac destruct_add :=
  cbv zeta;
  match goal with
  | |- context [Canvas.add ?o ?c] => destruct (Canvas.add o c)
  end.

Ltac through_keep_background_back :=
  match goal with
  | |- backgroundImageRef (keep_background_back ?q) <> _ =>
      by destruct (keep_background_back_vars q) as (-> & _)
  end.

Section Invariant.

Implicit Types (c : Canvas.t) (p : Pass) (o bg : FabricObject.t).
Variable initialContent : InitialContent.t.

Lemma pass_inv_background p : pass_inv p -> background_inv p.
Proof.
  intros (_ & _ & H). unfold background_inv.
  destruct (backgroundImageRef p); [|done]. by destruct H as (? & _ & ?).
Qed.

Lemma back_most_lt bg c :
  wf c -> back_most bg c -> (FabricObject.oid bg < Canvas.nextId c)%nat.
Proof.
  intros [_ Hlt] [rest H]. rewrite H in Hlt.
  by apply Forall_cons in Hlt as [? _].
Qed.

Lemma present_array_set {A} (a : list (option A)) : forall i v y,
  y ∈ JS.present (JS.array_set a i v) -> y = v \/ y ∈ JS.present a.
Proof.
  unfold JS.present.
  induction a as [|x a IH]; intros i v y.
  - revert y. induction i as [|i IHi]; intros y; cbn.
    + intros H. apply list_elem_of_singleton in H. by left.
    + exact (IHi y).
  - destruct i as [|i]; cbn.
    + intros H. apply elem_of_cons in H as [->|H]; [by left|].
      right. destruct x; cbn; [by apply list_elem_of_further | done].
    + destruct x as [x|]; cbn.
      * intros H. apply elem_of_cons in H as [->|H].
        -- right. apply list_elem_of_here.
        -- destruct (IH i v y H); [by left|]. right.
           by apply list_elem_of_further.
      * apply IH.
Qed.

Lemma place_logos_nextId logos : forall x c,
  Canvas.nextId (place_logos logos x c) = Canvas.nextId c.
Proof.
  induction logos as [|[i w] logos IH]; intros x c; [done|].
  cbn [place_logos]. by rewrite IH.
Qed.

Lemma wf_place_logos logos : forall x c,
  wf c -> wf (place_logos logos x c).
Proof.
  induction logos as [|[i w] logos IH]; intros x c Hwf; [done|].
  cbn [place_logos]. apply IH. by apply wf_update.
Qed.

Lemma back_most_place_logos bg logos : forall x c,
  FabricObject.oid bg ∉ logos.*1 -> back_most bg c ->
  back_most bg (place_logos logos x c).
Proof.
  induction logos as [|[i w] logos IH]; intros x c Hno Hb; [done|].
  cbn [place_logos]. cbn in Hno. apply not_elem_of_cons in Hno as [Hne Hno].
  apply IH; [done|]. by apply back_most_update.
Qed.

Lemma createNineBall_canvas p :
  wf (canvas p) -> background_inv p ->
  wf (canvas (createNineBall initialContent p))
  /\ Canvas.nextId (canvas (createNineBall initialContent p))
     = S (S (Canvas.nextId (canvas p)))
  /\ background_inv (createNineBall initialContent p).
Proof.
  intros Hwf Hbg. unfold createNineBall.
  set (r := JS.or_num _ 250 / 2).
  set (c1 := snd (Canvas.add (new_Circle r _) (canvas p))).
  set (c2 := snd (Canvas.add (new_Text_9 r _) c1)).
  assert (Hwf2 : wf c2) by (by apply wf_add, wf_add).
  assert (Hinv : background_inv
                   (with_canvas (texts_to_front (Canvas.getObjects c2) c2) p)).
  { unfold background_inv in *. cbn [backgroundImageRef canvas with_canvas].
    destruct (backgroundImageRef p) as [bg|]; [|done].
    destruct Hbg as [Hty Hb]. split; [done|].
    apply back_most_texts_to_front; [done..|].
    by apply back_most_add, back_most_add. }
  rewrite (keep_background_back_id _ Hinv). cbn [canvas with_canvas].
  split; [by apply wf_texts_to_front|]. split; [|exact Hinv].
  by rewrite texts_to_front_nextId.
Qed.

Lemma pass_inv_createNineBall p :
  pass_inv p -> pass_inv (createNineBall initialContent p).
Proof.
  intros Hp. pose proof (pass_inv_background p Hp) as Hbg.
  destruct Hp as (Hwf & Hl & Hb).
  destruct (createNineBall_canvas p Hwf Hbg) as (Hwf' & Hn & Hbg').
  assert (Hli : logoImages (createNineBall initialContent p) = logoImages p).
  { unfold createNineBall. cbv zeta.
    match goal with
    | |- logoImages (keep_background_back ?q) = _ =>
        by destruct (keep_background_back_vars q) as (_ & _ & ->)
    end. }
  assert (Hbi : backgroundImageRef (createNineBall initialContent p)
                = backgroundImageRef p).
  { unfold createNineBall. cbv zeta.
    match goal with
    | |- backgroundImageRef (keep_background_back ?q) = _ =>
        by destruct (keep_background_back_vars q) as (-> & _)
    end. }
  split; [done|]. split.
  - rewrite Hli, Hn. eapply Forall_impl; [exact Hl|]. cbn. intros; lia.
  - unfold background_inv in Hbg'. rewrite Hbi in *. rewrite Hli.
    destruct (backgroundImageRef p); [|done].
    destruct Hb as (? & ? & _). by destruct Hbg'.
Qed.

Lemma sendObjectToBack_nextId o c :
  Canvas.nextId (Canvas.sendObjectToBack o c) = Canvas.nextId c.
Proof.
  unfold Canvas.sendObjectToBack. destruct (Canvas._objects c); [done|].
  by destruct (Canvas.same_object _ o).
Qed.

Lemma pass_inv_on_background loaded p :
  pass_inv p ->
  pass_inv (on_background loaded p)
  /\ backgroundImageRef (on_background loaded p) <> None.
Proof.
  intros (Hwf & Hl & _). unfold on_background.
  set (img := FabricObject.set_pinned _ _ _ _ _).
  pose proof (add_sendObjectToBack img (canvas p) Hwf) as Hobjs.
  destruct (Canvas.add img (canvas p)) as [bg c] eqn:E.
  cbn [fst snd] in Hobjs. split; [|done].
  assert (Hbg : bg = FabricObject.with_oid (Canvas.nextId (canvas p)) img)
    by (by inversion E).
  assert (Hn : Canvas.nextId c = S (Canvas.nextId (canvas p)))
    by (by inversion E).
  destruct Hwf as [Hnd Hlt].
  split; [|split]; cbn [canvas backgroundImageRef logoImages].
  - split.
    + rewrite Hobjs. cbn. apply NoDup_cons. split; [|done].
      intros Hin. apply list_elem_of_fmap in Hin as (y & Hy & Hin).
      rewrite Forall_forall in Hlt. specialize (Hlt y Hin).
      rewrite Hbg in Hy. cbn in Hy. lia.
    + rewrite Hobjs, sendObjectToBack_nextId, Hn. apply Forall_cons. split.
      * rewrite Hbg. cbn. lia.
      * eapply Forall_impl; [exact Hlt|]. cbn. intros; lia.
  - rewrite sendObjectToBack_nextId, Hn.
    eapply Forall_impl; [exact Hl|]. cbn. intros; lia.
  - split; [by rewrite Hbg|]. split; [|by eexists].
    intros Hin. apply list_elem_of_fmap in Hin as (y & Hy & Hin).
    rewrite Forall_forall in Hl. specialize (Hl y Hin).
    rewrite Hbg in Hy. cbn in Hy. lia.
Qed.

(** A handler that only adds objects on top keeps the invariant. *)
Lemma pass_inv_add o p :
  pass_inv p -> pass_inv (with_canvas (snd (Canvas.add o (canvas p))) p).
Proof.
  intros (Hwf & Hl & Hb). split; [|split];
    cbn [canvas backgroundImageRef logoImages with_canvas].
  - by apply wf_add.
  - rewrite add_nextId. eapply Forall_impl; [exact Hl|]. cbn. intros; lia.
  - destruct (backgroundImageRef p); [|done].
    destruct Hb as (? & ? & ?). repeat split; [done..|by apply back_most_add].
Qed.

Lemma pass_inv_keep_background_back p :
  pass_inv p -> keep_background_back p = p.
Proof. intros H. by apply keep_background_back_id, pass_inv_background. Qed.

Lemma pass_inv_on_logo loaded p :
  pass_inv p -> pass_inv (on_logo initialContent loaded p).
Proof.
  intros Hp. unfold on_logo.
  rewrite pass_inv_keep_background_back; by apply pass_inv_add.
Qed.

Lemma pass_inv_on_youtubeLogo loaded p :
  pass_inv p -> pass_inv (on_youtubeLogo initialContent loaded p).
Proof.
  intros Hp. unfold on_youtubeLogo.
  destruct (youtube_logo initialContent loaded) as [img arrowTop].
  pose proof (pass_inv_add img p Hp) as H1.
  destruct (JS.truthy_bool _).
  - pose proof (pass_inv_add (new_Triangle arrowTop) _ H1) as H2.
    cbn [canvas with_canvas] in H2.
    rewrite pass_inv_keep_background_back; exact H2.
  - rewrite pass_inv_keep_background_back; exact H1.
Qed.

Lemma pass_inv_record_logo o w index p :
  pass_inv p ->
  pass_inv (mkPass (snd (Canvas.add o (canvas p))) (backgroundImageRef p)
                   (S (loadedLogos p))
                   (JS.array_set (logoImages p) index
                                 (Canvas.nextId (canvas p), w))).
Proof.
  intros (Hwf & Hl & Hb). split; [|split];
    cbn [canvas backgroundImageRef logoImages].
  - by apply wf_add.
  - rewrite add_nextId. apply Forall_forall. intros y Hy.
    apply present_array_set in Hy as [->|Hy]; [cbn; lia|].
    rewrite Forall_forall in Hl. specialize (Hl y Hy). lia.
  - destruct (backgroundImageRef p) as [bg|]; [|done].
    destruct Hb as (Hty & Hno & Hback). split; [done|].
    split; [|by apply back_most_add].
    intros Hin. apply list_elem_of_fmap in Hin as (y & Hy & Hin).
    apply present_array_set in Hin as [->|Hin].
    + pose proof (back_most_lt _ _ Hwf Hback). cbn in Hy. lia.
    + apply Hno. apply list_elem_of_fmap. by exists y.
Qed.

Lemma pass_inv_place_logos x c (ref : option FabricObject.t) n logos :
  pass_inv (mkPass c ref n logos) ->
  pass_inv (mkPass (place_logos (JS.present logos) x c) ref n logos).
Proof.
  intros (Hwf & Hl & Hb). split; [|split];
    cbn [canvas backgroundImageRef logoImages] in *.
  - by apply wf_place_logos.
  - by rewrite place_logos_nextId.
  - destruct ref as [bg|]; [|done]. destruct Hb as (Hty & Hno & Hback).
    repeat split; [done..|]. by apply back_most_place_logos.
Qed.

Lemma pass_inv_on_logos index url total loaded p :
  pass_inv p -> pass_inv (on_logos initialContent index url total loaded p).
Proof.
  intros Hp. unfold on_logos.
  destruct (multi_logo initialContent url loaded) as [img w].
  pose proof (pass_inv_record_logo img w index p Hp) as H1.
  destruct (Canvas.add img (canvas p)) as [o c] eqn:E.
  assert (Ho : FabricObject.oid o = Canvas.nextId (canvas p))
    by (by inversion E).
  cbn [snd] in H1. rewrite Ho. destruct (Nat.eqb _ total); [|exact H1].
  rewrite pass_inv_keep_background_back; by apply pass_inv_place_logos.
Qed.

Lemma pass_inv_settle p ev :
  pass_inv p -> pass_inv (settle initialContent p ev).
Proof.
  intros Hp. unfold settle. destruct (negb _); [done|].
  destruct ev as [[|index| | |] img|[|index| | |]];
    auto using pass_inv_on_logo, pass_inv_on_youtubeLogo,
               pass_inv_createNineBall.
  - by apply pass_inv_on_background.
  - destruct (_ !! index); [by apply pass_inv_on_logos | done].
Qed.

Lemma pass_inv_initialize c :
  wf c -> pass_inv (initialize initialContent c).
Proof.
  intros Hwf. unfold initialize.
  set (p1 := match InitialContent.texts initialContent with
             | Some texts => _ | None => _ end).
  assert (H1 : pass_inv p1).
  { unfold p1. destruct (InitialContent.texts initialContent) as [texts|].
    - split; [by apply wf_add_texts|]. split; [constructor | exact I].
    - split; [done|]. split; [constructor | exact I]. }
  destruct (_ && _); [by apply pass_inv_createNineBall | done].
Qed.

Lemma pass_inv_run c evs :
  wf c -> pass_inv (run initialContent c evs).
Proof.
  intros Hwf. unfold run.
  generalize (pass_inv_initialize c Hwf).
  generalize (initialize initialContent c).
  induction evs as [|ev evs IH]; intros p Hp; [done|].
  cbn [fold_left]. by apply IH, pass_inv_settle.
Qed.

(** Once loaded, the background image stays recorded. *)
Lemma background_recorded_settle p ev :
  backgroundImageRef p <> None ->
  backgroundImageRef (settle initialContent p ev) <> None.
Proof.
  intros Hp. unfold settle. destruct (negb _); [done|].
  destruct ev as [[|index| | |] img|[|index| | |]]; try done.
  - destruct (_ !! index); [|done]. unfold on_logos.
    destruct (multi_logo _ _ _).
    destruct_add. destruct (Nat.eqb _ _); [|done].
    through_keep_background_back.
  - unfold on_logo. through_keep_background_back.
  - unfold on_youtubeLogo. destruct (youtube_logo _ _).
    through_keep_background_back.
  - unfold createNineBall. cbv zeta. through_keep_background_back.
  - unfold createNineBall. cbv zeta. through_keep_background_back.
Qed.

Lemma records_background_settle p ev :
  records_background p -> records_background (settle initialContent p ev).
Proof.
  intros Hp. unfold settle. destruct (negb _); [done|].
  unfold records_background in *.
  destruct ev as [[|index| | |] img|[|index| | |]]; try done.
  - destruct (_ !! index); [|done]. unfold on_logos.
    destruct (multi_logo _ _ _).
    destruct_add. destruct (Nat.eqb _ _); [|done].
    match goal with
    | |- context [keep_background_back ?q] =>
        by destruct (keep_background_back_vars q) as (-> & _)
    end.
  - unfold on_logo.
    match goal with
    | |- context [keep_background_back ?q] =>
        by destruct (keep_background_back_vars q) as (-> & _)
    end.
  - unfold on_youtubeLogo. destruct (youtube_logo _ _).
    match goal with
    | |- context [keep_background_back ?q] =>
        by destruct (keep_background_back_vars q) as (-> & _)
    end.
  - unfold createNineBall. cbv zeta.
    match goal with
    | |- context [keep_background_back ?q] =>
        by destruct (keep_background_back_vars q) as (-> & _)
    end.
  - unfold createNineBall. cbv zeta.
    match goal with
    | |- context [keep_background_back ?q] =>
        by destruct (keep_background_back_vars q) as (-> & _)
    end.
Qed.

Lemma records_background_run c evs :
  records_background (run initialContent c evs).
Proof.
  unfold run.
  assert (H0 : records_background (initialize initialContent c)).
  { unfold records_background, initialize. destruct (_ && _).
    - unfold createNineBall. cbv zeta.
      match goal with
      | |- context [keep_background_back ?q] =>
          destruct (keep_background_back_vars q) as (-> & _)
      end.
      by destruct (InitialContent.texts initialContent).
    - by destruct (InitialContent.texts initialContent). }
  revert H0. generalize (initialize initialContent c).
  induction evs as [|ev evs IH]; intros p Hp; [done|].
  cbn [fold_left]. by apply IH, records_background_settle.
Qed.

Lemma background_recorded_fold evs : forall p,
  backgroundImageRef p <> None ->
  backgroundImageRef (fold_left (settle initialContent) evs p) <> None.
Proof.
  induction evs as [|ev evs IH]; intros p Hp; [done|].
  cbn [fold_left]. by apply IH, background_recorded_settle.
Qed.

Lemma background_recorded evs : forall p loaded,
  pass_inv p ->
  started initialContent load_background = true ->
  resolved load_background loaded ∈ evs ->
  backgroundImageRef (fold_left (settle initialContent) evs p) <> None.
Proof.
  induction evs as [|ev evs IH]; intros p loaded Hp Hst Hin.
  - by apply elem_of_nil in Hin.
  - cbn [fold_left]. apply elem_of_cons in Hin as [<-|Hin].
    + apply background_recorded_fold. unfold settle. cbn [load_of].
      rewrite Hst. cbn [negb]. by apply pass_inv_on_background.
    + eapply IH; [by apply pass_inv_settle | done | exact Hin].
Qed.

End Invariant.

(** ** The background image stays at the back *)

Section Background.

Variable initialContent : InitialContent.t.

Lemma settles_started evs l :
  settles initialContent evs -> l ∈ load_of <$> evs ->
  started initialContent l = true.
Proof.
  unfold settles, pending. intros Hs Hin. rewrite Hs in Hin.
  by apply list_elem_of_filter in Hin as [? _].
Qed.

(** At every moment after its load has completed, whatever else has
    completed before or after it, the background image is the back-most
    object. *)
Lemma background_at_back c evs loaded :
  wf c ->
  started initialContent load_background = true ->
  resolved load_background loaded ∈ evs ->
  exists bg rest,
    backgroundImageRef (run initialContent c evs) = Some bg
    /\ pinned_background bg
    /\ Canvas._objects (canvas (run initialContent c evs)) = bg :: rest.
Proof.
  intros Hwf Hst Hin.
  pose proof (records_background_run initialContent c evs) as Hpin.
  unfold records_background in Hpin.
  pose proof (pass_inv_run initialContent c evs Hwf) as (_ & _ & Hb).
  pose proof (background_recorded initialContent evs _ loaded
                (pass_inv_initialize initialContent c Hwf) Hst Hin) as Hrec.
  fold (run initialContent c evs) in Hrec.
  destruct (backgroundImageRef (run initialContent c evs)) as [bg|]; [|done].
  destruct Hb as (Hty & _ & rest & Hrest). by exists bg, rest.
Qed.

(** C3: for a descriptor whose background image loads, and for every order
    in which the loads it starts (background, logo, multi-logo, youtube
    logo, nine-ball logo) complete, whether the others succeed or fail,
    the background image is the back-most object of the canvas once all
    have settled. *)
Theorem background_back_most (c : Canvas.t) (evs : list Completion)
    (loaded : LoadedImage) :
  wf c ->
  settles initialContent evs ->
  resolved load_background loaded ∈ evs ->
  exists bg rest,
    backgroundImageRef (run initialContent c evs) = Some bg
    /\ pinned_background bg
    /\ Canvas._objects (canvas (run initialContent c evs)) = bg :: rest.
Proof.
  intros Hwf Hs Hin. apply (background_at_back c evs loaded); [done| |done].
  apply (settles_started evs); [done|].
  apply list_elem_of_fmap. by exists (resolved load_background loaded).
Qed.

End Background.

Lemma background_back_most_witness :
  exists bg rest,
    backgroundImageRef (run content_tab6 blank_canvas schedule_tab6) = Some bg
    /\ pinned_background bg
    /\ Canvas._objects (canvas (run content_tab6 blank_canvas schedule_tab6))
       = bg :: rest.
Proof.
  apply (background_back_most content_tab6 blank_canvas schedule_tab6
           pattern_image).
  - apply wf_new.
  - unfold settles. apply (bool_decide_unpack _). vm_compute. exact I.
  - do 2 apply list_elem_of_further. apply list_elem_of_here.
Defined.

(** ** The nine ball lies between the background and the texts *)

Section NineBallStacking.

Variable initialContent : InitialContent.t.

Lemma ballTop_amended :
  ballTop_of initialContent (nineBall_radius initialContent)
  == amended_ballTop initialContent.
Proof.
  unfold ballTop_of, amended_ballTop.
  destruct (InitialContent.logoTop initialContent) as [t|].
  - cbv zeta. ring.
  - reflexivity.
Qed.

(** Where the documentation's formula applies to a multiplier that is not
    0, the nine ball has the centre it computes. *)
Lemma amended_ballTop_documented v :
  documented_ballTop initialContent = Some v ->
  nonzero_if_supplied (InitialContent.logoSizeMultiplier initialContent) ->
  amended_ballTop initialContent == v.
Proof.
  unfold documented_ballTop, amended_ballTop.
  destruct (InitialContent.logoTop initialContent) as [t|]; [|discriminate].
  destruct (InitialContent.logoSizeMultiplier initialContent) as [m|];
    [|discriminate].
  intros [= <-] Hm. by rewrite or_num_supplied.
Qed.

(** C7 (amended): after the nine-ball step the circle and the numeral 9
    lie, in this order, in front of every object that is no text object,
    the background image (the back-most of them) included, and behind
    every text object.  Both are positioned by their centre, on x = 620
    and on one height: the configured logoTop plus the estimated logo
    height (200 x logoSizeMultiplier, the multiplier counting as 1 when
    absent or 0) plus the paddings (5.25 + 15 + 10) plus the ball radius
    (half of nineBallSize, of 250 when that is absent or 0) when a logoTop
    is configured, and 360 when none is. *)
Theorem nineBall_stacked (p : Pass) :
  pass_inv p ->
  exists back front ball numeral,
    Canvas._objects (canvas (createNineBall initialContent p))
    = back ++ [ball; numeral] ++ front
    /\ Forall (fun o => FabricObject.is_text_object o = true) front
    /\ Forall (fun o => FabricObject.is_text_object o = false) back
    /\ (forall bg, backgroundImageRef p = Some bg ->
                   exists back', back = bg :: back')
    /\ (FabricObject.type ball = circle
        /\ is_num (FabricObject.radius ball)
                  (JS.or_num (InitialContent.nineBallSize initialContent) 250
                   / 2)
        /\ FabricObject.originX ball = Some o_center
        /\ FabricObject.originY ball = Some o_center
        /\ is_num (FabricObject.left ball) 620
        /\ is_num (FabricObject.top ball) (amended_ballTop initialContent))
    /\ (FabricObject.type numeral = text
        /\ FabricObject.text numeral = Some "9"%string
        /\ FabricObject.originX numeral = Some o_center
        /\ FabricObject.originY numeral = Some o_center
        /\ is_num (FabricObject.left numeral) 620
        /\ is_num (FabricObject.top numeral) (amended_ballTop initialContent)).
Proof.
  intros Hp. pose proof (pass_inv_background p Hp) as Hbg.
  destruct Hp as (Hwf & _ & _).
  exists (other_objects (Canvas._objects (canvas p))),
         (text_objects (Canvas._objects (canvas p))),
         (nineBall_circle initialContent (Canvas.nextId (canvas p))),
         (nineBall_numeral initialContent (Canvas.nextId (canvas p))).
  split; [by apply createNineBall_objects|].
  split; [|split; [|split; [|split]]].
  - unfold text_objects. apply Forall_forall. intros o Ho.
    by apply list_elem_of_filter in Ho as [? _].
  - unfold other_objects. apply Forall_forall. intros o Ho.
    apply list_elem_of_filter in Ho as [Ho _].
    by destruct (FabricObject.is_text_object o).
  - intros bg Hbgr. unfold background_inv in Hbg. rewrite Hbgr in Hbg.
    destruct Hbg as [Hty [rest Hrest]]. rewrite Hrest.
    unfold other_objects. rewrite filter_cons_True.
    + by eexists.
    + unfold FabricObject.is_text_object. by rewrite Hty.
  - split; [reflexivity|]. split; [apply Qeq_refl|].
    split; [reflexivity|]. split; [reflexivity|].
    split; [reflexivity|]. apply ballTop_amended.
  - split; [reflexivity|]. split; [reflexivity|].
    split; [reflexivity|]. split; [reflexivity|].
    split; [reflexivity|]. apply ballTop_amended.
Qed.

End NineBallStacking.

Lemma nineBall_stacked_witness :
  let p := run content_tab7 blank_canvas [resolved load_logo square_200] in
  exists back front ball numeral,
    Canvas._objects (canvas (createNineBall content_tab7 p))
    = back ++ [ball; numeral] ++ front
    /\ Forall (fun o => FabricObject.is_text_object o = true) front
    /\ Forall (fun o => FabricObject.is_text_object o = false) back
    /\ (forall bg, backgroundImageRef p = Some bg ->
                   exists back', back = bg :: back')
    /\ (FabricObject.type ball = circle
        /\ is_num (FabricObject.radius ball)
                  (JS.or_num (InitialContent.nineBallSize content_tab7) 250
                   / 2)
        /\ FabricObject.originX ball = Some o_center
        /\ FabricObject.originY ball = Some o_center
        /\ is_num (FabricObject.left ball) 620
        /\ is_num (FabricObject.top ball) (amended_ballTop content_tab7))
    /\ (FabricObject.type numeral = text
        /\ FabricObject.text numeral = Some "9"%string
        /\ FabricObject.originX numeral = Some o_center
        /\ FabricObject.originY numeral = Some o_center
        /\ is_num (FabricObject.left numeral) 620
        /\ is_num (FabricObject.top numeral) (amended_ballTop content_tab7)).
Proof.
  apply nineBall_stacked. apply pass_inv_run, wf_new.
Defined.

(** C7 as stated fails: under a logoTop of 50, with a size multiplier of
    0 and the default radius 125, the documented centre is
    50 + 200 x 0 + 30.25 + 125 = 205.25; the multiplier counts as 1 and
    the ball is centred at 50 + 200 + 30.25 + 125 = 405.25. *)
Lemma nineBall_multiplier0_counterexample :
  JS.truthy_bool (InitialContent.showNineBall content_nineBall_multiplier0)
  = true
  /\ InitialContent.logoTop content_nineBall_multiplier0 = Some 50
  /\ InitialContent.logoSizeMultiplier content_nineBall_multiplier0 = Some 0
  /\ exists ball numeral v,
       Canvas._objects
         (canvas (initialize content_nineBall_multiplier0 blank_canvas))
       = [ball; numeral]
       /\ FabricObject.type ball = circle
       /\ FabricObject.originY ball = Some o_center
       /\ is_num (FabricObject.radius ball) 125
       /\ documented_ballTop content_nineBall_multiplier0 = Some v
       /\ v == 50 + 200 * 0 + (5.25 + 15 + 10) + 125
       /\ is_num (FabricObject.top ball) (50 + 200 + (5.25 + 15 + 10) + 125)
       /\ ~ is_num (FabricObject.top ball) v.
Proof.
  split; [reflexivity|]. split; [reflexivity|]. split; [reflexivity|].
  do 3 eexists. split; [reflexivity|]. split; [reflexivity|].
  split; [reflexivity|]. split; [vm_compute; reflexivity|].
  split; [reflexivity|]. split; [vm_compute; reflexivity|].
  split; [vm_compute; reflexivity|].
  intros H. vm_compute in H. discriminate H.
Qed.

(** ** Arrays with holes *)

Section Arrays.

Context {A : Type}.
Implicit Types (a : list (option A)) (v : A).

Lemma get_array_set i : forall a v j,
  JS.get (JS.array_set a i v) j = if decide (j = i) then Some v else JS.get a j.
Proof.
  induction i as [|i IH]; intros a v j.
  - destruct a as [|x a], j as [|j]; reflexivity.
  - destruct a as [|x a], j as [|j]; cbn [JS.array_set]; try reflexivity.
    + change (JS.get (None :: JS.array_set [] i v) (S j))
        with (JS.get (JS.array_set [] i v) j).
      rewrite IH. by repeat case_decide; try lia.
    + change (JS.get (x :: JS.array_set a i v) (S j))
        with (JS.get (JS.array_set a i v) j).
      rewrite IH. by repeat case_decide; try lia.
Qed.

Lemma get_present a : forall j v, JS.get a j = Some v -> v ∈ JS.present a.
Proof.
  unfold JS.present. induction a as [|x a IH]; intros j v.
  - by destruct j.
  - destruct j as [|j].
    + unfold JS.get. cbn. destruct x as [x|]; [|done].
      intros [= ->]. cbn. apply list_elem_of_here.
    + change (JS.get (x :: a) (S j)) with (JS.get a j). intros H.
      destruct x; cbn; [apply list_elem_of_further|]; by eapply IH.
Qed.

Lemma present_no_entry a :
  (forall j, JS.get a j = None) -> JS.present a = [].
Proof.
  unfold JS.present. induction a as [|x a IH]; intros H; [done|].
  pose proof (H 0%nat) as H0. unfold JS.get in H0. cbn in H0.
  destruct x; [done|]. cbn. apply IH. intros j. exact (H (S j)).
Qed.

(** An array whose entries [0 .. k-1] are all present, and no other. *)
Lemma present_tabulate k : forall a (e : nat -> A),
  (forall j, (j < k)%nat -> JS.get a j = Some (e j)) ->
  (forall j, (k <= j)%nat -> JS.get a j = None) ->
  JS.present a = e <$> seq 0 k.
Proof.
  induction k as [|k IH]; intros a e Hin Hout.
  - apply present_no_entry. intros j. apply Hout. lia.
  - destruct a as [|x a].
    + specialize (Hin 0%nat ltac:(lia)). by destruct k.
    + pose proof (Hin 0%nat ltac:(lia)) as H0. unfold JS.get in H0. cbn in H0.
      destruct x as [x|]; [|done]. injection H0 as ->.
      unfold JS.present. cbn. fold (JS.present a). f_equal.
      rewrite <- fmap_S_seq, <- list_fmap_compose.
      apply IH.
      * intros j Hj. exact (Hin (S j) ltac:(lia)).
      * intros j Hj. exact (Hout (S j) ltac:(lia)).
Qed.

End Arrays.

(** ** Laying the logos out *)

Section Layout.

Implicit Types (c : Canvas.t) (o : FabricObject.t) (logos : list (nat * Q)).

Lemma update_elem i f o c :
  o ∈ Canvas._objects c -> FabricObject.oid o = i ->
  f o ∈ Canvas._objects (Canvas.update i f c).
Proof.
  intros Hin Ho. cbn. apply list_elem_of_fmap. exists o. split; [|done].
  by rewrite Ho, Nat.eqb_refl.
Qed.

Lemma update_other i f o c :
  o ∈ Canvas._objects c -> FabricObject.oid o <> i ->
  o ∈ Canvas._objects (Canvas.update i f c).
Proof.
  intros Hin Ho. cbn. apply list_elem_of_fmap. exists o. split; [|done].
  by destruct (Nat.eqb_spec (FabricObject.oid o) i).
Qed.

Lemma place_logos_untouched logos : forall x c o,
  o ∈ Canvas._objects c -> FabricObject.oid o ∉ logos.*1 ->
  o ∈ Canvas._objects (place_logos logos x c).
Proof.
  induction logos as [|[i w] logos IH]; intros x c o Hin Hno; [done|].
  cbn [place_logos]. cbn in Hno. apply not_elem_of_cons in Hno as [Hne Hno].
  apply IH; [|done]. by apply update_other.
Qed.

(** Each logo of the row ends centred half its width right of the value
    [currentX] has when the loop reaches it. *)
Lemma place_logos_laid_out logos : forall x c j id w o,
  NoDup logos.*1 ->
  logos !! j = Some (id, w) ->
  FabricObject.with_oid id o ∈ Canvas._objects c ->
  laid_out o id (currentX_at logos.*2 x j + w / 2)
  ∈ Canvas._objects (place_logos logos x c).
Proof.
  induction logos as [|[i0 w0] logos IH]; intros x c j id w o Hnd Hj Hin;
    [done|].
  cbn in Hnd. apply NoDup_cons in Hnd as [Hi0 Hnd]. cbn [place_logos].
  destruct j as [|j].
  - injection Hj as -> ->. cbn [currentX_at fmap list_fmap].
    apply place_logos_untouched; [|done].
    by apply (update_elem _ _ (FabricObject.with_oid id o)).
  - cbn in Hj. cbn [fmap list_fmap snd currentX_at].
    apply IH; [done..|]. apply update_other; [done|]. cbn.
    intros ->. apply Hi0. apply list_elem_of_fmap. exists (i0, w).
    split; [done|]. by eapply list_elem_of_lookup_2.
Qed.

Lemma currentX_at_sum widths : forall x j,
  currentX_at widths x j
  == x + Qsum (take j widths)
     + inject_Z (Z.of_nat (length (take j widths))) * logoSpacing.
Proof.
  induction widths as [|w widths IH]; intros x j.
  - destruct j; cbn; ring.
  - destruct j as [|j]; [cbn; ring|].
    cbn [currentX_at take Qsum foldr length]. rewrite IH.
    fold (Qsum (take j widths)).
    rewrite Nat2Z.inj_succ, <- Z.add_1_r, inject_Z_plus. ring.
Qed.

Lemma fold_widths_Qsum logos : forall acc,
  fold_left (fun sum logo => sum + logo.2) logos acc == acc + Qsum logos.*2.
Proof.
  induction logos as [|[i w] logos IH]; intros acc; cbn.
  - ring.
  - rewrite IH. fold (Qsum logos.*2). ring.
Qed.

Lemma sum_widths_Qsum logos : sum_widths logos == Qsum logos.*2.
Proof. unfold sum_widths. rewrite fold_widths_Qsum. ring. Qed.

End Layout.

(** ** The multi-logo row *)

Section MultiLogo.

Variable initialContent : InitialContent.t.
Variable image : nat -> LoadedImage.

Implicit Types (p : Pass) (o : FabricObject.t) (ev : Completion).

Local Abbreviation k := (length (logoUrls_of initialContent)).

Lemma on_logos_loading index url loaded p :
  S (loadedLogos p) <> k ->
  on_logos initialContent index url k loaded p
  = mkPass
      (snd (Canvas.add (fst (multi_logo initialContent url loaded)) (canvas p)))
      (backgroundImageRef p) (S (loadedLogos p))
      (JS.array_set (logoImages p) index
         (Canvas.nextId (canvas p), snd (multi_logo initialContent url loaded))).
Proof.
  intros Hne. unfold on_logos.
  destruct (multi_logo initialContent url loaded) as [img w].
  cbn [Canvas.add fst snd FabricObject.oid FabricObject.with_oid].
  by destruct (Nat.eqb_spec (S (loadedLogos p)) k).
Qed.

Lemma on_logos_final index url loaded p :
  S (loadedLogos p) = k -> pass_inv p ->
  let img := fst (multi_logo initialContent url loaded) in
  let logos :=
    JS.array_set (logoImages p) index
      (Canvas.nextId (canvas p), snd (multi_logo initialContent url loaded)) in
  on_logos initialContent index url k loaded p
  = mkPass
      (place_logos (JS.present logos)
         ((THUMBNAIL_WIDTH
           - (sum_widths (JS.present logos)
              + (inject_Z (Z.of_nat k) - 1) * logoSpacing)) / 2 - 20)
         (snd (Canvas.add img (canvas p))))
      (backgroundImageRef p) (S (loadedLogos p)) logos.
Proof.
  intros He Hp. cbv zeta. unfold on_logos.
  pose proof (pass_inv_record_logo
                (fst (multi_logo initialContent url loaded))
                (snd (multi_logo initialContent url loaded)) index p Hp) as H1.
  destruct (multi_logo initialContent url loaded) as [img w].
  cbn [Canvas.add fst snd FabricObject.oid FabricObject.with_oid] in *.
  rewrite He, Nat.eqb_refl.
  rewrite pass_inv_keep_background_back; [done|].
  rewrite <- He. by apply pass_inv_place_logos.
Qed.

(** Apart from the layout itself, no handler takes an object off the
    canvas or changes it. *)
Lemma settle_persist ev p o :
  pass_inv p ->
  (forall i loaded, ev = resolved (load_logos i) loaded ->
                    S (loadedLogos p) <> k) ->
  o ∈ Canvas._objects (canvas p) ->
  o ∈ Canvas._objects (canvas (settle initialContent p ev)).
Proof.
  intros Hp Hnf Hin. pose proof (pass_inv_background p Hp) as Hbg.
  pose proof Hp as (Hwf & _ & _).
  unfold settle. destruct (negb _); [done|].
  assert (Hnine : o ∈ Canvas._objects (canvas (createNineBall initialContent p))).
  { rewrite createNineBall_objects by done.
    rewrite <- (text_other_perm (Canvas._objects (canvas p))) in Hin.
    apply elem_of_app in Hin as [Hin|Hin]; apply elem_of_app; [by left|].
    right. by do 2 apply list_elem_of_further. }
  destruct ev as [[|index| | |] img|[|index| | |]]; try done.
  - unfold on_background. cbv zeta.
    match goal with
    | |- context [Canvas.add ?x ?c] =>
        pose proof (add_sendObjectToBack x c Hwf) as Hobjs;
        destruct (Canvas.add x c)
    end.
    cbn [canvas fst snd] in *. rewrite Hobjs. by apply list_elem_of_further.
  - destruct (_ !! index) as [url|]; [|done].
    rewrite on_logos_loading by (by eapply Hnf). cbn [canvas].
    rewrite add_objects. apply elem_of_app. by left.
  - rewrite on_logo_objects by done. apply elem_of_app. by left.
  - unfold on_youtubeLogo. destruct (youtube_logo _ _) as [yt arrowTop].
    rewrite pass_inv_keep_background_back.
    + cbn [canvas with_canvas]. destruct (JS.truthy_bool _);
        rewrite ?add_objects; repeat (apply elem_of_app; left); done.
    + destruct (JS.truthy_bool _).
      * apply (pass_inv_add (new_Triangle arrowTop)
                 (with_canvas (snd (Canvas.add yt (canvas p))) p)).
        by apply pass_inv_add.
      * by apply pass_inv_add.
Qed.

(** The handlers of the other loads leave the counters of the row alone. *)
Lemma settle_row_vars ev p :
  (forall i loaded, ev <> resolved (load_logos i) loaded) ->
  loadedLogos (settle initialContent p ev) = loadedLogos p
  /\ logoImages (settle initialContent p ev) = logoImages p.
Proof.
  intros Hne. unfold settle. destruct (negb _); [done|].
  destruct ev as [[|index| | |] img|[|index| | |]]; try done.
  - by destruct (Hne index img).
  - unfold on_logo.
    match goal with
    | |- context [keep_background_back ?q] =>
        by destruct (keep_background_back_vars q) as (_ & -> & ->)
    end.
  - unfold on_youtubeLogo. destruct (youtube_logo _ _).
    match goal with
    | |- context [keep_background_back ?q] =>
        by destruct (keep_background_back_vars q) as (_ & -> & ->)
    end.
  - unfold createNineBall. cbv zeta.
    match goal with
    | |- context [keep_background_back ?q] =>
        by destruct (keep_background_back_vars q) as (_ & -> & ->)
    end.
  - unfold createNineBall. cbv zeta.
    match goal with
    | |- context [keep_background_back ?q] =>
        by destruct (keep_background_back_vars q) as (_ & -> & ->)
    end.
Qed.

Lemma started_logos i :
  (i < k)%nat ->
  started initialContent (load_logos i) = true
  /\ logoUrls_of initialContent !! i = Some (logo_url initialContent i).
Proof.
  intros Hi. split; [by apply Nat.ltb_lt|].
  unfold logo_url. destruct (lookup_lt_is_Some_2 _ _ Hi) as [u ->]. done.
Qed.

Lemma settle_logos i p :
  (i < k)%nat ->
  settle initialContent p (resolved (load_logos i) (image i))
  = on_logos initialContent i (logo_url initialContent i) k (image i) p.
Proof.
  intros Hi. destruct (started_logos i Hi) as [Hst Hurl].
  unfold settle. cbn [load_of]. by rewrite Hst, Hurl.
Qed.

Lemma loadedLogos_settle ev p :
  (k <= loadedLogos p)%nat ->
  (k <= loadedLogos (settle initialContent p ev))%nat.
Proof.
  intros Hk. destruct ev as [[|index| | |] img|l].
  2: { unfold settle. destruct (negb _); [done|].
       destruct (_ !! index); [|done].
       rewrite on_logos_loading by lia. cbn. lia. }
  all: match goal with
       | |- context [settle _ _ ?ev] =>
           destruct (settle_row_vars ev p) as [-> _]; [by intros|done]
       end.
Qed.

(** Once laid out, the row stays as it is. *)
Lemma row_done_settle ev p :
  row_done initialContent image p ->
  row_done initialContent image (settle initialContent p ev).
Proof.
  intros (Hk & Hp & ids & x0 & Hx & Hrow).
  split; [by apply loadedLogos_settle|]. split; [by apply pass_inv_settle|].
  exists ids, x0. split; [done|]. intros i Hi.
  apply settle_persist; [done| |by apply Hrow]. intros; lia.
Qed.

Lemma row_done_fold evs : forall p,
  row_done initialContent image p ->
  row_done initialContent image (fold_left (settle initialContent) evs p).
Proof.
  induction evs as [|ev evs IH]; intros p Hp; [done|].
  cbn [fold_left]. by apply IH, row_done_settle.
Qed.

Lemma row_loading_other done ids ev p :
  row_loading initialContent image done ids p ->
  (length done < k)%nat ->
  (forall i loaded, ev <> resolved (load_logos i) loaded) ->
  row_loading initialContent image done ids (settle initialContent p ev).
Proof.
  intros (Hp & Hn & Hnd & Hlt & Hget & Hids & Hobj) Hk Hne.
  destruct (settle_row_vars ev p Hne) as [Hl Ha].
  split; [by apply pass_inv_settle|]. rewrite Hl, Ha.
  repeat split; try done.
  intros i Hi. apply settle_persist; [done| |by apply Hobj].
  intros j loaded ->. by destruct (Hne j loaded).
Qed.

(** The logo [i], not loaded yet, completes. *)
Section LogoCompletes.

Variables (done : list nat) (ids : nat -> nat) (p : Pass) (i : nat).
Hypothesis Hrow : row_loading initialContent image done ids p.
Hypothesis Hfresh : i ∉ done.
Hypothesis Hi : (i < k)%nat.

Let ids' : nat -> nat :=
  fun j => if decide (j = i) then Canvas.nextId (canvas p) else ids j.

Let c' : Canvas.t :=
  snd (Canvas.add (row_logo initialContent image i) (canvas p)).

Let logos' : list (option (nat * Q)) :=
  JS.array_set (logoImages p) i
    (Canvas.nextId (canvas p), row_width initialContent image i).

Lemma recorded_lt j :
  j ∈ done -> (ids j < Canvas.nextId (canvas p))%nat.
Proof.
  destruct Hrow as ((_ & Hl & _) & _ & _ & _ & Hget & _). intros Hj.
  specialize (Hget j). rewrite decide_True in Hget by done.
  apply get_present in Hget. rewrite Forall_forall in Hl.
  exact (Hl _ Hget).
Qed.

Lemma logos'_get j :
  JS.get logos' j
  = if decide (j ∈ done ++ [i])
    then Some (ids' j, row_width initialContent image j) else None.
Proof.
  destruct Hrow as (_ & _ & _ & _ & Hget & _).
  unfold logos', ids'. rewrite get_array_set, Hget.
  destruct (decide (j = i)) as [->|Hne].
  - rewrite decide_True; [done|]. apply elem_of_app. right.
    apply list_elem_of_here.
  - destruct (decide (j ∈ done)) as [Hj|Hj].
    + rewrite decide_True; [done|]. apply elem_of_app. by left.
    + rewrite decide_False; [done|]. intros H.
      apply elem_of_app in H as [H|H]; [done|].
      by apply list_elem_of_singleton in H.
Qed.

Lemma ids'_NoDup : NoDup (ids' <$> done ++ [i]).
Proof.
  destruct Hrow as (_ & _ & _ & _ & _ & Hids & _).
  rewrite fmap_app. apply NoDup_app. split; [|split].
  - erewrite list_fmap_ext; [exact Hids|]. intros n j Hj. unfold ids'.
    rewrite decide_False; [done|]. intros E. apply Hfresh. rewrite <- E.
    by apply list_elem_of_lookup_2 in Hj.
  - intros n Hn Hin. cbn in Hin. apply list_elem_of_singleton in Hin.
    apply list_elem_of_fmap in Hn as (j & -> & Hj).
    unfold ids' in Hin.
    destruct (decide (i = i)) as [_|]; [|done].
    destruct (decide (j = i)) as [E|_]; [apply Hfresh; by rewrite <- E|].
    pose proof (recorded_lt j Hj). lia.
  - cbn. apply NoDup_singleton.
Qed.

Lemma objects' j :
  j ∈ done ++ [i] ->
  FabricObject.with_oid (ids' j) (row_logo initialContent image j)
  ∈ Canvas._objects c'.
Proof.
  destruct Hrow as (_ & _ & _ & _ & _ & _ & Hobj).
  intros Hj. unfold c', ids'. rewrite add_objects.
  apply elem_of_app in Hj as [Hj|Hj]; apply elem_of_app.
  - left. rewrite decide_False by (intros E; apply Hfresh; by rewrite <- E).
    by apply Hobj.
  - right. apply list_elem_of_singleton in Hj as ->.
    rewrite decide_True by done. apply list_elem_of_here.
Qed.

Lemma row_loading_logo :
  S (length done) <> k ->
  row_loading initialContent image (done ++ [i]) ids'
    (settle initialContent p (resolved (load_logos i) (image i))).
Proof.
  intros Hne. pose proof Hrow as (Hp & Hn & Hnd & Hlt & _).
  split; [by apply pass_inv_settle|].
  rewrite settle_logos by done. rewrite on_logos_loading by (by rewrite Hn).
  cbn [loadedLogos logoImages canvas]. split; [|split; [|split; [|split; [|split]]]].
  - rewrite length_app, Hn. cbn. lia.
  - apply NoDup_app. split; [done|]. split; [|apply NoDup_singleton].
    intros j Hj Hin. apply list_elem_of_singleton in Hin. by subst.
  - intros j Hj. apply elem_of_app in Hj as [Hj|Hj]; [by apply Hlt|].
    by apply list_elem_of_singleton in Hj as ->.
  - exact logos'_get.
  - exact ids'_NoDup.
  - exact objects'.
Qed.

(** With as many distinct indices below [k] as there are, none is
    missing. *)
Lemma done_all : S (length done) = k -> done ++ [i] ≡ₚ seq 0 k.
Proof.
  intros Hk. destruct Hrow as (_ & _ & Hnd & Hlt & _).
  apply submseteq_length_Permutation.
  - apply NoDup_submseteq.
    + apply NoDup_app. split; [done|]. split; [|apply NoDup_singleton].
      intros m Hm Hin. apply list_elem_of_singleton in Hin. by subst.
    + intros m Hm. apply elem_of_seq.
      apply elem_of_app in Hm as [Hm|Hm]; [specialize (Hlt m Hm); lia|].
      apply list_elem_of_singleton in Hm as ->. lia.
  - rewrite length_seq, length_app. cbn. lia.
Qed.

Lemma all_loaded j :
  S (length done) = k -> (j < k)%nat -> j ∈ done ++ [i].
Proof.
  intros Hk Hj. rewrite (done_all Hk). apply elem_of_seq. lia.
Qed.

Lemma logos'_present :
  S (length done) = k ->
  JS.present logos'
  = (fun j => (ids' j, row_width initialContent image j)) <$> seq 0 k.
Proof.
  intros Hk. destruct Hrow as (_ & _ & _ & Hlt & _).
  apply present_tabulate.
  - intros j Hj. rewrite logos'_get. by rewrite decide_True by by apply all_loaded.
  - intros j Hj. rewrite logos'_get. rewrite decide_False; [done|].
    intros H. apply elem_of_app in H as [H|H]; [specialize (Hlt j H); lia|].
    apply list_elem_of_singleton in H. lia.
Qed.

Lemma row_done_logo :
  S (length done) = k ->
  row_done initialContent image
    (settle initialContent p (resolved (load_logos i) (image i))).
Proof.
  intros Hk. pose proof Hrow as (Hp & Hn & Hnd & Hlt & _).
  split; [|split; [by apply pass_inv_settle|]].
  - rewrite settle_logos by done.
    rewrite on_logos_final by (by rewrite ?Hn). cbn. lia.
  - rewrite settle_logos by done.
    rewrite on_logos_final by (by rewrite ?Hn).
    fold (row_logo initialContent image i) (row_width initialContent image i).
    fold c' logos'. cbn [canvas].
    assert (H2 : (JS.present logos').*2 = row_widths initialContent image).
    { rewrite logos'_present by done. unfold row_widths.
      by rewrite <- list_fmap_compose. }
    exists ids'. eexists. split; [|intros j Hj].
    2: { rewrite <- H2. apply place_logos_laid_out.
         - rewrite logos'_present by done. rewrite <- list_fmap_compose.
           erewrite list_fmap_ext; [|intros ? ? ?; reflexivity].
           change (NoDup (ids' <$> seq 0 k)). rewrite <- (done_all Hk).
           exact ids'_NoDup.
         - rewrite logos'_present by done. rewrite list_lookup_fmap.
           by rewrite lookup_seq_lt.
         - by apply objects', all_loaded. }
    rewrite sum_widths_Qsum, H2. unfold total_width, row_widths.
    by rewrite length_fmap, length_seq.
Qed.

End LogoCompletes.

Lemma row_completes evs : forall done ids p,
  row_loading initialContent image done ids p ->
  (length done < k)%nat ->
  to_come initialContent image done evs ->
  row_done initialContent image (fold_left (settle initialContent) evs p).
Proof.
  induction evs as [|ev evs IH]; intros done ids p Hrow Hlen (Hnd & Hev & Hall).
  - exfalso. destruct Hrow as (_ & _ & Hdone & _).
    assert (Hsub : seq 0 k ⊆+ done).
    { apply NoDup_submseteq; [apply NoDup_seq|]. intros i Hi.
      apply elem_of_seq in Hi. destruct (Hall i) as [H|H]; [lia|done|].
      by apply elem_of_nil in H. }
    apply submseteq_length in Hsub. rewrite length_seq in Hsub. lia.
  - cbn [fold_left]. cbn in Hnd. apply NoDup_cons in Hnd as [Hhd Hnd].
    destruct (load_of ev) as [|i| | |] eqn:El.
    2: { destruct (Hev ev i) as (Hfresh & Hi & ->);
           [apply list_elem_of_here | done |].
         destruct (decide (S (length done) = k)) as [Hk|Hk].
         - by apply row_done_fold, (row_done_logo done ids).
         - eapply IH.
           + by apply (row_loading_logo done ids).
           + rewrite length_app. cbn. lia.
           + split; [done|]. split.
             * intros ev' j Hin Hl.
               destruct (Hev ev' j) as (Hj & Hjk & ->);
                 [by apply list_elem_of_further | done |].
               split; [|done]. intros H.
               apply elem_of_app in H as [H|H]; [done|].
               apply list_elem_of_singleton in H as ->.
               apply Hhd. apply list_elem_of_fmap.
               by exists (resolved (load_logos i) (image i)).
             * intros j Hj. destruct (Hall j Hj) as [H|H].
               -- left. apply elem_of_app. by left.
               -- apply elem_of_cons in H as [H|H]; [|by right].
                  left. apply elem_of_app. right. injection H as ->.
                  apply list_elem_of_here. }
    all: eapply IH;
      [ apply row_loading_other; [done..|];
        intros ? ? ->; discriminate
      | done
      | split; [done|]; split;
        [ intros ev' j Hin Hl; apply Hev; [by apply list_elem_of_further|done]
        | intros j Hj; destruct (Hall j Hj) as [H|H]; [by left|];
          apply elem_of_cons in H as [H|H]; [|by right];
          rewrite <- H in El; discriminate ] ].
Qed.

Lemma initialize_row_vars c :
  loadedLogos (initialize initialContent c) = 0%nat
  /\ logoImages (initialize initialContent c) = [].
Proof.
  unfold initialize. destruct (_ && _).
  - unfold createNineBall. cbv zeta.
    match goal with
    | |- context [keep_background_back ?q] =>
        destruct (keep_background_back_vars q) as (_ & -> & ->)
    end.
    by destruct (InitialContent.texts initialContent).
  - by destruct (InitialContent.texts initialContent).
Qed.

Lemma row_loading_initialize c :
  wf c ->
  row_loading initialContent image [] (fun _ => 0%nat)
              (initialize initialContent c).
Proof.
  intros Hwf. destruct (initialize_row_vars c) as [Hl Ha].
  split; [by apply pass_inv_initialize|]. rewrite Hl, Ha.
  split; [done|]. split; [constructor|]. split.
  { intros i Hi. by apply elem_of_nil in Hi. }
  split; [intros i; by destruct i|]. split; [constructor|].
  intros i Hi. by apply elem_of_nil in Hi.
Qed.

Lemma pending_NoDup : NoDup (pending initialContent).
Proof.
  unfold pending. apply NoDup_filter.
  apply NoDup_cons. split.
  - intros H. apply elem_of_app in H as [H|H].
    + apply list_elem_of_fmap in H as (? & ? & _). discriminate.
    + repeat (apply elem_of_cons in H as [H|H]; [discriminate|]).
      by apply elem_of_nil in H.
  - apply NoDup_app. split; [|split].
    + assert (Hinj : Inj (=) (=) load_logos) by (intros ? ? H; by injection H).
      apply (NoDup_fmap_2 load_logos), NoDup_seq.
    + intros l Hl H. apply list_elem_of_fmap in Hl as (? & -> & _).
      repeat (apply elem_of_cons in H as [H|H]; [discriminate|]).
      by apply elem_of_nil in H.
    + repeat (apply NoDup_cons; split;
              [intros H;
               repeat (apply elem_of_cons in H as [H|H]; [discriminate|]);
               by apply elem_of_nil in H|]).
      constructor.
Qed.

Lemma NoDup_fmap_same {A B} (f : A -> B) (l : list A) x y :
  NoDup (f <$> l) -> x ∈ l -> y ∈ l -> f x = f y -> x = y.
Proof.
  induction l as [|a l IH]; intros Hnd Hx Hy Hf.
  - by apply elem_of_nil in Hx.
  - cbn in Hnd. apply NoDup_cons in Hnd as [Ha Hnd].
    apply elem_of_cons in Hx as [->|Hx], Hy as [->|Hy]; [done| | |by apply IH].
    + exfalso. apply Ha. rewrite Hf. by apply list_elem_of_fmap_2.
    + exfalso. apply Ha. rewrite <- Hf. by apply list_elem_of_fmap_2.
Qed.

Lemma to_come_settles evs :
  settles initialContent evs ->
  (forall i, (i < k)%nat -> resolved (load_logos i) (image i) ∈ evs) ->
  to_come initialContent image [] evs.
Proof.
  intros Hs Hall.
  assert (Hnd : NoDup (load_of <$> evs)).
  { unfold settles in Hs. rewrite Hs. apply pending_NoDup. }
  split; [done|]. split; [|by right; apply Hall].
  intros ev i Hin Hl. split; [apply not_elem_of_nil|].
  assert (Hi : (i < k)%nat).
  { apply Nat.ltb_lt. change (started initialContent (load_logos i) = true).
    apply (settles_started initialContent evs); [done|].
    rewrite <- Hl. by apply list_elem_of_fmap_2. }
  split; [done|].
  by apply (NoDup_fmap_same load_of evs); [| |apply Hall|].
Qed.

(** Once every load has settled, all the logos having loaded, the row is
    laid out. *)
Lemma row_laid c evs :
  wf c ->
  has_logoUrls initialContent = true ->
  settles initialContent evs ->
  (forall i, (i < k)%nat -> resolved (load_logos i) (image i) ∈ evs) ->
  row_done initialContent image (run initialContent c evs).
Proof.
  intros Hwf Hhas Hs Hall. unfold run.
  eapply row_completes.
  - by apply row_loading_initialize.
  - cbn. unfold has_logoUrls, logoUrls_of in *.
    destruct (InitialContent.logoUrls initialContent) as [[|u us]|];
      try discriminate. cbn. lia.
  - by apply to_come_settles.
Qed.

End MultiLogo.

(** ** The extent of the row *)

Section Extent.

Lemma Qsum_app a b : Qsum (a ++ b) == Qsum a + Qsum b.
Proof.
  unfold Qsum. induction a as [|x a IH]; cbn [foldr app].
  - ring.
  - rewrite IH. ring.
Qed.

(** The right edge of the last logo lies the total width right of the
    left edge of the first. *)
Lemma row_right_end widths x0 n w :
  length widths = S n -> widths !! n = Some w ->
  currentX_at widths x0 n + w == x0 + total_width widths.
Proof.
  intros Hlen Hw. rewrite currentX_at_sum. unfold total_width.
  assert (Hsplit : widths = take n widths ++ [w]).
  { rewrite <- (take_S_r _ _ _ Hw). symmetry. apply take_ge. lia. }
  rewrite Hsplit at 3. rewrite Qsum_app. rewrite Hlen.
  rewrite length_take, Hlen, Nat.min_l by lia.
  rewrite Nat2Z.inj_succ, <- Z.add_1_r, inject_Z_plus.
  change (Qsum [w]) with (w + 0). change (inject_Z 1) with 1. ring.
Qed.

End Extent.

(** ** The row is centred on the shifted centreline *)

Section Row.

Variable initialContent : InitialContent.t.
Variable image : nat -> LoadedImage.

Lemma currentX_at_0 widths x : currentX_at widths x 0 = x.
Proof. by destruct widths. Qed.

Lemma row_widths_lookup i :
  (i < length (logoUrls_of initialContent))%nat ->
  row_widths initialContent image !! i
  = Some (row_width initialContent image i).
Proof.
  intros Hi. unfold row_widths. rewrite list_lookup_fmap.
  by rewrite lookup_seq_lt.
Qed.

Lemma currentX_at_S widths x i w :
  widths !! i = Some w ->
  currentX_at widths x (S i) == currentX_at widths x i + w + 30.
Proof.
  intros Hw. rewrite !currentX_at_sum. rewrite (take_S_r _ _ _ Hw).
  rewrite Qsum_app, length_app, Nat2Z.inj_add, inject_Z_plus.
  change (Qsum [w]) with (w + 0). unfold logoSpacing. cbn [length].
  change (inject_Z (Z.of_nat 1)) with 1. ring.
Qed.

(** A logo of the row is as wide on the canvas as the width the handler
    recorded for it. *)
Lemma scaled_width_laid_out i id x :
  scaled_width (laid_out (row_logo initialContent image i) id x)
  == row_width initialContent image i.
Proof.
  unfold scaled_width, laid_out, row_logo, row_width, multi_logo.
  cbn [fst snd].
  destruct (JS.truthy_bool _); cbn -[JS.or_num fit_scale Qmult];
    by rewrite or_num_0_eq.
Qed.

Lemma laid_out_image i id x :
  is_image (laid_out (row_logo initialContent image i) id x)
  /\ FabricObject.width (laid_out (row_logo initialContent image i) id x)
     = Some (img_width (image i))
  /\ FabricObject.height (laid_out (row_logo initialContent image i) id x)
     = Some (img_height (image i)).
Proof.
  unfold is_image, laid_out, row_logo, multi_logo. cbn [fst].
  by destruct (JS.truthy_bool _).
Qed.

Lemma spans_proper o a a' b b' : a == a' -> b == b' -> spans o a b -> spans o a' b'.
Proof.
  intros Ea Eb (Ho & Hl & Hr). split; [done|].
  unfold is_num, left_side, right_side in *.
  destruct (FabricObject.left o); cbn in *; [|done].
  split; [by rewrite <- Ea | by rewrite <- Eb].
Qed.

Lemma side_by_side_proper logos : forall x y,
  x == y -> side_by_side logos x -> side_by_side logos y.
Proof.
  induction logos as [|o logos IH]; intros x y E; [done|].
  cbn [side_by_side]. intros [Ho Hrest]. split.
  - apply (spans_proper o x y (x + scaled_width o)); [done | by rewrite E | done].
  - apply (IH (x + scaled_width o + 30)); [by rewrite E | done].
Qed.

Section SideBySide.

Variables (ids : nat -> nat) (x0 : Q).

Local Abbreviation widths := (row_widths initialContent image).
Local Abbreviation L :=
  (fun i => laid_out (row_logo initialContent image i) (ids i)
              (currentX_at widths x0 i
               + row_width initialContent image i / 2)).

Lemma laid_out_spans i :
  spans (L i) (currentX_at widths x0 i)
        (currentX_at widths x0 i + scaled_width (L i)).
Proof.
  split; [done|]. pose proof (scaled_width_laid_out i (ids i)
    (currentX_at widths x0 i + row_width initialContent image i / 2)) as E.
  unfold is_num, left_side, right_side.
  cbn [laid_out FabricObject.left FabricObject.set_position num_eq].
  fold (L i). split.
  - rewrite E. field.
  - rewrite E. field.
Qed.

Lemma row_side_by_side n : forall j,
  (j + n <= length (logoUrls_of initialContent))%nat ->
  side_by_side (L <$> seq j n) (currentX_at widths x0 j).
Proof.
  induction n as [|n IH]; intros j Hj; [done|].
  cbn [seq fmap list_fmap side_by_side]. split; [apply laid_out_spans|].
  apply (side_by_side_proper _ (currentX_at widths x0 (S j))).
  - rewrite (currentX_at_S widths x0 j (row_width initialContent image j)).
    + by rewrite scaled_width_laid_out.
    + apply row_widths_lookup. lia.
  - apply IH. lia.
Qed.

Lemma Qsum_row n : forall j,
  Qsum (scaled_width <$> (L <$> seq j n))
  == Qsum (row_width initialContent image <$> seq j n).
Proof.
  induction n as [|n IH]; intros j; [reflexivity|].
  cbn [seq fmap list_fmap Qsum foldr].
  fold (Qsum (scaled_width <$> (L <$> seq (S j) n))).
  fold (Qsum (row_width initialContent image <$> seq (S j) n)).
  by rewrite IH, scaled_width_laid_out.
Qed.

End SideBySide.

(** The row as it lies on the canvas once every load has settled. *)
Lemma row_on_canvas (c : Canvas.t) (evs : list Completion) :
  wf c ->
  has_logoUrls initialContent = true ->
  settles initialContent evs ->
  (forall i, (i < length (logoUrls_of initialContent))%nat ->
             resolved (load_logos i) (image i) ∈ evs) ->
  exists logos first last,
    length logos = length (logoUrls_of initialContent)
    /\ (forall i o, logos !! i = Some o ->
          o ∈ Canvas._objects (canvas (run initialContent c evs))
          /\ is_image o
          /\ FabricObject.width o = Some (img_width (image i))
          /\ FabricObject.height o = Some (img_height (image i)))
    /\ head logos = Some first
    /\ List.last logos first = last
    /\ let totalWidth :=
         Qsum (scaled_width <$> logos)
         + 30 * (inject_Z (Z.of_nat (length (logoUrls_of initialContent))) - 1)
       in
       side_by_side logos ((THUMBNAIL_WIDTH - totalWidth) / 2 - 20)
       /\ is_num (left_side first) ((THUMBNAIL_WIDTH - totalWidth) / 2 - 20)
       /\ is_num (right_side last) ((THUMBNAIL_WIDTH + totalWidth) / 2 - 20).
Proof.
  intros Hwf Hhas Hs Hall.
  destruct (row_laid initialContent image c evs Hwf Hhas Hs Hall)
    as (_ & _ & ids & x0 & Hx & Hrow).
  set (k := length (logoUrls_of initialContent)) in *.
  assert (Hk : (0 < k)%nat).
  { unfold k, has_logoUrls, logoUrls_of in *.
    destruct (InitialContent.logoUrls initialContent) as [[|u us]|];
      try discriminate. cbn. lia. }
  set (widths := row_widths initialContent image).
  set (L := fun i => laid_out (row_logo initialContent image i) (ids i)
                       (currentX_at widths x0 i
                        + row_width initialContent image i / 2)).
  assert (HT : Qsum (scaled_width <$> (L <$> seq 0 k))
               + 30 * (inject_Z (Z.of_nat k) - 1)
               == total_width widths).
  { unfold L, widths. rewrite Qsum_row. unfold total_width, row_widths.
    rewrite length_fmap, length_seq. fold k. unfold logoSpacing. ring. }
  exists (L <$> seq 0 k), (L 0%nat), (L (k - 1)%nat).
  split; [by rewrite length_fmap, length_seq|].
  split; [|split; [|split]].
  - intros i o Hi. rewrite list_lookup_fmap in Hi.
    destruct (seq 0 k !! i) as [j|] eqn:Ej; [|discriminate].
    apply lookup_seq in Ej as [-> Hik]. cbn in Hi. injection Hi as <-.
    split; [by apply Hrow|]. apply laid_out_image.
  - destruct k; [lia|]. reflexivity.
  - destruct k as [|k']; [lia|].
    rewrite seq_S, fmap_app. cbn [fmap list_fmap].
    rewrite last_last. f_equal. lia.
  - cbv zeta. split; [|split].
    + apply (side_by_side_proper _ (currentX_at widths x0 0)).
      * rewrite currentX_at_0, Hx, HT. reflexivity.
      * apply row_side_by_side. fold k. lia.
    + destruct (laid_out_spans ids x0 0) as (_ & Hl & _).
      apply (is_num_proper _ (currentX_at widths x0 0)); [exact Hl|].
      rewrite currentX_at_0, Hx, HT. reflexivity.
    + destruct (laid_out_spans ids x0 (k - 1)) as (_ & _ & Hr).
      apply (is_num_proper _ _ _ Hr).
      rewrite scaled_width_laid_out.
      rewrite (row_right_end (row_widths initialContent image) x0 (k - 1)).
      * rewrite Hx, HT. unfold widths. field.
      * unfold row_widths. rewrite length_fmap, length_seq. fold k. lia.
      * apply row_widths_lookup. fold k. lia.
Qed.

(** C2 (amended): for a multi-logo descriptor with k logo URLs that all
    load, once every load has settled, in whatever order, the k logos are
    on the canvas, the i-th being the image its URL resolved with; each is
    positioned by its centre, and with the width each takes on the canvas
    (its width times its scale) they lie side by side, 30 apart.  With
    totalWidth the sum of these scaled widths plus 30 x (k - 1), the
    leftmost edge of the row is at (1280 - totalWidth) / 2 - 20 and its
    rightmost edge at (1280 + totalWidth) / 2 - 20: the row is totalWidth
    wide and centred on x = 620, 20 left of the middle of the canvas. *)
Theorem logos_row_extent (c : Canvas.t) (evs : list Completion) :
  wf c ->
  has_logoUrls initialContent = true ->
  settles initialContent evs ->
  (forall i, (i < length (logoUrls_of initialContent))%nat ->
             resolved (load_logos i) (image i) ∈ evs) ->
  exists logos first last,
    length logos = length (logoUrls_of initialContent)
    /\ (forall i o, logos !! i = Some o ->
          o ∈ Canvas._objects (canvas (run initialContent c evs))
          /\ is_image o
          /\ FabricObject.width o = Some (img_width (image i))
          /\ FabricObject.height o = Some (img_height (image i)))
    /\ head logos = Some first
    /\ List.last logos first = last
    /\ let totalWidth :=
         Qsum (scaled_width <$> logos)
         + 30 * (inject_Z (Z.of_nat (length (logoUrls_of initialContent))) - 1)
       in
       side_by_side logos ((THUMBNAIL_WIDTH - totalWidth) / 2 - 20)
       /\ is_num (left_side first) ((THUMBNAIL_WIDTH - totalWidth) / 2 - 20)
       /\ is_num (right_side last) ((THUMBNAIL_WIDTH + totalWidth) / 2 - 20).
Proof. apply row_on_canvas. Qed.

End Row.

Lemma logos_row_extent_witness :
  exists logos first last,
    length logos = length (logoUrls_of content_tab6)
    /\ (forall i o, logos !! i = Some o ->
          o ∈ Canvas._objects
                (canvas (run content_tab6 blank_canvas schedule_tab6))
          /\ is_image o
          /\ FabricObject.width o = Some (img_width (images_tab6 i))
          /\ FabricObject.height o = Some (img_height (images_tab6 i)))
    /\ head logos = Some first
    /\ List.last logos first = last
    /\ let totalWidth :=
         Qsum (scaled_width <$> logos)
         + 30 * (inject_Z (Z.of_nat (length (logoUrls_of content_tab6))) - 1)
       in
       side_by_side logos ((THUMBNAIL_WIDTH - totalWidth) / 2 - 20)
       /\ is_num (left_side first) ((THUMBNAIL_WIDTH - totalWidth) / 2 - 20)
       /\ is_num (right_side last) ((THUMBNAIL_WIDTH + totalWidth) / 2 - 20).
Proof.
  apply (logos_row_extent content_tab6 images_tab6 blank_canvas schedule_tab6).
  - apply wf_new.
  - reflexivity.
  - unfold settles. apply (bool_decide_unpack _). vm_compute. exact I.
  - intros [|[|[|i]]] Hi.
    + apply list_elem_of_further, list_elem_of_here.
    + do 3 apply list_elem_of_further. apply list_elem_of_here.
    + apply list_elem_of_here.
    + cbn in Hi. lia.
Defined.

(** C2 as stated fails: a single logo, 150 wide on the canvas, is centred
    at 620, so its left edge is at 545 and its right edge at 695, not at
    (1280 - 150) / 2 = 565 and (1280 + 150) / 2 = 715. *)
Lemma logos_row_centre_counterexample :
  has_logoUrls content_one_logo = true
  /\ exists logo,
       Canvas._objects
         (canvas (run content_one_logo blank_canvas
                      [resolved (load_logos 0) square_150]))
       = [logo]
       /\ scaled_width logo == 150
       /\ is_num (left_side logo) 545
       /\ is_num (right_side logo) 695
       /\ ~ is_num (left_side logo) ((1280 - 150) / 2)
       /\ ~ is_num (right_side logo) ((1280 + 150) / 2).
Proof.
  split; [reflexivity|].
  eexists. split; [reflexivity|].
  repeat split; try (vm_compute; reflexivity);
    intros H; vm_compute in H; discriminate H.
Qed.

(** ** The youtube logo on the canvas *)

Section YoutubeObjects.

Variable initialContent : InitialContent.t.
Variable loaded : LoadedImage.

Lemma background_inv_add o p :
  background_inv p ->
  background_inv (with_canvas (snd (Canvas.add o (canvas p))) p).
Proof.
  unfold background_inv. cbn [backgroundImageRef canvas with_canvas].
  destruct (backgroundImageRef p); [|done]. intros [? ?].
  split; [done|]. by apply back_most_add.
Qed.

(** The youtube logo, and its arrow when there is one, are the front-most
    objects once the load has completed. *)
Lemma on_youtubeLogo_objects p :
  background_inv p ->
  Canvas._objects (canvas (on_youtubeLogo initialContent loaded p))
  = Canvas._objects (canvas p)
    ++ FabricObject.with_oid (Canvas.nextId (canvas p))
         (fst (youtube_logo initialContent loaded))
       :: (if JS.truthy_bool (InitialContent.showArrow initialContent)
           then [FabricObject.with_oid (S (Canvas.nextId (canvas p)))
                   (new_Triangle (snd (youtube_logo initialContent loaded)))]
           else []).
Proof.
  intros Hbg. unfold on_youtubeLogo.
  destruct (youtube_logo initialContent loaded) as [img arrowTop].
  cbn [fst snd]. rewrite keep_background_back_id.
  - cbn [canvas with_canvas].
    destruct (JS.truthy_bool _); rewrite ?add_objects, ?add_nextId;
      by rewrite <- ?app_assoc.
  - destruct (JS.truthy_bool _).
    + apply (background_inv_add (new_Triangle arrowTop)
               (with_canvas (snd (Canvas.add img (canvas p))) p)).
      by apply background_inv_add.
    + by apply background_inv_add.
Qed.

End YoutubeObjects.

(** ** The shifted centreline *)

Section Centreline.

(** C9: every element the descriptor places on the horizontal centreline
    lies on the canvas positioned by its centre, on x = 1280 / 2 - 20 =
    620, that is 20 left of the middle of the canvas at 640: each text box
    the initialisation adds (unless its entry has a left or an originX of
    its own), the single logo, the youtube logo and its arrow, the nine
    ball and its numeral; and the multi-logo row as a whole, whose middle,
    half way between its leftmost and its rightmost edge, is 620. *)
Theorem centreline (initialContent : InitialContent.t)
    (loaded : LoadedImage) (c : Canvas.t) (p : Pass)
    (row : InitialContent.t) (images : nat -> LoadedImage)
    (evs : list Completion) :
  wf c ->
  pass_inv p ->
  has_logoUrls row = true ->
  settles row evs ->
  (forall i, (i < length (logoUrls_of row))%nat ->
             resolved (load_logos i) (images i) ∈ evs) ->
  (620 == THUMBNAIL_WIDTH / 2 - 20)
  /\ (exists added,
        textboxes (canvas (initialize initialContent c)) = textboxes c ++ added
        /\ Forall2 (fun entry o =>
                      FabricObject.originX o
                      = Some (supplied_or (TextConfig.originX entry) o_center)
                      /\ is_num (FabricObject.left o)
                                (supplied_or (TextConfig.left entry) 620))
                   (texts_of initialContent) added)
  /\ (exists logo,
        Canvas._objects (canvas (on_logo initialContent loaded p))
        = Canvas._objects (canvas p) ++ [logo]
        /\ is_image logo
        /\ FabricObject.originX logo = Some o_center
        /\ is_num (FabricObject.left logo) 620)
  /\ (exists logo arrow,
        Canvas._objects (canvas (on_youtubeLogo initialContent loaded p))
        = Canvas._objects (canvas p)
          ++ logo :: (if JS.truthy_bool
                           (InitialContent.showArrow initialContent)
                      then [arrow] else [])
        /\ (is_image logo
            /\ FabricObject.originX logo = Some o_center
            /\ is_num (FabricObject.left logo) 620)
        /\ (FabricObject.type arrow = triangle
            /\ FabricObject.originX arrow = Some o_center
            /\ is_num (FabricObject.left arrow) 620))
  /\ (exists back front ball numeral,
        Canvas._objects (canvas (createNineBall initialContent p))
        = back ++ [ball; numeral] ++ front
        /\ (FabricObject.type ball = circle
            /\ FabricObject.originX ball = Some o_center
            /\ is_num (FabricObject.left ball) 620)
        /\ (FabricObject.type numeral = text
            /\ FabricObject.originX numeral = Some o_center
            /\ is_num (FabricObject.left numeral) 620))
  /\ (exists logos first last leftmost rightmost,
        length logos = length (logoUrls_of row)
        /\ (forall i o, logos !! i = Some o ->
              o ∈ Canvas._objects (canvas (run row c evs)) /\ is_image o)
        /\ side_by_side logos leftmost
        /\ head logos = Some first
        /\ List.last logos first = last
        /\ is_num (left_side first) leftmost
        /\ is_num (right_side last) rightmost
        /\ (leftmost + rightmost) / 2 == 620).
Proof.
  intros Hwf Hp Hhas Hs Hall.
  pose proof (pass_inv_background p Hp) as Hbg.
  split; [reflexivity|]. split; [|split; [|split; [|split]]].
  - eexists. split; [by apply initialize_textboxes|].
    eapply Forall2_impl; [apply documented_imap|].
    intros entry o [(_ & _ & Hl & _ & _ & _ & Hx & _) _]. by split.
  - eexists. split; [by apply on_logo_objects|].
    destruct (single_logo_shape initialContent loaded)
      as (Hty & Hx & _ & Hl & _).
    split; [exact Hty|]. split; [exact Hx|].
    unfold is_num. cbn [FabricObject.left FabricObject.with_oid].
    rewrite Hl. reflexivity.
  - do 2 eexists. split; [by apply on_youtubeLogo_objects|].
    split; repeat split; reflexivity.
  - destruct Hp as (Hwf' & _ & _).
    exists (other_objects (Canvas._objects (canvas p))),
           (text_objects (Canvas._objects (canvas p))),
           (nineBall_circle initialContent (Canvas.nextId (canvas p))),
           (nineBall_numeral initialContent (Canvas.nextId (canvas p))).
    split; [by apply createNineBall_objects|].
    split; repeat split; reflexivity.
  - destruct (row_on_canvas row images c evs Hwf Hhas Hs Hall)
      as (logos & first & last & Hlen & Hon & Hhead & Hlast & Hrow).
    cbv zeta in Hrow. destruct Hrow as (Hside & Hl & Hr).
    exists logos, first, last. do 2 eexists.
    split; [exact Hlen|]. split.
    { intros i o Hi. destruct (Hon i o Hi) as (? & ? & _). by split. }
    split; [exact Hside|]. split; [exact Hhead|]. split; [exact Hlast|].
    split; [exact Hl|]. split; [exact Hr|].
    unfold THUMBNAIL_WIDTH. field.
Qed.

End Centreline.

Lemma centreline_witness :
  (exists logo,
     Canvas._objects
       (canvas (on_logo content_tab2 square_200
                        (initialize content_tab2 blank_canvas)))
     = Canvas._objects (canvas (initialize content_tab2 blank_canvas))
       ++ [logo]
     /\ is_image logo
     /\ FabricObject.originX logo = Some o_center
     /\ is_num (FabricObject.left logo) 620)
  /\ exists logos first last leftmost rightmost,
       length logos = length (logoUrls_of content_tab6)
       /\ (forall i o, logos !! i = Some o ->
             o ∈ Canvas._objects
                   (canvas (run content_tab6 blank_canvas schedule_tab6))
             /\ is_image o)
       /\ side_by_side logos leftmost
       /\ head logos = Some first
       /\ List.last logos first = last
       /\ is_num (left_side first) leftmost
       /\ is_num (right_side last) rightmost
       /\ (leftmost + rightmost) / 2 == 620.
Proof.
  destruct (centreline content_tab2 square_200 blank_canvas
              (initialize content_tab2 blank_canvas)
              content_tab6 images_tab6 schedule_tab6)
    as (_ & _ & H1 & _ & _ & H2).
  - apply wf_new.
  - apply pass_inv_initialize, wf_new.
  - reflexivity.
  - unfold settles. apply (bool_decide_unpack _). vm_compute. exact I.
  - intros [|[|[|i]]] Hi.
    + apply list_elem_of_further, list_elem_of_here.
    + do 3 apply list_elem_of_further. apply list_elem_of_here.
    + apply list_elem_of_here.
    + cbn in Hi. lia.
  - split; [exact H1 | exact H2].
Defined.

(** ** The one-shot guard *)

Section Guard.

(** While the guard is set, a further run of the effect schedules no
    callback. *)
Lemma effect_guarded (e : Editor) :
  initializedRef e = true -> timeouts (effect e) = timeouts e.
Proof.
  intros H. unfold effect. rewrite H. by destruct (initialContent e).
Qed.

(** The cleanup resets the guard and leaves the callback scheduled. *)
Lemma cleanup_keeps_timeouts (e : Editor) :
  initializedRef (cleanup e) = false /\ timeouts (cleanup e) = timeouts e.
Proof. split; reflexivity. Qed.

(** A re-mount after the callback has run shows the content once. *)
Example remount_after_callback_once :
  length (textboxes_of
            (steps (render "canvas-1" (Some content_one_text))
                   remount_after_callback)) = 1%nat.
Proof. reflexivity. Qed.

(** A load handler of a callback that outlives its canvas works on the
    canvas of the next mount: the logo is added there, and the background
    image of the old canvas, sent to the back, joins it. *)
Example old_background_joins_new_canvas :
  exists c bg logo,
    fabricCanvasRef (steps (render "canvas-1" (Some content_bg_logo))
                           remount_between_loads) = Some c
    /\ Canvas._objects c = [bg; logo]
    /\ FabricObject.selectable bg = Some false
    /\ FabricObject.originY logo = Some o_top
    /\ FabricObject.oid bg <> FabricObject.oid logo.
Proof. do 3 eexists. repeat split; try reflexivity. discriminate. Qed.

(** C5 fails on the code: when the effect is cleaned up and run again
    before the deferred callback of its first run is due, that callback is
    still scheduled and finds the new canvas in [fabricCanvasRef]; the
    guard having been reset, the second run schedules its own; both
    populate the one new canvas, which ends with the descriptor's single
    text twice. *)
Theorem remount_before_callback_duplicates :
  let e := steps (render "canvas-1" (Some content_one_text))
                 remount_before_callback in
  length (texts_of content_one_text) = 1%nat
  /\ timeouts e = []
  /\ exists c,
       fabricCanvasRef e = Some c
       /\ Canvas.disposed c = false
       /\ length (textboxes c) = 2%nat.
Proof.
  split; [reflexivity|]. split; [reflexivity|].
  eexists. split; [reflexivity|]. split; reflexivity.
Qed.

End Guard.

(** * Further properties *)

(** ** Minimum, maximum and defaulting on rationals *)

Section MinMax.

Lemma min_le_l a b : JS.min a b <= a.
Proof.
  unfold JS.min. destruct (Qle_bool a b) eqn:E; [apply Qle_refl|].
  apply Qlt_le_weak, Qnot_le_lt. intros H. apply Qle_bool_iff in H.
  congruence.
Qed.

Lemma min_le_r a b : JS.min a b <= b.
Proof.
  unfold JS.min. destruct (Qle_bool a b) eqn:E; [|apply Qle_refl].
  by apply Qle_bool_iff.
Qed.

Lemma min_cases a b : JS.min a b = a \/ JS.min a b = b.
Proof. unfold JS.min. destruct (Qle_bool a b); auto. Qed.

Lemma max_ge_l a b : a <= JS.max a b.
Proof.
  unfold JS.max. destruct (Qle_bool a b) eqn:E; [|apply Qle_refl].
  by apply Qle_bool_iff.
Qed.

Lemma max_ge_r a b : b <= JS.max a b.
Proof.
  unfold JS.max. destruct (Qle_bool a b) eqn:E; [apply Qle_refl|].
  apply Qlt_le_weak, Qnot_le_lt. intros H. apply Qle_bool_iff in H.
  congruence.
Qed.

Lemma max_cases a b : JS.max a b = a \/ JS.max a b = b.
Proof. unfold JS.max. destruct (Qle_bool a b); auto. Qed.

Lemma or_num_positive v d : 0 < v -> JS.or_num (Some v) d = v.
Proof.
  intros H. apply or_num_supplied. intros E. rewrite E in H.
  by apply Qlt_irrefl in H.
Qed.

Lemma div_mul_cancel m v : 0 < v -> v * (m / v) == m.
Proof.
  intros H. field. intros E. rewrite E in H. by apply Qlt_irrefl in H.
Qed.

(** Scaling an extent [v] by at most [m / v] keeps it within [m]; by at
    least [m / v] makes it reach [m]. *)
Lemma scaled_le m v s : 0 < v -> s <= m / v -> v * s <= m.
Proof.
  intros Hv Hs. rewrite <- (div_mul_cancel m v Hv).
  by apply Qmult_le_l.
Qed.

Lemma scaled_ge m v s : 0 < v -> m / v <= s -> m <= v * s.
Proof.
  intros Hv Hs. rewrite <- (div_mul_cancel m v Hv).
  by apply Qmult_le_l.
Qed.

Lemma div_nonneg m v : 0 <= m -> 0 < v -> 0 <= m / v.
Proof.
  intros Hm Hv. unfold Qdiv. apply Qmult_le_0_compat; [done|].
  by apply Qlt_le_weak, Qinv_lt_0_compat.
Qed.

(** The scale that fits an image into a square. *)
Lemma fit_scale_fits side loaded :
  has_extent loaded -> 0 <= side ->
  0 <= fit_scale side (Image_of loaded)
  /\ img_width loaded * fit_scale side (Image_of loaded) <= side
  /\ img_height loaded * fit_scale side (Image_of loaded) <= side
  /\ (img_width loaded * fit_scale side (Image_of loaded) == side
      \/ img_height loaded * fit_scale side (Image_of loaded) == side).
Proof.
  intros [Hw Hh] Hs. unfold fit_scale. cbn [Image_of FabricObject.width
    FabricObject.height]. rewrite !or_num_positive by done.
  split; [|split; [|split]].
  - destruct (min_cases (side / img_width loaded) (side / img_height loaded))
      as [-> | ->]; by apply div_nonneg.
  - apply scaled_le; [done | apply min_le_l].
  - apply scaled_le; [done | apply min_le_r].
  - destruct (min_cases (side / img_width loaded) (side / img_height loaded))
      as [-> | ->]; [left | right]; by apply div_mul_cancel.
Qed.

End MinMax.

(** ** Scaling of logos, background and uploads *)

Section Scaling.

Variable initialContent : InitialContent.t.
Variable loaded : LoadedImage.

Lemma single_logo_scale :
  FabricObject.scaleX (single_logo initialContent loaded)
  = Some (fit_scale
            (200 * JS.or_num
                     (InitialContent.logoSizeMultiplier initialContent) 1)
            (Image_of loaded))
  /\ FabricObject.scaleY (single_logo initialContent loaded)
     = FabricObject.scaleX (single_logo initialContent loaded).
Proof. unfold single_logo. by destruct (JS.truthy_bool _). Qed.

Lemma multi_logo_scale url :
  FabricObject.scaleX (fst (multi_logo initialContent url loaded))
  = Some (fit_scale (maxLogoWidth_of initialContent url) (Image_of loaded))
  /\ FabricObject.scaleY (fst (multi_logo initialContent url loaded))
     = FabricObject.scaleX (fst (multi_logo initialContent url loaded)).
Proof. unfold multi_logo. cbn [fst]. by destruct (JS.truthy_bool _). Qed.

Lemma maxLogoWidth_nonneg url :
  0 <= JS.or_num (InitialContent.logoSizeMultiplier initialContent) 1 ->
  0 <= maxLogoWidth_of initialContent url.
Proof.
  intros H. unfold maxLogoWidth_of. cbv zeta.
  destruct (JS.includes "APA.png" url); [|destruct (JS.includes _ url)];
    apply Qmult_le_0_compat; try done.
Qed.

Lemma fits_square_proper o side side' :
  side == side' -> fits_square o loaded side -> fits_square o loaded side'.
Proof.
  intros E (scale & Hx & Hy & H0 & Hw & Hh & Hor).
  exists scale. rewrite <- E. by repeat split.
Qed.

(** The side of the square a logo of the row is fitted into. *)
Lemma maxLogoWidth_explicit url :
  maxLogoWidth_of initialContent url
  == (if JS.includes "APA.png" url then 187.5
      else if JS.includes "barako.png" url then 142.5
      else 150)
     * JS.or_num (InitialContent.logoSizeMultiplier initialContent) 1.
Proof.
  unfold maxLogoWidth_of. cbv zeta.
  destruct (JS.includes "APA.png" url); [|destruct (JS.includes _ url)];
    ring.
Qed.

(** X4: a logo of the descriptor is scaled by one factor in both
    directions so that it fits a square, and touches it in its larger
    direction.  The side of the square is 200 for the single logo; for a
    logo of the row 187.5 when its URL contains APA.png, else 142.5 when
    it contains barako.png, else 150; and 300 for the youtube logo - each
    times its size multiplier, which counts as 1 when it is absent or
    0. *)
Theorem logos_fit_their_square (url : string) :
  has_extent loaded ->
  0 <= JS.or_num (InitialContent.logoSizeMultiplier initialContent) 1 ->
  0 <= JS.or_num (InitialContent.youtubeLogoSizeMultiplier initialContent) 1 ->
  fits_square (single_logo initialContent loaded) loaded
    (200 * JS.or_num (InitialContent.logoSizeMultiplier initialContent) 1)
  /\ fits_square (fst (multi_logo initialContent url loaded)) loaded
       ((if JS.includes "APA.png" url then 187.5
         else if JS.includes "barako.png" url then 142.5
         else 150)
        * JS.or_num (InitialContent.logoSizeMultiplier initialContent) 1)
  /\ fits_square (fst (youtube_logo initialContent loaded)) loaded
       (300 * JS.or_num
                (InitialContent.youtubeLogoSizeMultiplier initialContent) 1).
Proof.
  intros Hext Hm Hy. split; [|split].
  - destruct single_logo_scale as [Hx Hyy].
    destruct (fit_scale_fits
                (200 * JS.or_num
                         (InitialContent.logoSizeMultiplier initialContent) 1)
                loaded Hext) as (H0 & H1 & H2 & H3).
    { by apply Qmult_le_0_compat. }
    eexists. split; [exact Hx|]. split; [by rewrite Hyy|]. done.
  - apply (fits_square_proper _ (maxLogoWidth_of initialContent url));
      [apply maxLogoWidth_explicit|].
    destruct (multi_logo_scale url) as [Hx Hyy].
    destruct (fit_scale_fits (maxLogoWidth_of initialContent url) loaded Hext)
      as (H0 & H1 & H2 & H3).
    { by apply maxLogoWidth_nonneg. }
    eexists. split; [exact Hx|]. split; [by rewrite Hyy|]. done.
  - destruct (fit_scale_fits
                (300 * JS.or_num
                         (InitialContent.youtubeLogoSizeMultiplier
                            initialContent) 1)
                loaded Hext) as (H0 & H1 & H2 & H3).
    { by apply Qmult_le_0_compat. }
    eexists. split; [reflexivity|]. split; [reflexivity|]. done.
Qed.

(** X3: the background image is scaled by one factor so that it covers
    the whole canvas: its scaled width is at least 1280, its scaled height
    at least 720, and one of the two is exact. *)
Theorem background_covers (p : Pass) :
  has_extent loaded ->
  exists bg scale,
    backgroundImageRef (on_background loaded p) = Some bg
    /\ FabricObject.scaleX bg = Some scale
    /\ FabricObject.scaleY bg = Some scale
    /\ THUMBNAIL_WIDTH <= img_width loaded * scale
    /\ THUMBNAIL_HEIGHT <= img_height loaded * scale
    /\ (img_width loaded * scale == THUMBNAIL_WIDTH
        \/ img_height loaded * scale == THUMBNAIL_HEIGHT).
Proof.
  intros [Hw Hh]. do 2 eexists. split; [|split; [|split]].
  - unfold on_background. cbv zeta. cbn [Canvas.add backgroundImageRef].
    reflexivity.
  - reflexivity.
  - reflexivity.
  - cbn [Image_of FabricObject.width FabricObject.height].
    rewrite !or_num_positive by done. split; [|split].
    + apply scaled_ge; [done | apply max_ge_l].
    + apply scaled_ge; [done | apply max_ge_r].
    + destruct (max_cases (THUMBNAIL_WIDTH / img_width loaded)
                          (THUMBNAIL_HEIGHT / img_height loaded))
        as [-> | ->]; [left | right]; by apply div_mul_cancel.
Qed.


(** X11: an uploaded logo becomes the front-most object, nothing else
    changing; it fits the square of side 200, touching it in its larger
    direction, hangs from y = 100 and is centred on x = 635. *)
Theorem uploaded_logo_placed (c : Canvas.t) :
  has_extent loaded ->
  exists logo,
    Canvas._objects (handleLogoUpload (decoded loaded) c)
    = Canvas._objects c ++ [logo]
    /\ fits_square logo loaded 200
    /\ is_num (FabricObject.left logo) 635
    /\ is_num (FabricObject.top logo) 100
    /\ FabricObject.originX logo = Some o_center
    /\ FabricObject.originY logo = Some o_top.
Proof.
  intros Hext. eexists. split; [reflexivity|]. split.
  - destruct (fit_scale_fits 200 loaded Hext) as (H0 & H1 & H2 & H3);
      [done|].
    eexists. split; [reflexivity|]. split; [reflexivity|]. done.
  - repeat split; reflexivity.
Qed.

End Scaling.

(** ** The display size *)

Section Resize.

Lemma Qle_bool_false a b : b < a -> Qle_bool a b = false.
Proof.
  intros H. destruct (Qle_bool a b) eqn:E; [|done].
  apply Qle_bool_iff in E. lra.
Qed.

(** The size the element has on screen after a resize. *)
Lemma handleResize_style (clientWidth : Q) (c : Canvas.t) :
  let scale := JS.min ((clientWidth - 32) / THUMBNAIL_WIDTH) 1 in
  (0 <= clientWidth - 32 ->
   Canvas.styleWidth (handleResize clientWidth c)
   = Some (THUMBNAIL_WIDTH * scale)
   /\ Canvas.styleHeight (handleResize clientWidth c)
      = Some (THUMBNAIL_HEIGHT * scale))
  /\ (clientWidth - 32 < 0 ->
      Canvas.styleWidth (handleResize clientWidth c) = Some THUMBNAIL_WIDTH
      /\ Canvas.styleHeight (handleResize clientWidth c)
         = Some THUMBNAIL_HEIGHT).
Proof.
  intros scale. unfold handleResize. fold scale.
  cbn [Canvas.assign_style Canvas.set_style Canvas.styleWidth
       Canvas.styleHeight].
  assert (Hs : scale <= (clientWidth - 32) / THUMBNAIL_WIDTH
               /\ (scale == (clientWidth - 32) / THUMBNAIL_WIDTH
                   \/ scale == 1)).
  { split; [apply min_le_l|]. unfold scale.
    destruct (min_cases ((clientWidth - 32) / THUMBNAIL_WIDTH) 1)
      as [-> | ->]; [by left | by right]. }
  revert Hs. generalize scale. clear scale. intros scale [Hle Hcases].
  unfold THUMBNAIL_WIDTH, THUMBNAIL_HEIGHT, Qdiv in *.
  change (/ 1280) with (1 # 1280) in *.
  split; intros Hm.
  - assert (H0 : 0 <= scale) by (destruct Hcases; lra).
    assert (E1 : Qle_bool 0 (1280 * scale) = true)
      by (apply Qle_bool_iff; lra).
    assert (E2 : Qle_bool 0 (720 * scale) = true)
      by (apply Qle_bool_iff; lra).
    by rewrite E1, E2.
  - rewrite !Qle_bool_false by lra. done.
Qed.

(** X2: a resize changes the size of the element on screen only: the
    object list, the selection, the background and the coordinate space
    are left alone.  With the container less its padding of 32 between 0
    and 1280 wide, the element gets that width; otherwise - the container
    wider, or narrower than the padding, as that of a hidden tab is - it
    gets the full 1280 by 720.  It is never shown larger than that, and
    always in the proportion 16 to 9. *)
Theorem resize_never_upscales (clientWidth : Q) (c : Canvas.t) :
  exists w h,
    Canvas.styleWidth (handleResize clientWidth c) = Some w
    /\ Canvas.styleHeight (handleResize clientWidth c) = Some h
    /\ 0 <= w
    /\ w <= 1280
    /\ 9 * w == 16 * h
    /\ ((0 <= clientWidth - 32 /\ clientWidth - 32 <= 1280
         /\ w == clientWidth - 32)
        \/ ((clientWidth - 32 < 0 \/ 1280 < clientWidth - 32)
            /\ w == 1280 /\ h == 720))
    /\ Canvas._objects (handleResize clientWidth c) = Canvas._objects c
    /\ Canvas._activeObject (handleResize clientWidth c)
       = Canvas._activeObject c
    /\ Canvas.backgroundColor (handleResize clientWidth c)
       = Canvas.backgroundColor c
    /\ size (handleResize clientWidth c) = size c.
Proof.
  destruct (handleResize_style clientWidth c) as [Hin Hout].
  destruct (Qlt_le_dec (clientWidth - 32) 0) as [Hneg|Hpos].
  - destruct (Hout Hneg) as [-> ->]. do 2 eexists.
    split; [reflexivity|]. split; [reflexivity|].
    unfold THUMBNAIL_WIDTH, THUMBNAIL_HEIGHT.
    split; [lra|]. split; [lra|]. split; [reflexivity|].
    split; [right; split; [by left | split; reflexivity]|].
    by repeat split.
  - destruct (Hin Hpos) as [-> ->]. do 2 eexists.
    split; [reflexivity|]. split; [reflexivity|].
    unfold THUMBNAIL_WIDTH, THUMBNAIL_HEIGHT.
    assert (Hmin : JS.min ((clientWidth - 32) / 1280) 1
                   <= (clientWidth - 32) / 1280
                   /\ JS.min ((clientWidth - 32) / 1280) 1 <= 1)
      by (split; [apply min_le_l | apply min_le_r]).
    assert (Hcases : (Qle_bool ((clientWidth - 32) / 1280) 1 = true
                      /\ JS.min ((clientWidth - 32) / 1280) 1
                         == (clientWidth - 32) / 1280)
                     \/ (Qle_bool ((clientWidth - 32) / 1280) 1 = false
                         /\ JS.min ((clientWidth - 32) / 1280) 1 == 1)).
    { unfold JS.min. destruct (Qle_bool _ 1); [left | right]; by split. }
    revert Hmin Hcases.
    generalize (JS.min ((clientWidth - 32) / 1280) 1). intros scale.
    unfold Qdiv. change (/ 1280) with (1 # 1280).
    intros [H1 H2] Hcases.
    split; [destruct Hcases as [[_ E]|[_ E]]; lra|].
    split; [lra|]. split; [ring|].
    split; [|by repeat split].
    destruct Hcases as [[E Hs]|[E Hs]].
    + left. apply Qle_bool_iff in E. unfold Qdiv in E.
      change (/ 1280) with (1 # 1280) in E.
      split; [done|]. split; lra.
    + right. assert (H : ~ (clientWidth - 32) * (1 # 1280) <= 1).
      { intros H. apply Qle_bool_iff in H. congruence. }
      apply Qnot_le_lt in H.
      split; [right; lra|]. split; lra.
Qed.

End Resize.

(** ** The youtube logo and its arrow *)

Section Youtube.

Variable initialContent : InitialContent.t.
Variable loaded : LoadedImage.

(** X10: the youtube logo is put on top of the canvas, positioned by its
    centre: on x = 620, and so that its top edge - half its scaled height
    (its height times its scale) above the centre - is at youtubeLogoTop,
    at 70 when none is given, an explicit 0 being respected.  When
    showArrow is set, a red triangle turned by 180 degrees follows it,
    positioned by its centre too: on x = 620 and 30 below the bottom edge
    of the logo. *)
Theorem youtube_logo_hangs (p : Pass) :
  background_inv p ->
  let baseTop :=
    supplied_or (InitialContent.youtubeLogoTop initialContent) 70 in
  exists logo arrow height scale,
    Canvas._objects (canvas (on_youtubeLogo initialContent loaded p))
    = Canvas._objects (canvas p)
      ++ logo :: (if JS.truthy_bool (InitialContent.showArrow initialContent)
                  then [arrow] else [])
    /\ (is_image logo
        /\ FabricObject.height logo = Some height
        /\ FabricObject.scaleY logo = Some scale
        /\ FabricObject.originX logo = Some o_center
        /\ FabricObject.originY logo = Some o_center
        /\ is_num (FabricObject.left logo) 620
        /\ is_num (FabricObject.top logo) (baseTop + height * scale / 2))
    /\ (FabricObject.type arrow = triangle
        /\ FabricObject.angle arrow = Some 180
        /\ FabricObject.fill arrow = Some "#FF0000"%string
        /\ FabricObject.originX arrow = Some o_center
        /\ FabricObject.originY arrow = Some o_center
        /\ is_num (FabricObject.left arrow) 620
        /\ is_num (FabricObject.top arrow) (baseTop + height * scale + 30)).
Proof.
  intros Hbg baseTop.
  do 4 eexists. split; [by apply on_youtubeLogo_objects|]. split.
  - split; [reflexivity|]. split; [reflexivity|]. split; [reflexivity|].
    split; [reflexivity|]. split; [reflexivity|]. split; [reflexivity|].
    unfold is_num, youtube_logo. cbn [fst FabricObject.top
      FabricObject.with_oid FabricObject.set_position num_eq
      FabricObject.height FabricObject.scale Image_of].
    rewrite or_num_0_eq. unfold baseTop.
    by destruct (InitialContent.youtubeLogoTop initialContent).
  - do 6 (split; [reflexivity|]).
    unfold is_num, youtube_logo. cbn [snd FabricObject.top
      FabricObject.with_oid new_Triangle num_eq
      FabricObject.height FabricObject.scale Image_of].
    rewrite or_num_0_eq. unfold baseTop.
    destruct (InitialContent.youtubeLogoTop initialContent);
      cbn [supplied_or]; field.
Qed.

End Youtube.

Lemma youtube_logo_hangs_witness :
  let p := initialize content_subscribe blank_canvas in
  let baseTop :=
    supplied_or (InitialContent.youtubeLogoTop content_subscribe) 70 in
  exists logo arrow height scale,
    Canvas._objects (canvas (on_youtubeLogo content_subscribe square_200 p))
    = Canvas._objects (canvas p)
      ++ logo :: (if JS.truthy_bool (InitialContent.showArrow content_subscribe)
                  then [arrow] else [])
    /\ (is_image logo
        /\ FabricObject.height logo = Some height
        /\ FabricObject.scaleY logo = Some scale
        /\ FabricObject.originX logo = Some o_center
        /\ FabricObject.originY logo = Some o_center
        /\ is_num (FabricObject.left logo) 620
        /\ is_num (FabricObject.top logo) (baseTop + height * scale / 2))
    /\ (FabricObject.type arrow = triangle
        /\ FabricObject.angle arrow = Some 180
        /\ FabricObject.fill arrow = Some "#FF0000"%string
        /\ FabricObject.originX arrow = Some o_center
        /\ FabricObject.originY arrow = Some o_center
        /\ is_num (FabricObject.left arrow) 620
        /\ is_num (FabricObject.top arrow) (baseTop + height * scale + 30)).
Proof.
  apply (youtube_logo_hangs content_subscribe square_200). exact I.
Defined.

(** ** Adding a text and deleting it *)

Section AddDelete.

Lemma removeFromArray_last o l :
  FabricObject.oid o ∉ oids l -> Canvas.removeFromArray o (l ++ [o]) = l.
Proof.
  intros H. rewrite (removeFromArray_middle o l o []); [|done..].
  apply app_nil_r.
Qed.

Lemma delete_request_deletes r c :
  deletes r = true -> delete_request r c = handleDelete c.
Proof.
  destruct r as [|e]; [done|]. cbn. unfold handleKeyDown, handleDelete.
  by intros ->.
Qed.

(** X6: adding a text puts one text box on top of the canvas and selects
    it, so that a delete right after - by the button, or by Delete or
    Backspace without Ctrl or Meta - removes exactly that text box: the
    object list is what it was before the text was added.  An empty text
    adds nothing. *)
Theorem add_text_then_delete (text : string) (fontSize : Q)
    (fontFamily textColor : string) (r : DeleteRequest) (c : Canvas.t) :
  wf c -> text <> ""%string -> deletes r = true ->
  let added := handleAddText text fontSize fontFamily textColor c in
  (exists textObject,
     Canvas._objects added = Canvas._objects c ++ [textObject]
     /\ Canvas.getActiveObject added = Some textObject
     /\ FabricObject.type textObject = textbox
     /\ FabricObject.text textObject = Some text)
  /\ Canvas._objects (delete_request r added) = Canvas._objects c
  /\ handleAddText "" fontSize fontFamily textColor c = c.
Proof.
  intros [Hnd Hlt] Htext Hr added. split; [|split; [|reflexivity]].
  - unfold added, handleAddText. destruct text; [done|].
    eexists. by repeat split.
  - rewrite delete_request_deletes by done.
    unfold added, handleAddText, handleDelete. destruct text; [done|].
    cbn [Canvas.add Canvas.setActiveObject Canvas.getActiveObject
         Canvas._activeObject Canvas.remove Canvas._objects].
    apply removeFromArray_last. cbn. intros Hin.
    apply list_elem_of_fmap in Hin as (y & Hy & Hin).
    rewrite Forall_forall in Hlt. specialize (Hlt y Hin). lia.
Qed.

End AddDelete.

Lemma add_text_then_delete_witness :
  let added := handleAddText "Live" 60 "Arial" "#FFFFFF" blank_canvas in
  (exists textObject,
     Canvas._objects added = Canvas._objects blank_canvas ++ [textObject]
     /\ Canvas.getActiveObject added = Some textObject
     /\ FabricObject.type textObject = textbox
     /\ FabricObject.text textObject = Some "Live"%string)
  /\ Canvas._objects (delete_request (by_key plain_Backspace) added)
     = Canvas._objects blank_canvas
  /\ handleAddText "" 60 "Arial" "#FFFFFF" blank_canvas = blank_canvas.
Proof.
  apply (add_text_then_delete "Live" 60 "Arial" "#FFFFFF"
           (by_key plain_Backspace) blank_canvas).
  - apply wf_new.
  - discriminate.
  - reflexivity.
Defined.

(** ** The plain editor *)

Section Plain.

Import ThumbnailEditor.

Lemma removeFromArray_Forall (P : FabricObject.t -> Prop) o l :
  Forall P l -> Forall P (Canvas.removeFromArray o l).
Proof.
  induction 1 as [|x l Hx Hl IH]; cbn; [constructor|].
  destruct (Nat.eqb _ _); [done | by constructor].
Qed.

Lemma plain_frame_act c a :
  size (act c a) = size c
  /\ (Canvas.backgroundColor c = "#000000"%string ->
      Canvas.backgroundColor (act c a) = "#000000"%string)
  /\ (Forall (fun o => FabricObject.type o = textbox) (Canvas._objects c) ->
      Forall (fun o => FabricObject.type o = textbox)
             (Canvas._objects (act c a))).
Proof.
  destruct a as [file|t fs ff tc| | |w]; cbn [act].
  - done.
  - destruct t; [done|]. split; [done|]. split; [done|].
    cbn. intros H. apply Forall_app. split; [done|]. by repeat constructor.
  - unfold handleDelete. destruct (Canvas.getActiveObject c); [|done].
    split; [done|]. split; [done|]. cbn. apply removeFromArray_Forall.
  - split; [done|]. split; [done|]. intros _. cbn. constructor.
  - done.
Qed.

(** X12: whatever the user does in the plain editor - picking files to
    upload, adding texts, deleting, clearing, resizing - every object on
    its canvas is a text box: the handler of an upload is never called, so
    no image is ever added.  The canvas keeps the black background it was
    created with and its 1280 by 720 coordinate space; so a clear always
    gives back the canvas as it was created, and every export renders
    1280 by 720 on black. *)
Theorem plain_editor_frame (actions : list Action) :
  let c := fold_left act actions create in
  Forall (fun o => FabricObject.type o = textbox) (Canvas._objects c)
  /\ Canvas.backgroundColor c = "#000000"%string
  /\ size c = (THUMBNAIL_WIDTH, THUMBNAIL_HEIGHT)
  /\ (Canvas._objects (handleClear c) = Canvas._objects create
      /\ Canvas.backgroundColor (handleClear c)
         = Canvas.backgroundColor create
      /\ Canvas._activeObject (handleClear c) = Canvas._activeObject create)
  /\ (Canvas.url_width (href (handleExportPNG c)) == 1280
      /\ Canvas.url_height (href (handleExportPNG c)) == 720
      /\ Canvas.url_background (href (handleExportPNG c)) = "#000000"%string
      /\ Canvas.url_width (href (handleExportJPEG c)) == 1280
      /\ Canvas.url_height (href (handleExportJPEG c)) == 720
      /\ Canvas.url_background (href (handleExportJPEG c))
         = "#000000"%string).
Proof.
  cbv zeta.
  assert (H : Forall (fun o => FabricObject.type o = textbox)
                (Canvas._objects (fold_left act actions create))
              /\ Canvas.backgroundColor (fold_left act actions create)
                 = "#000000"%string
              /\ size (fold_left act actions create)
                 = (THUMBNAIL_WIDTH, THUMBNAIL_HEIGHT)).
  { assert (H0 : Forall (fun o => FabricObject.type o = textbox)
                   (Canvas._objects create)
                 /\ Canvas.backgroundColor create = "#000000"%string
                 /\ size create = (THUMBNAIL_WIDTH, THUMBNAIL_HEIGHT))
      by (split; [constructor | done]).
    revert H0. generalize create.
    induction actions as [|a actions IH]; intros c (Ht & Hb & Hs); [done|].
    cbn [fold_left]. apply IH.
    destruct (plain_frame_act c a) as (H1 & H2 & H3).
    split; [by apply H3|]. split; [by apply H2 | by rewrite H1]. }
  destruct H as (Ht & Hb & Hs). split; [done|]. split; [done|].
  split; [done|]. split; [by repeat split|].
  injection Hs as Hw Hh. cbn. rewrite Hw, Hh, Hb. by repeat split.
Qed.

End Plain.

(** ** Ordinal dates *)

Section Ordinal.

Local Open Scope Z_scope.

Lemma suffix_matches_below_100 (v : Z) :
  0 <= v < 100 -> suffix_matches v = true.
Proof.
  intros Hv.
  assert (H : forallb (fun i => suffix_matches (Z.of_nat i))
                      (List.seq 0 100) = true) by (vm_compute; reflexivity).
  rewrite forallb_forall in H. specialize (H (Z.to_nat v)).
  rewrite Z2Nat.id in H by lia. apply H. apply in_seq. lia.
Qed.

(** X1: for a day of the month, and any whole number from 0 up to the
    largest that JavaScript counts without gaps, the date of the fifth tab
    shows the decimal numeral of the number followed by its English
    ordinal suffix: th for 11, 12 and 13 and whatever ends in them,
    otherwise st, nd, rd after a last digit 1, 2, 3, and th after any
    other. *)
Theorem getOrdinalSuffix_english (n : Z) :
  0 <= n <= Tabbed.MAX_SAFE_INTEGER ->
  Tabbed.getOrdinalSuffix n
  = Some (Tabbed.decimal n ++ english_suffix n)%string.
Proof.
  intros Hn. unfold Tabbed.getOrdinalSuffix, Tabbed.number_to_string.
  rewrite Z.abs_eq by lia.
  destruct (Z.leb_spec n Tabbed.MAX_SAFE_INTEGER) as [_|Hgt]; [|lia].
  do 2 f_equal.
  unfold Tabbed.suffix_of. cbv zeta.
  rewrite (Z.rem_mod_nonneg n 100) by lia.
  pose proof (suffix_matches_below_100 (n mod 100)
                (Z.mod_pos_bound n 100 ltac:(lia))) as H.
  unfold suffix_matches in H.
  destruct (Tabbed.or_else _ _) as [suffix|]; [|discriminate].
  apply String.eqb_eq in H. rewrite H. unfold english_suffix.
  rewrite (Z.mod_mod_divide n 100 10) by (by exists 10).
  reflexivity.
Qed.

End Ordinal.

Lemma getOrdinalSuffix_english_witness :
  Tabbed.getOrdinalSuffix 22
  = Some (Tabbed.decimal 22 ++ english_suffix 22)%string.
Proof.
  apply getOrdinalSuffix_english. unfold Tabbed.MAX_SAFE_INTEGER. lia.
Defined.

Example ordinals_of_november :
  Tabbed.formattedDate 21 10 2025 = Some "21st November 2025"%string
  /\ Tabbed.formattedDate 12 10 2025 = Some "12th November 2025"%string
  /\ Tabbed.formattedDate 3 0 2026 = Some "3rd January 2026"%string
  /\ Tabbed.formattedDate 31 11 2026 = Some "31st December 2026"%string.
Proof. repeat split. Qed.

(** ** Counting the objects *)

Section Counting.

Variable initialContent : InitialContent.t.

Implicit Types (p : Pass) (c : Canvas.t).

Lemma place_logos_length logos : forall x c,
  length (Canvas._objects (place_logos logos x c))
  = length (Canvas._objects c).
Proof.
  induction logos as [|[i w] logos IH]; intros x c; [done|].
  cbn [place_logos]. rewrite IH. cbn. apply length_fmap.
Qed.

Lemma on_youtubeLogo_length loaded p :
  background_inv p ->
  length (Canvas._objects (canvas (on_youtubeLogo initialContent loaded p)))
  = (length (Canvas._objects (canvas p))
     + if JS.truthy_bool (InitialContent.showArrow initialContent)
       then 2 else 1)%nat.
Proof.
  intros Hbg. unfold on_youtubeLogo.
  destruct (youtube_logo initialContent loaded) as [img arrowTop].
  rewrite keep_background_back_id.
  - cbn [canvas with_canvas].
    destruct (JS.truthy_bool _); rewrite ?add_objects, ?length_app; cbn; lia.
  - destruct (JS.truthy_bool _).
    + apply (background_inv_add (new_Triangle arrowTop)
               (with_canvas (snd (Canvas.add img (canvas p))) p)).
      by apply background_inv_add.
    + by apply background_inv_add.
Qed.

Lemma createNineBall_length p :
  wf (canvas p) -> background_inv p ->
  length (Canvas._objects (canvas (createNineBall initialContent p)))
  = (length (Canvas._objects (canvas p)) + 2)%nat.
Proof.
  intros Hwf Hbg. rewrite createNineBall_objects by done.
  rewrite <- (text_other_perm (Canvas._objects (canvas p))) at 3.
  rewrite !length_app. cbn. lia.
Qed.

Lemma settle_length p ev :
  pass_inv p ->
  length (Canvas._objects (canvas (settle initialContent p ev)))
  = (length (Canvas._objects (canvas p)) + adds initialContent ev)%nat.
Proof.
  intros Hp. pose proof (pass_inv_background p Hp) as Hbg.
  pose proof Hp as (Hwf & _ & _).
  unfold settle, adds. destruct (negb _); [lia|].
  destruct ev as [[|index| | |] img|[|index| | |]]; try lia.
  - unfold on_background. cbv zeta.
    match goal with
    | |- context [Canvas.add ?x ?c] =>
        pose proof (add_sendObjectToBack x c Hwf) as Hobjs;
        destruct (Canvas.add x c)
    end.
    cbn [canvas fst snd] in *. rewrite Hobjs. cbn. lia.
  - destruct (_ !! index) as [url|]; [|lia].
    destruct (decide (S (loadedLogos p) = length (logoUrls_of initialContent)))
      as [E|E].
    + rewrite on_logos_final by done. cbn [canvas].
      rewrite place_logos_length, add_objects, length_app. cbn. lia.
    + rewrite on_logos_loading by done. cbn [canvas].
      rewrite add_objects, length_app. cbn. lia.
  - rewrite on_logo_objects by done. rewrite length_app. cbn. lia.
  - by apply on_youtubeLogo_length.
  - by apply createNineBall_length.
  - by apply createNineBall_length.
Qed.

Lemma initialize_length c :
  wf c ->
  length (Canvas._objects (canvas (initialize initialContent c)))
  = (length (Canvas._objects c) + adds_at_once initialContent)%nat.
Proof.
  intros Hwf. unfold initialize, adds_at_once, texts_of.
  set (p1 := match InitialContent.texts initialContent with
             | Some texts => _ | None => _ end).
  assert (H1 : wf (canvas p1) /\ background_inv p1
               /\ length (Canvas._objects (canvas p1))
                  = (length (Canvas._objects c)
                     + length (match InitialContent.texts initialContent with
                               | Some texts => texts | None => [] end))%nat).
  { unfold p1. destruct (InitialContent.texts initialContent) as [texts|].
    - cbn [canvas with_canvas]. split; [by apply wf_add_texts|].
      split; [exact I|]. destruct (add_texts_objects texts c) as [-> _].
      by rewrite length_app, length_imap.
    - cbn. split; [done|]. split; [exact I|]. lia. }
  destruct H1 as (Hwf1 & Hbg1 & Hlen).
  destruct (_ && _).
  - rewrite createNineBall_length by done. lia.
  - lia.
Qed.

(** X9: no handler of the callback ever takes an object off the canvas or
    puts one on twice.  After any completions, in any order, the canvas
    holds what it held before, one text box per text entry, and for each
    completed load what its handler adds: one image for the background, a
    logo or the youtube logo (two objects with the arrow), two objects for
    the nine ball - drawn whether its logo loads or fails - and nothing
    for any other failed load. *)
Theorem objects_counted (c : Canvas.t) (evs : list Completion) :
  wf c ->
  length (Canvas._objects (canvas (run initialContent c evs)))
  = (length (Canvas._objects c) + adds_at_once initialContent
     + sum_list (adds initialContent <$> evs))%nat.
Proof.
  intros Hwf. unfold run. rewrite <- initialize_length by done.
  generalize (pass_inv_initialize initialContent c Hwf).
  generalize (initialize initialContent c).
  induction evs as [|ev evs IH]; intros p Hp; [cbn; lia|].
  cbn [fold_left fmap list_fmap sum_list].
  rewrite IH by (by apply pass_inv_settle).
  rewrite settle_length by done.
  change (sum_list_with id (adds initialContent <$> evs))
    with (sum_list (adds initialContent <$> evs)).
  cbn. unfold sum_list. lia.
Qed.

End Counting.

Lemma objects_counted_witness :
  length (Canvas._objects (canvas (run content_tab6 blank_canvas schedule_tab6)))
  = (length (Canvas._objects blank_canvas) + adds_at_once content_tab6
     + sum_list (adds content_tab6 <$> schedule_tab6))%nat.
Proof. apply objects_counted, wf_new. Defined.

(** ** The scaling theorems at concrete images *)

Lemma logos_fit_their_square_witness :
  fits_square (single_logo content_tab1 tall_image) tall_image
    (200 * JS.or_num (InitialContent.logoSizeMultiplier content_tab1) 1)
  /\ fits_square (fst (multi_logo content_tab1 "/APA.png" tall_image))
       tall_image
       ((if JS.includes "APA.png" "/APA.png" then 187.5
         else if JS.includes "barako.png" "/APA.png" then 142.5
         else 150)
        * JS.or_num (InitialContent.logoSizeMultiplier content_tab1) 1)
  /\ fits_square (fst (youtube_logo content_tab1 tall_image)) tall_image
       (300 * JS.or_num
                (InitialContent.youtubeLogoSizeMultiplier content_tab1) 1).
Proof.
  apply (logos_fit_their_square content_tab1 tall_image "/APA.png"%string).
  - split; reflexivity.
  - vm_compute. discriminate.
  - vm_compute. discriminate.
Defined.

Lemma background_covers_witness :
  exists bg scale,
    backgroundImageRef
      (on_background tall_image (initialize content_tab6 blank_canvas))
    = Some bg
    /\ FabricObject.scaleX bg = Some scale
    /\ FabricObject.scaleY bg = Some scale
    /\ THUMBNAIL_WIDTH <= img_width tall_image * scale
    /\ THUMBNAIL_HEIGHT <= img_height tall_image * scale
    /\ (img_width tall_image * scale == THUMBNAIL_WIDTH
        \/ img_height tall_image * scale == THUMBNAIL_HEIGHT).
Proof.
  apply (background_covers tall_image (initialize content_tab6 blank_canvas)).
  split; reflexivity.
Defined.


Lemma uploaded_logo_placed_witness :
  exists logo,
    Canvas._objects (handleLogoUpload (decoded tall_image) blank_canvas)
    = Canvas._objects blank_canvas ++ [logo]
    /\ fits_square logo tall_image 200
    /\ is_num (FabricObject.left logo) 635
    /\ is_num (FabricObject.top logo) 100
    /\ FabricObject.originX logo = Some o_center
    /\ FabricObject.originY logo = Some o_top.
Proof.
  apply (uploaded_logo_placed tall_image blank_canvas).
  split; reflexivity.
Defined.

(** ** A logo of the row that fails to load *)

Section RowFailure.

Variable initialContent : InitialContent.t.
Variable i0 : nat.

Implicit Types (p : Pass) (ev : Completion).

Local Abbreviation k := (length (logoUrls_of initialContent)).

Hypothesis Hi0 : (i0 < k)%nat.






End RowFailure.


(** ** The component between mounts *)

Section Liveness.

Implicit Types (e : Editor) (ev : Event).

Lemma ref_kept_on_canvas f e :
  is_Some (fabricCanvasRef e) -> is_Some (fabricCanvasRef (on_canvas f e)).
Proof. unfold on_canvas. intros [c ->]. by eexists. Qed.

Lemma ref_kept_step e ev :
  is_Some (fabricCanvasRef e) -> is_Some (fabricCanvasRef (step e ev)).
Proof.
  intros He. destruct ev; cbn [step];
    try (by apply ref_kept_on_canvas);
    try (unfold on_window; destruct (listening e); [|done];
         by apply ref_kept_on_canvas).
  - unfold effect. destruct (initialContent e); [destruct (negb _)|];
      by eexists.
  - unfold cleanup. destruct He as [c ->]. by eexists.
  - unfold timeout. destruct (timeouts e); [done|].
    destruct He as [c ->]. by eexists.
  - unfold completion. destruct (passes e !! k) as [[d p]|]; [|done].
    destruct He as [c Hc]. rewrite Hc. by eexists.
Qed.

Lemma ref_kept_steps evs : forall e,
  is_Some (fabricCanvasRef e) -> is_Some (fabricCanvasRef (steps e evs)).
Proof.
  induction evs as [|ev evs IH]; intros e He; [done|].
  apply IH. by apply ref_kept_step.
Qed.

(** X13: once the effect has run, the ref is never empty again, whatever
    follows - unmounts, callbacks, completions, uploads, edits: the
    cleanup disposes the canvas but leaves it in the ref.  So the check
    [if (!fabricCanvasRef.current) return] of the handlers lets every
    handler through from the first mount on. *)
Theorem liveness_check_never_fails (id : string)
    (d : option InitialContent.t) (evs : list Event) :
  is_Some (fabricCanvasRef (steps (render id d) (ev_effect :: evs))).
Proof.
  change (steps (render id d) (ev_effect :: evs))
    with (steps (step (render id d) ev_effect) evs).
  apply ref_kept_steps. cbn [step]. unfold effect, render. cbn.
  destruct d; by eexists.
Qed.

End Liveness.

(** ** The background colour *)

Section BackgroundColour.

Implicit Types (c : Canvas.t) (p : Pass) (o : FabricObject.t).

Local Abbreviation colour := Canvas.backgroundColor.

Lemma colour_sendObjectToBack o c :
  colour (Canvas.sendObjectToBack o c) = colour c.
Proof.
  unfold Canvas.sendObjectToBack. destruct (Canvas._objects c); [done|].
  by destruct (Canvas.same_object _ o).
Qed.

Lemma colour_bringObjectToFront o c :
  colour (Canvas.bringObjectToFront o c) = colour c.
Proof.
  unfold Canvas.bringObjectToFront. destruct (last (Canvas._objects c)); [|done].
  by destruct (Canvas.same_object _ o).
Qed.

Lemma colour_texts_to_front l : forall c, colour (texts_to_front l c) = colour c.
Proof.
  induction l as [|x l IH]; intros c; [done|].
  unfold texts_to_front. cbn [fold_left]. fold (texts_to_front l).
  rewrite IH. destruct (FabricObject.is_text_object x); [|done].
  apply colour_bringObjectToFront.
Qed.

Lemma colour_add_texts texts : forall c, colour (add_texts texts c) = colour c.
Proof.
  induction texts as [|entry texts IH]; intros c; [done|].
  rewrite add_texts_cons. by rewrite IH.
Qed.

Lemma colour_place_logos logos : forall x c,
  colour (place_logos logos x c) = colour c.
Proof.
  induction logos as [|[i w] logos IH]; intros x c; [done|].
  cbn [place_logos]. by rewrite IH.
Qed.

Lemma colour_keep_background_back p :
  colour (canvas (keep_background_back p)) = colour (canvas p).
Proof.
  unfold keep_background_back. destruct (backgroundImageRef p); [|done].
  apply colour_sendObjectToBack.
Qed.

Lemma colour_createNineBall d p :
  colour (canvas (createNineBall d p)) = colour (canvas p).
Proof.
  unfold createNineBall. rewrite colour_keep_background_back.
  cbn [canvas with_canvas]. by rewrite colour_texts_to_front.
Qed.

Lemma colour_on_background img p :
  colour (canvas (on_background img p)) = colour (canvas p).
Proof.
  unfold on_background. cbn [canvas]. destruct (Canvas.add _ _) eqn:E.
  cbn [canvas]. rewrite colour_sendObjectToBack.
  by inversion E.
Qed.

Lemma colour_on_logos d index url total img p :
  colour (canvas (on_logos d index url total img p)) = colour (canvas p).
Proof.
  unfold on_logos. destruct (multi_logo d url img) as [o0 w].
  destruct (Canvas.add _ _) as [o c] eqn:E.
  assert (Hc : colour c = colour (canvas p)) by (by inversion E).
  destruct (Nat.eqb _ total); [|done].
  rewrite colour_keep_background_back. cbn [canvas].
  by rewrite colour_place_logos.
Qed.

Lemma colour_on_logo d img p :
  colour (canvas (on_logo d img p)) = colour (canvas p).
Proof. unfold on_logo. by rewrite colour_keep_background_back. Qed.

Lemma colour_on_youtubeLogo d img p :
  colour (canvas (on_youtubeLogo d img p)) = colour (canvas p).
Proof.
  unfold on_youtubeLogo. destruct (youtube_logo d img) as [o top].
  rewrite colour_keep_background_back. cbn [canvas with_canvas].
  by destruct (JS.truthy_bool _).
Qed.

Lemma colour_settle d p ev :
  colour (canvas (settle d p ev)) = colour (canvas p).
Proof.
  unfold settle. destruct (negb _); [done|].
  destruct ev as [[|index| | |] img|[|index| | |]];
    auto using colour_on_background, colour_on_logo, colour_on_youtubeLogo,
               colour_createNineBall.
  destruct (_ !! index); [apply colour_on_logos | done].
Qed.

Lemma colour_initialize d c : colour (canvas (initialize d c)) = colour c.
Proof.
  unfold initialize. destruct (_ && _).
  - rewrite colour_createNineBall.
    destruct (InitialContent.texts d); [apply colour_add_texts | done].
  - destruct (InitialContent.texts d); [apply colour_add_texts | done].
Qed.

Lemma colour_handleKeyDown e c : colour (handleKeyDown e c) = colour c.
Proof.
  unfold handleKeyDown. destruct (_ && _); [|done].
  by destruct (Canvas.getActiveObject c).
Qed.

Lemma colour_handleDelete c : colour (handleDelete c) = colour c.
Proof. unfold handleDelete. by destruct (Canvas.getActiveObject c). Qed.

Lemma colour_handleAddText t fs ff tc c :
  colour (handleAddText t fs ff tc c) = colour c.
Proof. by destruct t. Qed.

Lemma colour_handleImageUpload file c :
  colour (handleImageUpload file c) = colour c.
Proof. by destruct file. Qed.

Lemma colour_handleLogoUpload file c :
  colour (handleLogoUpload file c) = colour c.
Proof. by destruct file. Qed.

Lemma colour_of_on_canvas f e :
  (forall c, colour (f c) = colour c) ->
  colour_of (on_canvas f e) = colour_of e.
Proof.
  intros Hf. unfold colour_of, on_canvas.
  destruct (fabricCanvasRef e) as [c0|] eqn:E; [|by rewrite E].
  cbn. by rewrite Hf.
Qed.

Lemma colour_of_on_window f e :
  (forall c, colour (f c) = colour c) ->
  colour_of (on_window f e) = colour_of e.
Proof.
  intros Hf. unfold on_window. destruct (listening e); [|done].
  by apply colour_of_on_canvas.
Qed.

(** What an event does to the background colour. *)
Lemma colour_of_step e ev :
  colour_of (step e ev)
  = match ev with
    | ev_effect => Some (bgColor_of (initialContent e))
    | ev_clear => (fun _ => "#FFFFFF"%string) <$> colour_of e
    | _ => colour_of e
    end.
Proof.
  destruct ev; cbn [step].
  - unfold effect, colour_of.
    destruct (initialContent e); [destruct (negb _)|]; reflexivity.
  - unfold cleanup, colour_of. cbn. by destruct (fabricCanvasRef e).
  - unfold timeout, colour_of. destruct (timeouts e) as [|d' rest]; [done|].
    destruct (fabricCanvasRef e) as [c0|]; cbn; [|done].
    by rewrite colour_initialize.
  - unfold completion, colour_of.
    destruct (passes e !! k) as [[d' p]|]; [|done].
    destruct (fabricCanvasRef e) as [c0|] eqn:E; cbn; [|by rewrite E].
    by rewrite colour_settle.
  - by apply colour_of_on_window.
  - apply colour_of_on_window. intros c. apply colour_handleKeyDown.
  - apply colour_of_on_canvas. intros c. apply colour_handleDelete.
  - unfold colour_of, on_canvas.
    destruct (fabricCanvasRef e) as [c0|] eqn:E; [done | by rewrite E].
  - apply colour_of_on_canvas. intros c. apply colour_handleAddText.
  - apply colour_of_on_canvas. intros c. apply colour_handleImageUpload.
  - apply colour_of_on_canvas. intros c. apply colour_handleLogoUpload.
Qed.

Lemma initialContent_step e ev : initialContent (step e ev) = initialContent e.
Proof.
  destruct ev; cbn [step]; unfold on_window, on_canvas, with_ref.
  - unfold effect. by destruct (initialContent e); [destruct (negb _)|].
  - done.
  - unfold timeout. destruct (timeouts e); [done|].
    by destruct (fabricCanvasRef e).
  - unfold completion. destruct (passes e !! k) as [[d' p]|]; [|done].
    by destruct (fabricCanvasRef e).
  - destruct (listening e); [|done]. by destruct (fabricCanvasRef e).
  - destruct (listening e); [|done]. by destruct (fabricCanvasRef e).
  - by destruct (fabricCanvasRef e).
  - by destruct (fabricCanvasRef e).
  - by destruct (fabricCanvasRef e).
  - by destruct (fabricCanvasRef e).
  - by destruct (fabricCanvasRef e).
Qed.

Lemma background_kept_step d e ev :
  background_kept d e -> background_kept d (step e ev).
Proof.
  intros [Hd Hc]. split; [by rewrite initialContent_step|].
  rewrite colour_of_step. rewrite Hd.
  destruct ev; try done; [by right; left|].
  destruct Hc as [-> | [-> | ->]]; [by left | by right; right..].
Qed.

Lemma background_kept_steps d evs : forall e,
  background_kept d e -> background_kept d (steps e evs).
Proof.
  induction evs as [|ev evs IH]; intros e He; [done|].
  apply IH. by apply background_kept_step.
Qed.

(** X7: whatever the component has been through - mounts and unmounts,
    the deferred callback, loads that complete or fail, uploads, resizes,
    key presses and the buttons - its canvas has the background colour of
    its descriptor (white when it names none) or white; and of all the
    events only two touch the colour: a mount, which gives the new canvas
    the descriptor's colour, and Clear, which makes the canvas white.
    Every other event leaves the colour as it is. *)
Theorem background_colour_kept (id : string) (d : option InitialContent.t)
    (evs : list Event) :
  (colour_of (steps (render id d) evs) = None
   \/ colour_of (steps (render id d) evs) = Some (bgColor_of d)
   \/ colour_of (steps (render id d) evs) = Some "#FFFFFF"%string)
  /\ forall ev,
       colour_of (step (steps (render id d) evs) ev)
       = match ev with
         | ev_effect => Some (bgColor_of d)
         | ev_clear =>
             (fun _ => "#FFFFFF"%string) <$> colour_of (steps (render id d) evs)
         | _ => colour_of (steps (render id d) evs)
         end.
Proof.
  assert (H : background_kept d (steps (render id d) evs)).
  { apply background_kept_steps. split; [done | by left]. }
  destruct H as [Hd Hc]. split; [exact Hc|].
  intros ev. rewrite colour_of_step. by rewrite Hd.
Qed.

End BackgroundColour.
